(** * Viewer component of content-edit-api: a shallow embedding

    The development follows [src/components/viewer.tsx] (the second copy of
    the component under [src/unnamed] has the same handlers and the same
    text generator).  Definitions come first:

    - [Js]: the few JavaScript string primitives the component uses;
    - [Generator]: the replacement-text generator [generateRandomText];
    - [Viewer]: the component state, the overlay click listener and the
      two asynchronous toolbar handlers, written in a small program monad
      with [await], [try]/[catch] and [try]/[finally]; a run of a handler
      against given SDK answers; the event loop, in which a handler
      runs up to its next [await] and other events take their turn while
      it is parked; and the clean-up of the mount effect and the effect
      that logs the selection;
    - [Scenario]: concrete documents and SDK behaviours.

    The facts follow, grouped by the part of the component they are about.

    What is taken for granted about the surroundings: the promises of the
    SDK may be rejected, its synchronous calls and the DOM calls return;
    and an overlay item set under an identifier in use replaces the old
    one.

    The event loop comes twice.  In [step] a press of a toolbar button
    runs the handler of the latest render of the component, that is,
    re-rendering and the effect that hands the new handlers to the
    toolbar are over before the next user event.  In [turn] the toolbar
    runs the handlers it holds, and the effect that updates it and the
    clean-up of the mount effect are turns of their own; what holds
    only with an updated toolbar or without a clean-up says so. *)

From Stdlib Require Import String Ascii List ZArith Lia Bool Arith.
Import ListNotations.

Open Scope string_scope.

(* ================================================================== *)
(** ** JavaScript string primitives *)

Module Js.

(** [s.length], as the JavaScript number it is. *)
Definition len (s : string) : Z := Z.of_nat (String.length s).

(** A string in a boolean position: only the empty string is falsy. *)
Definition truthy (s : string) : bool :=
  match s with
  | EmptyString => false
  | String _ _ => true
  end.

(** [a || b] on strings. *)
Definition or_else (a b : string) : string := if truthy a then a else b.

(** [s.substring(from, to)]: both indexes are clamped to [0, s.length]
    and swapped when [from > to]. *)
Definition clamp (s : string) (i : Z) : Z := Z.max 0 (Z.min i (len s)).

Definition substring (s : string) (from to : Z) : string :=
  let a := clamp s from in
  let b := clamp s to in
  let lo := Z.min a b in
  let hi := Z.max a b in
  String.substring (Z.to_nat lo) (Z.to_nat (hi - lo)) s.

(** White space as [trim] understands it, for code units below 256:
    TAB, LF, VT, FF, CR, SPACE and NO-BREAK SPACE. *)
Definition isWhiteSpace (c : ascii) : bool :=
  let n := nat_of_ascii c in
  ((9 <=? n)%nat && (n <=? 13)%nat) || (n =? 32)%nat || (n =? 160)%nat.

Fixpoint trimStart (s : string) : string :=
  match s with
  | EmptyString => EmptyString
  | String c s' => if isWhiteSpace c then trimStart s' else s
  end.

Fixpoint trimEnd (s : string) : string :=
  match s with
  | EmptyString => EmptyString
  | String c s' =>
      let t := trimEnd s' in
      if isWhiteSpace c && negb (truthy t) then EmptyString else String c t
  end.

Definition trim (s : string) : string := trimEnd (trimStart s).

End Js.

(* ================================================================== *)
(** ** The replacement-text generator *)

Module Generator.

Definition words : list string :=
  [ "AI"; "tech"; "smart"; "fast"; "new"; "good"; "best"; "top"; "big";
    "real"; "data"; "code"; "web"; "app"; "tool"; "work"; "easy"; "cool";
    "hot"; "fun"; "modern"; "clean"; "simple"; "quick"; "strong";
    "bright"; "fresh"; "bold" ].

Definition maxAttempts : nat := 100.

Definition lorem : string :=
  "Lorem ipsum dolor sit amet consectetur adipiscing elit sed do eiusmod tempor incididunt ut labore et dolore magna aliqua".

(** [Math.floor(Math.random() * words.length)].  [Math.random()] lies in
    [0, 1), so the index is one of [0 .. words.length - 1] and every one
    of them can come out.  A draw is an arbitrary natural number, read
    modulo [words.length]. *)
Definition randomIndex (draw : nat) : nat := draw mod List.length words.

Definition randomWord (draw : nat) : string :=
  nth (randomIndex draw) words "".

(** The variables the [while] loop updates. *)
Record LoopState : Type := mkLoop { result : string; attempts : nat }.

Inductive Iteration : Type :=
| Continue (st : LoopState)
| Break (st : LoopState).

Section WithDraws.

(** [choices k] is the outcome of the [k]-th call of [Math.random()]
    inside one call of [generateRandomText].  Every iteration draws
    once and every iteration that does not leave the loop increments
    [attempts], so the draw of an iteration is [choices attempts]. *)
Variable choices : nat -> nat.

(** [result.length < originalLength - 10 && attempts < maxAttempts] *)
Definition loopGuard (originalLength : Z) (st : LoopState) : bool :=
  (Js.len (result st) <? originalLength - 10)%Z
  && (attempts st <? maxAttempts)%nat.

(** [result + (result ? ' ' : '') + randomWord] *)
Definition testResult (st : LoopState) : string :=
  result st ++ (if Js.truthy (result st) then " " else "")
            ++ randomWord (choices (attempts st)).

Definition loopBody (originalLength : Z) (st : LoopState) : Iteration :=
  if (Js.len (testResult st) <=? originalLength)%Z
  then Continue (mkLoop (testResult st) (S (attempts st)))
  else Break st.

(** The [while] loop as it runs, with a step budget that has nothing
    to do with the loop's own counter: [None] means the budget ran
    out before the loop was left. *)
Fixpoint whileLoop (fuel : nat) (originalLength : Z) (st : LoopState)
  : option LoopState :=
  match fuel with
  | O => None
  | S fuel' =>
      if loopGuard originalLength st then
        match loopBody originalLength st with
        | Continue st' => whileLoop fuel' originalLength st'
        | Break st' => Some st'
        end
      else Some st
  end.

(** The same loop by recursion on [maxAttempts - attempts], the
    quantity its guard bounds. *)
Fixpoint wordLoop (remaining : nat) (originalLength : Z) (st : LoopState)
  : LoopState :=
  match remaining with
  | O => st
  | S remaining' =>
      if loopGuard originalLength st then
        match loopBody originalLength st with
        | Continue st' => wordLoop remaining' originalLength st'
        | Break st' => st'
        end
      else st
  end.

(** What follows the loop: padding, truncation and the fallback. *)
Definition padded (originalLength : Z) (result : string) : string :=
  if (Js.len result <? originalLength - 20)%Z then
    let remainingLength := (originalLength - Js.len result - 1)%Z in
    if (remainingLength >? 0)%Z then
      let paddingText := Js.substring lorem 0 remainingLength in
      result ++ (if Js.truthy result then " " else "") ++ paddingText
    else result
  else result.

Definition truncated (originalLength : Z) (result : string) : string :=
  if (Js.len result >? originalLength)%Z
  then Js.trim (Js.substring result 0 originalLength)
  else result.

Definition finish (originalLength : Z) (result : string) : string :=
  Js.or_else (truncated originalLength (padded originalLength result))
             "AI text".

(** Only the length of [originalText] is read. *)
Definition generateRandomTextFuel (fuel : nat) (originalText : string)
  : option string :=
  let originalLength := Js.len originalText in
  match whileLoop fuel originalLength (mkLoop "" 0) with
  | Some st => Some (finish originalLength (result st))
  | None => None
  end.

Definition generateRandomText (originalText : string) : string :=
  let originalLength := Js.len originalText in
  finish originalLength
         (result (wordLoop maxAttempts originalLength (mkLoop "" 0))).

(** The words of the first [n] draws, in the order they are drawn. *)
Definition drawnWords (n : nat) : list string :=
  map (fun k => randomWord (choices k)) (seq 0 n).

(** What the loop keeps true of its two variables: the counter stays
    within [maxAttempts], the result is the words drawn so far joined by
    single spaces, and its length lies between two and six characters
    per word, separators counted. *)
Definition loopInv (st : LoopState) : Prop :=
  attempts st <= maxAttempts
  /\ result st = String.concat " " (drawnWords (attempts st))
  /\ (3 * Z.of_nat (attempts st) <= Js.len (result st) + 1)%Z
  /\ (Js.len (result st) + (if Js.truthy (result st) then 1 else 0)
      <= 7 * Z.of_nat (attempts st))%Z.

End WithDraws.

End Generator.

(* ================================================================== *)
(** ** The viewer component *)

Module Viewer.

(** *** Data of the content-editing API *)

Record BoundingBox : Type :=
  mkBoundingBox { bb_top : Z; bb_left : Z; bb_width : Z; bb_height : Z }.

Record Anchor : Type := mkAnchor { anchor_x : Z; anchor_y : Z }.

Record TextBlock : Type := mkTextBlock {
  tb_id : string;
  tb_text : string;
  tb_boundingBox : BoundingBox;
  tb_anchor : Anchor;
  tb_maxWidth : Z
}.

(** [TextBlock & { pageIndex: number }]: a region together with its page. *)
Record PagedTextBlock : Type :=
  withPageIndex { block : TextBlock; pageIndex : nat }.

Record UpdatedTextBlock : Type := mkUpdated {
  u_id : string;
  u_text : option string;
  u_anchor : option (option Z * option Z);
  u_maxWidth : option Z
}.

Record Point : Type := mkPoint { pt_x : Z; pt_y : Z }.

(** The [div] behind an overlay: the style properties the component
    sets (widths and heights in [px]) and the region its click listener
    closes over.  Assigning ['2px solid blue'] to [style.border] makes
    [style.borderColor] read ['blue']. *)
Record OverlayDiv : Type := mkOverlayDiv {
  style_position : string;
  style_border : string;
  style_borderColor : string;
  style_backgroundColor : string;
  style_width : Z;
  style_height : Z;
  style_cursor : string;
  listener_textBlock : PagedTextBlock
}.

Record CustomOverlayItem : Type := mkOverlayItem {
  co_id : string;
  co_node : OverlayDiv;
  co_pageIndex : nat;
  co_position : Point
}.

(** A thrown value. *)
Definition JsError : Type := string.

(** A content-editing session handle. *)
Definition Session : Type := nat.

(** The promise-returning calls of the viewer instance and of a session;
    [answer c] is what the promise of [c] resolves to. *)
Inductive SdkCall : Type :=
| beginContentEditingSession
| getTextBlocks (s : Session) (pageIndex : nat)
| updateTextBlocks (s : Session) (updates : list UpdatedTextBlock)
| commit (s : Session)
| discard (s : Session).

Definition answer (c : SdkCall) : Type :=
  match c with
  | beginContentEditingSession => Session
  | getTextBlocks _ _ => list TextBlock
  | updateTextBlocks _ _ => unit
  | commit _ => unit
  | discard _ => unit
  end.

(** *** State *)

(** React state and refs of the component. *)
Record ViewerState : Type := mkView {
  overlaysRef : list string;
  textBlocksRef : list PagedTextBlock;
  currentPageIndex : nat;
  isEditing : bool;
  selected : list PagedTextBlock;
  isProcessing : bool
}.

(** What the component reads from and writes to [window.viewerInstance]
    without awaiting. *)
Record Instance : Type := mkInstance {
  totalPageCount : nat;
  customOverlayItems : list CustomOverlayItem
}.

(** Everything observable, in order: console output (by its fixed text,
    interpolated values left out) and calls into the SDK. *)
Inductive Event : Type :=
| ConsoleLog (msg : string)
| ConsoleWarn (msg : string)
| ConsoleError (msg : string) (e : JsError)
| Called (c : SdkCall)
| SetOverlay (item : CustomOverlayItem)
| RemoveOverlay (overlayId : string).

Record World : Type := mkWorld {
  view : ViewerState;
  instance : Instance;
  journal : list Event
}.

Definition initialView : ViewerState :=
  mkView [] [] 0 false [] false.

Definition withView (f : ViewerState -> ViewerState) (w : World) : World :=
  mkWorld (f (view w)) (instance w) (journal w).

Definition record (e : Event) (w : World) : World :=
  mkWorld (view w) (instance w) (journal w ++ [e]).

(** *** Programs with [await] *)

Inductive Prog (A : Type) : Type :=
| Ret (a : A)
| Throw (e : JsError)
| Get (k : World -> Prog A)
| Put (f : World -> World) (k : Prog A)
| Await (c : SdkCall) (k : JsError + answer c -> Prog A).

Arguments Ret {A} a.
Arguments Throw {A} e.
Arguments Get {A} k.
Arguments Put {A} f k.
Arguments Await {A} c k.

Fixpoint bind {A B : Type} (p : Prog A) (f : A -> Prog B) : Prog B :=
  match p with
  | Ret a => f a
  | Throw e => Throw e
  | Get k => Get (fun w => bind (k w) f)
  | Put g k => Put g (bind k f)
  | Await c k => Await c (fun r => bind (k r) f)
  end.

Declare Scope prog_scope.
Delimit Scope prog_scope with prog.
Bind Scope prog_scope with Prog.

Notation "x <- p ;; q" := (bind p (fun x => q))
  (at level 61, p at next level, right associativity) : prog_scope.
Notation "p ;; q" := (bind p (fun _ => q))
  (at level 61, right associativity) : prog_scope.

Open Scope prog_scope.

(** [try { p } catch (e) { h e }] *)
Fixpoint tryCatch {A : Type} (p : Prog A) (h : JsError -> Prog A) : Prog A :=
  match p with
  | Ret a => Ret a
  | Throw e => h e
  | Get k => Get (fun w => tryCatch (k w) h)
  | Put g k => Put g (tryCatch k h)
  | Await c k => Await c (fun r => tryCatch (k r) h)
  end.

(** [try { p } finally { fin }]: [fin] runs either way, and an exception
    of [fin] replaces the completion of [p]. *)
Fixpoint tryFinally {A : Type} (p : Prog A) (fin : Prog unit) : Prog A :=
  match p with
  | Ret a => fin ;; Ret a
  | Throw e => fin ;; Throw e
  | Get k => Get (fun w => tryFinally (k w) fin)
  | Put g k => Put g (tryFinally k fin)
  | Await c k => Await c (fun r => tryFinally (k r) fin)
  end.

Definition modify (f : World -> World) : Prog unit := Put f (Ret tt).

Definition read {A : Type} (f : World -> A) : Prog A :=
  Get (fun w => Ret (f w)).

(** [await c]: a rejected promise throws. *)
Definition await (c : SdkCall) : Prog (answer c) :=
  Await c (fun r => match r with inl e => Throw e | inr v => Ret v end).

Fixpoint forEach {A : Type} (l : list A) (f : A -> Prog unit) : Prog unit :=
  match l with
  | [] => Ret tt
  | a :: l' => f a ;; forEach l' f
  end.

Definition console_log (msg : string) : Prog unit :=
  modify (record (ConsoleLog msg)).
Definition console_warn (msg : string) : Prog unit :=
  modify (record (ConsoleWarn msg)).
Definition console_error (msg : string) (e : JsError) : Prog unit :=
  modify (record (ConsoleError msg e)).

(** State setters and ref assignments. *)
Definition setIsProcessing (b : bool) : Prog unit :=
  modify (withView (fun v =>
    mkView (overlaysRef v) (textBlocksRef v) (currentPageIndex v)
           (isEditing v) (selected v) b)).

Definition setIsEditing (b : bool) : Prog unit :=
  modify (withView (fun v =>
    mkView (overlaysRef v) (textBlocksRef v) (currentPageIndex v)
           b (selected v) (isProcessing v))).

Definition updateSelected (f : list PagedTextBlock -> list PagedTextBlock)
    (v : ViewerState) : ViewerState :=
  mkView (overlaysRef v) (textBlocksRef v) (currentPageIndex v)
         (isEditing v) (f (selected v)) (isProcessing v).

Definition setSelected (l : list PagedTextBlock) : Prog unit :=
  modify (withView (updateSelected (fun _ => l))).

Definition assignOverlaysRef (l : list string) : Prog unit :=
  modify (withView (fun v =>
    mkView l (textBlocksRef v) (currentPageIndex v)
           (isEditing v) (selected v) (isProcessing v))).

Definition assignTextBlocksRef (l : list PagedTextBlock) : Prog unit :=
  modify (withView (fun v =>
    mkView (overlaysRef v) l (currentPageIndex v)
           (isEditing v) (selected v) (isProcessing v))).

(** The two synchronous overlay calls of the instance.  An item set
    under an identifier in use takes the place of the old one; removal
    is by identifier. *)
Definition hasId (overlayId : string) (item : CustomOverlayItem) : bool :=
  co_id item =? overlayId.

Definition withoutOverlay (overlayId : string)
    (items : list CustomOverlayItem) : list CustomOverlayItem :=
  filter (fun item => negb (hasId overlayId item)) items.

Definition setCustomOverlayItem (item : CustomOverlayItem) : Prog unit :=
  modify (fun w =>
    record (SetOverlay item)
      (mkWorld (view w)
         (mkInstance (totalPageCount (instance w))
            (withoutOverlay (co_id item) (customOverlayItems (instance w))
               ++ [item]))
         (journal w))).

Definition removeCustomOverlayItem (overlayId : string) : Prog unit :=
  modify (fun w =>
    record (RemoveOverlay overlayId)
      (mkWorld (view w)
         (mkInstance (totalPageCount (instance w))
            (withoutOverlay overlayId (customOverlayItems (instance w))))
         (journal w))).

(** *** The overlay click listener *)

(** [overlayDiv.style.borderColor === 'blue' || ... === ''] *)
Definition isCurrentlyBlue (node : OverlayDiv) : bool :=
  (style_borderColor node =? "blue") || (style_borderColor node =? "").

Definition withBorderColor (color : string) (node : OverlayDiv) : OverlayDiv :=
  mkOverlayDiv (style_position node) (style_border node) color
               (style_backgroundColor node) (style_width node)
               (style_height node) (style_cursor node)
               (listener_textBlock node).

Definition sameId (textBlock tb : PagedTextBlock) : bool :=
  tb_id (block tb) =? tb_id (block textBlock).

(** The updater handed to [setSelected]. *)
Definition selectionUpdate (wasBlue : bool) (textBlock : PagedTextBlock)
    (prevSelected : list PagedTextBlock) : list PagedTextBlock :=
  if wasBlue then
    let isAlreadySelected := existsb (sameId textBlock) prevSelected in
    if isAlreadySelected then prevSelected else prevSelected ++ [textBlock]
  else
    filter (fun tb => negb (sameId textBlock tb)) prevSelected.

(** [overlayDiv.style.borderColor = isCurrentlyBlue ? 'red' : 'blue'] *)
Definition toggledNode (node : OverlayDiv) : OverlayDiv :=
  withBorderColor (if isCurrentlyBlue node then "red" else "blue") node.

(** One click on an overlay: the new node and the new selection. *)
Definition clickListener (node : OverlayDiv)
    (prevSelected : list PagedTextBlock)
    : OverlayDiv * list PagedTextBlock :=
  (toggledNode node,
   selectionUpdate (isCurrentlyBlue node) (listener_textBlock node)
                   prevSelected).

(** The click delivered to the overlay item [overlayId] of the instance. *)
Definition clickItem (overlayId : string) (item : CustomOverlayItem)
    : CustomOverlayItem :=
  if hasId overlayId item
  then mkOverlayItem (co_id item) (toggledNode (co_node item))
                     (co_pageIndex item) (co_position item)
  else item.

Definition findOverlay (overlayId : string) (w : World)
    : option CustomOverlayItem :=
  find (hasId overlayId) (customOverlayItems (instance w)).

Definition clickOverlay (overlayId : string) (w : World) : World :=
  match findOverlay overlayId w with
  | None => w
  | Some item =>
      mkWorld
        (updateSelected
           (fun prev => snd (clickListener (co_node item) prev)) (view w))
        (mkInstance (totalPageCount (instance w))
           (map (clickItem overlayId) (customOverlayItems (instance w))))
        (journal w)
  end.

(** *** The editing-mode toggle *)

Definition createOverlayDiv (textBlock : PagedTextBlock) : OverlayDiv :=
  mkOverlayDiv "absolute" "2px solid blue" "blue" "transparent"
               (bb_width (tb_boundingBox (block textBlock)))
               (bb_height (tb_boundingBox (block textBlock)))
               "pointer" textBlock.

Definition overlayIdOf (textBlock : PagedTextBlock) : string :=
  "overlay-" ++ tb_id (block textBlock).

Definition overlayItemOf (textBlock : PagedTextBlock) : CustomOverlayItem :=
  mkOverlayItem (overlayIdOf textBlock) (createOverlayDiv textBlock)
                (pageIndex textBlock)
                (mkPoint (bb_left (tb_boundingBox (block textBlock)))
                         (bb_top (tb_boundingBox (block textBlock)))).

(** [for (let pageIndex = 0; pageIndex < totalPages; pageIndex++)], by
    recursion on the pages still to read. *)
Fixpoint forPages (tempSession : Session) (pagesLeft pageIndex : nat)
    (allTextBlocks : list PagedTextBlock) : Prog (list PagedTextBlock) :=
  match pagesLeft with
  | O => Ret allTextBlocks
  | S pagesLeft' =>
      pageTextBlocks <- await (getTextBlocks tempSession pageIndex) ;;
      let textBlocksWithPageIndex :=
        map (fun tb => withPageIndex tb pageIndex) pageTextBlocks in
      forPages tempSession pagesLeft' (S pageIndex)
               (allTextBlocks ++ textBlocksWithPageIndex)
  end.

(** [allTextBlocks.forEach(...)], threading the local [newOverlays]. *)
Fixpoint createOverlays (textBlocks : list PagedTextBlock)
    (newOverlays : list string) : Prog (list string) :=
  match textBlocks with
  | [] => Ret newOverlays
  | textBlock :: rest =>
      let item := overlayItemOf textBlock in
      setCustomOverlayItem item ;;
      createOverlays rest (newOverlays ++ [co_id item])
  end.

(** Leaving editing mode; the same statements end a committed
    replacement. *)
Definition clearEditingState : Prog unit :=
  overlays <- read (fun w => overlaysRef (view w)) ;;
  forEach overlays removeCustomOverlayItem ;;
  assignOverlaysRef [] ;;
  assignTextBlocksRef [] ;;
  setSelected [] ;;
  setIsEditing false.

Definition startEditing : Prog unit :=
  console_log "Starting editing mode" ;;
  setIsEditing true ;;
  tempSession <- await beginContentEditingSession ;;
  tryFinally
    (totalPages <- read (fun w => totalPageCount (instance w)) ;;
     allTextBlocks <- forPages tempSession totalPages 0 [] ;;
     assignTextBlocksRef allTextBlocks ;;
     newOverlays <- createOverlays allTextBlocks [] ;;
     assignOverlaysRef newOverlays)
    (await (discard tempSession)).

(** The handler of one render: [isEditing] and [isProcessing] are the
    values of the render it was created in. *)
Definition handleContentBoxesPress (render : ViewerState) : Prog unit :=
  let isEditing := isEditing render in
  let isProcessing := isProcessing render in
  console_log "Content Boxes button pressed. Current isEditing state:" ;;
  if isProcessing then
    console_log "Already processing, ignoring click"
  else
    setIsProcessing true ;;
    tryFinally
      (tryCatch
         (if isEditing then
            console_log "Removing overlays and exiting editing mode" ;;
            clearEditingState
          else startEditing)
         (fun error =>
            console_error "Error in content editing:" error ;;
            setIsEditing false))
      (setIsProcessing false).

(** A press of the button.  The toolbar is given the handlers of every
    new render, and a press is taken to meet the handler of the latest
    one, whose values are those of the state at the press. *)
Definition pressContentBoxes : Prog unit :=
  Get (fun w => handleContentBoxesPress (view w)).

(** *** The replacement action *)

Section Replacement.

(** [draws i] gives the outcomes of [Math.random()] during the call
    of [generateRandomText] for the [i]-th selected block. *)
Variable draws : nat -> nat -> nat.

Definition lengthCheck (newText originalText : string) : string :=
  if (Js.len newText <=? Js.len originalText)%Z then "PASS" else "FAIL".

(** The callback of [selected.map]. *)
Definition replacementOf (i : nat) (textBlock : PagedTextBlock)
    : Prog UpdatedTextBlock :=
  let newText :=
    Generator.generateRandomText (draws i) (tb_text (block textBlock)) in
  console_log ("Text replacement for block " ++ tb_id (block textBlock) ++ ":") ;;
  console_log ("  Original: " ++ tb_text (block textBlock)) ;;
  console_log ("  New: " ++ newText) ;;
  console_log ("  Length check: "
               ++ lengthCheck newText (tb_text (block textBlock))) ;;
  Ret (mkUpdated (tb_id (block textBlock)) (Some newText) None None).

Fixpoint mapSelected (i : nat) (blocks : list PagedTextBlock)
    : Prog (list UpdatedTextBlock) :=
  match blocks with
  | [] => Ret []
  | textBlock :: rest =>
      u <- replacementOf i textBlock ;;
      us <- mapSelected (S i) rest ;;
      Ret (u :: us)
  end.

(** [aiToolbar.onPress] of one render. *)
Definition aiToolbar_onPress (render : ViewerState) : Prog unit :=
  let isEditing := isEditing render in
  let selected := selected render in
  let isProcessing := isProcessing render in
  if negb isEditing || (List.length selected =? 0)%nat then
    console_warn "AI Replace can only be used in editing mode with selected text blocks"
  else if isProcessing then
    console_log "Already processing, ignoring AI request"
  else
    setIsProcessing true ;;
    tryFinally
      (tryCatch
         (console_log "AI Replace triggered with selected text blocks:" ;;
          session <- await beginContentEditingSession ;;
          tryCatch
            (updatedTextBlocks <- mapSelected 0 selected ;;
             console_log "Updating text blocks:" ;;
             await (updateTextBlocks session updatedTextBlocks) ;;
             await (commit session) ;;
             console_log "AI text replacement completed and committed" ;;
             clearEditingState)
            (fun updateError =>
               console_error "Error during AI text update:" updateError ;;
               await (discard session) ;;
               Throw updateError))
         (fun error =>
            console_error "Error in AI Replace operation:" error))
      (setIsProcessing false).

(** A press of the button, on the handler of the latest render. *)
Definition pressAiReplace : Prog unit :=
  Get (fun w => aiToolbar_onPress (view w)).

End Replacement.

(** *** Running a handler against given SDK answers *)

Inductive Completion (A : Type) : Type :=
| Normal (a : A)
| Thrown (e : JsError).

Arguments Normal {A} a.
Arguments Thrown {A} e.

(** How the SDK settles each promise during one run. *)
Definition Sdk : Type := forall c : SdkCall, JsError + answer c.

Fixpoint run {A : Type} (sdk : Sdk) (p : Prog A) (w : World)
    : Completion A * World :=
  match p with
  | Ret a => (Normal a, w)
  | Throw e => (Thrown e, w)
  | Get k => run sdk (k w) w
  | Put f k => run sdk k (f w)
  | Await c k => run sdk (k (sdk c)) (record (Called c) w)
  end.

(** *** The event loop *)

(** A handler parked at an [await]. *)
Inductive Suspended : Type :=
| Waiting (c : SdkCall) (k : JsError + answer c -> Prog unit).

(** Run to completion or to the next [await], whichever comes first.
    Both handlers are called without anyone awaiting their promise, so
    an exception that leaves one is dropped. *)
Fixpoint advance (p : Prog unit) (w : World) : World * list Suspended :=
  match p with
  | Ret _ => (w, [])
  | Throw _ => (w, [])
  | Get k => advance (k w) w
  | Put f k => advance k (f w)
  | Await c k => (record (Called c) w, [Waiting c k])
  end.

Record Config : Type := mkConfig {
  world : World;
  inflight : list Suspended
}.

Definition initialConfig (pages : nat) : Config :=
  mkConfig (mkWorld initialView (mkInstance pages []) []) [].

(** The page-change subscription: [setCurrentPageIndex(pageIndex)]. *)
Definition pageChanged (pageIndex : nat) (w : World) : World :=
  record (ConsoleLog "Current page index:")
    (withView (fun v =>
       mkView (overlaysRef v) (textBlocksRef v) pageIndex
              (isEditing v) (selected v) (isProcessing v)) w).

(** What a turn of the event loop is about: a press of either toolbar
    button, a click on an overlay the instance shows, a page change, or
    the settling of a promise some handler is waiting for. *)
Inductive Label : Type :=
| PressContentBoxes
| PressAi (draws : nat -> nat -> nat)
| ClickOverlay (overlayId : string)
| PageChange (pageIndex : nat)
| Settle (c : SdkCall) (r : JsError + answer c).

Inductive step : Label -> Config -> Config -> Prop :=
| step_pressContentBoxes w q w' s :
    advance pressContentBoxes w = (w', s) ->
    step PressContentBoxes (mkConfig w q) (mkConfig w' (q ++ s))
| step_pressAi draws w q w' s :
    advance (pressAiReplace draws) w = (w', s) ->
    step (PressAi draws) (mkConfig w q) (mkConfig w' (q ++ s))
| step_click overlayId item w q :
    findOverlay overlayId w = Some item ->
    step (ClickOverlay overlayId)
         (mkConfig w q) (mkConfig (clickOverlay overlayId w) q)
| step_pageChange pageIndex w q :
    step (PageChange pageIndex)
         (mkConfig w q) (mkConfig (pageChanged pageIndex w) q)
| step_settle c k (r : JsError + answer c) w q1 q2 w' s :
    advance (k r) w = (w', s) ->
    step (Settle c r)
         (mkConfig w (q1 ++ Waiting c k :: q2))
         (mkConfig w' (q1 ++ s ++ q2)).

(** The configurations reached from a fresh component by turns whose
    labels are [allowed]. *)
Inductive reachableBy (allowed : Label -> Prop) : Config -> Prop :=
| reachable_initial pages : reachableBy allowed (initialConfig pages)
| reachable_step l cfg cfg' :
    reachableBy allowed cfg -> allowed l -> step l cfg cfg' ->
    reachableBy allowed cfg'.

Definition reachable : Config -> Prop := reachableBy (fun _ => True).

(** The turns in which no [discard] is rejected. *)
Definition discardAccepted (l : Label) : Prop :=
  match l with
  | Settle c r =>
      match c as c0 return JsError + answer c0 -> Prop with
      | discard _ => fun r0 => match r0 with inl _ => False | inr _ => True end
      | _ => fun _ => True
      end r
  | _ => True
  end.

(** *** The effects *)

(** The clean-up of the mount effect, run when the [document] prop
    changes and when the component goes away.  The instance is there
    whenever an overlay is listed; the [unload] that ends the clean-up
    tears the viewer down and leaves the component alone.  React state
    is not written. *)
Definition cleanup : Prog unit :=
  overlays <- read (fun w => overlaysRef (view w)) ;;
  forEach overlays removeCustomOverlayItem ;;
  assignOverlaysRef [] ;;
  assignTextBlocksRef [].

(** The effect that logs the selection: [tb.text.substring(0, 50) + '...']
    and the object logged for each selected region. *)
Definition preview (text : string) : string :=
  Js.substring text 0 50 ++ "...".

Definition selectedSummary (selected : list PagedTextBlock)
    : list (string * string) :=
  map (fun tb => (tb_id (block tb), preview (tb_text (block tb)))) selected.

(** *** The event loop with the toolbar's own handlers *)

(** The toolbar calls the handlers it was last given: those of the
    first render, passed to [load], and later those of the render the
    effect on [contentBoxesToolbar] and [aiToolbar] handed to
    [setToolbarItems].  Between a change of the state and that effect
    it still holds the handlers of the render before. *)
Record Mounted : Type := mkMounted {
  shown : Config;
  toolbar : ViewerState
}.

Definition initialMounted (pages : nat) : Mounted :=
  mkMounted (initialConfig pages) initialView.

(** A turn is one of the events above, the effect that updates the
    toolbar, or the clean-up of the mount effect. *)
Inductive Turn : Type :=
| Occurs (l : Label)
| UpdateToolbar
| CleanUp.

Definition isPress (l : Label) : bool :=
  match l with
  | PressContentBoxes => true
  | PressAi _ => true
  | _ => false
  end.

(** A press runs the handler the toolbar holds; the other events are
    those of [step]. *)
Inductive turn : Turn -> Mounted -> Mounted -> Prop :=
| turn_pressContentBoxes w q render w' s :
    advance (handleContentBoxesPress render) w = (w', s) ->
    turn (Occurs PressContentBoxes)
         (mkMounted (mkConfig w q) render)
         (mkMounted (mkConfig w' (q ++ s)) render)
| turn_pressAi draws w q render w' s :
    advance (aiToolbar_onPress draws render) w = (w', s) ->
    turn (Occurs (PressAi draws))
         (mkMounted (mkConfig w q) render)
         (mkMounted (mkConfig w' (q ++ s)) render)
| turn_event l cfg cfg' render :
    isPress l = false ->
    step l cfg cfg' ->
    turn (Occurs l) (mkMounted cfg render) (mkMounted cfg' render)
| turn_updateToolbar cfg render :
    turn UpdateToolbar
         (mkMounted cfg render) (mkMounted cfg (view (world cfg)))
| turn_cleanUp w q render :
    turn CleanUp
         (mkMounted (mkConfig w q) render)
         (mkMounted (mkConfig (fst (advance cleanup w)) q) render).

(** What is reached from a fresh component by turns that are [allowed]
    where they are taken. *)
Inductive reachableMounted (allowed : Turn -> Mounted -> Prop)
    : Mounted -> Prop :=
| mounted_initial pages : reachableMounted allowed (initialMounted pages)
| mounted_turn t m m' :
    reachableMounted allowed m -> allowed t m -> turn t m m' ->
    reachableMounted allowed m'.

(** What a handler reads of its render. *)
Definition sameRender (render v : ViewerState) : Prop :=
  isEditing render = isEditing v
  /\ selected render = selected v
  /\ isProcessing render = isProcessing v.

(** A press that finds the toolbar updated since the state last
    changed. *)
Definition pressesUpdated (t : Turn) (m : Mounted) : Prop :=
  match t with
  | Occurs l =>
      if isPress l then sameRender (toolbar m) (view (world (shown m)))
      else True
  | _ => True
  end.

(** Turns that are no clean-up, and whose event is one of [allowed]. *)
Definition withoutCleanUp (t : Turn) : Prop :=
  match t with
  | CleanUp => False
  | _ => True
  end.

Definition eventsIn (allowed : Label -> Prop) (t : Turn) : Prop :=
  match t with
  | Occurs l => allowed l
  | _ => True
  end.

(** Presses on an updated toolbar, no rejected [discard], no clean-up. *)
Definition steady (t : Turn) (m : Mounted) : Prop :=
  pressesUpdated t m /\ eventsIn discardAccepted t /\ withoutCleanUp t.

(** *** Vocabulary of the properties *)

(** Membership in the selection, by region identifier. *)
Definition isSelected (regionId : string)
    (sel : list PagedTextBlock) : bool :=
  existsb (fun tb => tb_id (block tb) =? regionId) sel.

Definition regionIdOf (node : OverlayDiv) : string :=
  tb_id (block (listener_textBlock node)).

(** The visual state of an overlay agrees with the selection. *)
Definition agrees (node : OverlayDiv) (sel : list PagedTextBlock) : Prop :=
  isCurrentlyBlue node = negb (isSelected (regionIdOf node) sel).

(** Every selected region is among the stored regions, by identifier. *)
Definition selectionStored (v : ViewerState) : bool :=
  forallb (fun tb => isSelected (tb_id (block tb)) (textBlocksRef v))
          (selected v).

(** While editing, as many overlays as stored regions. *)
Definition overlaysMatchRegions (v : ViewerState) : bool :=
  implb (isEditing v)
        (List.length (overlaysRef v) =? List.length (textBlocksRef v))%nat.

Definition isCalled (e : Event) : bool :=
  match e with Called _ => true | _ => false end.

Definition isSetOverlay (e : Event) : bool :=
  match e with SetOverlay _ => true | _ => false end.

(** The pages of a document as the SDK reports them, and all of them
    in reading order. *)
Fixpoint pagesFrom (pageIndex : nat) (pages : list (list TextBlock))
    : list PagedTextBlock :=
  match pages with
  | [] => []
  | page :: rest =>
      map (fun tb => withPageIndex tb pageIndex) page
      ++ pagesFrom (S pageIndex) rest
  end.

(** The updates [selected.map] produces, without the logging. *)
Fixpoint updatesFor (draws : nat -> nat -> nat) (i : nat)
    (blocks : list PagedTextBlock) : list UpdatedTextBlock :=
  match blocks with
  | [] => []
  | textBlock :: rest =>
      mkUpdated (tb_id (block textBlock))
        (Some (Generator.generateRandomText (draws i)
                 (tb_text (block textBlock))))
        None None
      :: updatesFor draws (S i) rest
  end.

(** [w] with more written to the journal. *)
Definition logged (evs : list Event) (w : World) : World :=
  mkWorld (view w) (instance w) (journal w ++ evs).

(** What [selected.map] writes to the console. *)
Definition replacementLog (draws : nat -> nat -> nat) (i : nat)
    (textBlock : PagedTextBlock) : list Event :=
  let newText :=
    Generator.generateRandomText (draws i) (tb_text (block textBlock)) in
  [ ConsoleLog ("Text replacement for block " ++ tb_id (block textBlock) ++ ":");
    ConsoleLog ("  Original: " ++ tb_text (block textBlock));
    ConsoleLog ("  New: " ++ newText);
    ConsoleLog ("  Length check: "
                ++ lengthCheck newText (tb_text (block textBlock))) ].

Fixpoint replacementLogs (draws : nat -> nat -> nat) (i : nat)
    (blocks : list PagedTextBlock) : list Event :=
  match blocks with
  | [] => []
  | textBlock :: rest =>
      replacementLog draws i textBlock ++ replacementLogs draws (S i) rest
  end.

(** The journal of a replacement up to the submission of the batch, and
    the call of [commit] when the batch was accepted. *)
Definition replaceAttempt (draws : nat -> nat -> nat) (session : Session)
    (sel : list PagedTextBlock) (batchAccepted : bool) : list Event :=
  [ ConsoleLog "AI Replace triggered with selected text blocks:";
    Called beginContentEditingSession ]
  ++ replacementLogs draws 0 sel
  ++ [ ConsoleLog "Updating text blocks:";
       Called (updateTextBlocks session (updatesFor draws 0 sel)) ]
  ++ (if batchAccepted then [Called (commit session)] else []).

(** The world after [removeCustomOverlayItem] for each of [ids]. *)
Fixpoint removedAll (ids : list string) (w : World) : World :=
  match ids with
  | [] => w
  | overlayId :: rest =>
      removedAll rest
        (record (RemoveOverlay overlayId)
           (mkWorld (view w)
              (mkInstance (totalPageCount (instance w))
                 (withoutOverlay overlayId (customOverlayItems (instance w))))
              (journal w)))
  end.

(** What the page loop reads from [pageIndex] on: every page, or the
    first rejection. *)
Fixpoint readPages (sdk : Sdk) (s : Session) (pagesLeft pageIndex : nat)
    (acc : list PagedTextBlock) : JsError + list PagedTextBlock :=
  match pagesLeft with
  | O => inr acc
  | S pagesLeft' =>
      match sdk (getTextBlocks s pageIndex) with
      | inl e => inl e
      | inr pageTextBlocks =>
          readPages sdk s pagesLeft' (S pageIndex)
            (acc ++ map (fun tb => withPageIndex tb pageIndex) pageTextBlocks)
      end
  end.

(** The calls of [getTextBlocks] the loop makes: one per page in order,
    none after a rejection. *)
Fixpoint pageCalls (sdk : Sdk) (s : Session) (pagesLeft pageIndex : nat)
    : list Event :=
  match pagesLeft with
  | O => []
  | S pagesLeft' =>
      Called (getTextBlocks s pageIndex)
      :: match sdk (getTextBlocks s pageIndex) with
         | inl _ => []
         | inr _ => pageCalls sdk s pagesLeft' (S pageIndex)
         end
  end.

(** The world after [setCustomOverlayItem] for the overlay of each of
    [textBlocks]. *)
Fixpoint withOverlays (textBlocks : list PagedTextBlock) (w : World) : World :=
  match textBlocks with
  | [] => w
  | textBlock :: rest =>
      let item := overlayItemOf textBlock in
      withOverlays rest
        (record (SetOverlay item)
           (mkWorld (view w)
              (mkInstance (totalPageCount (instance w))
                 (withoutOverlay (co_id item)
                    (customOverlayItems (instance w)) ++ [item]))
              (journal w)))
  end.

(** The overlay items of the instance after the overlays of
    [textBlocks] have been set. *)
Fixpoint overlayItemsWith (textBlocks : list PagedTextBlock)
    (items : list CustomOverlayItem) : list CustomOverlayItem :=
  match textBlocks with
  | [] => items
  | textBlock :: rest =>
      let item := overlayItemOf textBlock in
      overlayItemsWith rest (withoutOverlay (co_id item) items ++ [item])
  end.

(** What a press of the toggle writes to the journal before the first
    page is read, outside editing mode. *)
Definition activationIntro : list Event :=
  [ ConsoleLog "Content Boxes button pressed. Current isEditing state:";
    ConsoleLog "Starting editing mode";
    Called beginContentEditingSession ].

(** The error the toggle's [catch] receives when the page loop threw
    [e]: the one of a rejected [discard] takes its place. *)
Definition afterDiscard (sdk : Sdk) (s : Session) (e : JsError) : JsError :=
  match sdk (discard s) with
  | inl e' => e'
  | inr _ => e
  end.

(** Two clicks on the same overlay, nothing in between. *)
Definition doubleClick (node : OverlayDiv) (sel : list PagedTextBlock)
    : OverlayDiv * list PagedTextBlock :=
  let (node1, sel1) := clickListener node sel in
  clickListener node1 sel1.

(** A program that leaves [isProcessing] alone. *)
Fixpoint keepsFlag {A : Type} (p : Prog A) : Prop :=
  match p with
  | Ret _ => True
  | Throw _ => True
  | Get k => forall w, keepsFlag (k w)
  | Put f k =>
      (forall w, isProcessing (view (f w)) = isProcessing (view w))
      /\ keepsFlag k
  | Await c k => forall r, keepsFlag (k r)
  end.

(** A program during which the busy flag is set at every [await], from
    worlds in which it is set, whatever happened to the rest of the
    world while the program was parked. *)
Fixpoint busyWhileParked (p : Prog unit) (w : World) : Prop :=
  match p with
  | Ret _ => True
  | Throw _ => True
  | Get k => busyWhileParked (k w) w
  | Put f k => busyWhileParked k (f w)
  | Await c k =>
      isProcessing (view w) = true
      /\ forall r w', isProcessing (view w') = true ->
                      busyWhileParked (k r) w'
  end.

(** A parked handler that, resumed with the flag set, keeps it set while
    parked again; and a queue of such handlers, parked with the flag set. *)
Definition resumesBusy (s : Suspended) : Prop :=
  match s with
  | Waiting c k =>
      forall r w', isProcessing (view w') = true -> busyWhileParked (k r) w'
  end.

Definition parkedBusy (w : World) (q : list Suspended) : Prop :=
  Forall resumesBusy q /\ (q <> [] -> isProcessing (view w) = true).

(** The parts of the local state agree with one another: the overlay
    list names the overlays of the stored regions; every overlay item the
    instance shows belongs to a stored region, is listed, is named after
    its region, shares its identifier with no other item, and is blue
    exactly if its region is not selected; every selected region is a
    stored one. *)
Record Consistent (w : World) : Prop := mkConsistent {
  overlays_of_regions :
    overlaysRef (view w) = map overlayIdOf (textBlocksRef (view w));
  items_of_regions :
    forall item, In item (customOverlayItems (instance w)) ->
      In (listener_textBlock (co_node item)) (textBlocksRef (view w))
      /\ In (co_id item) (overlaysRef (view w))
      /\ co_id item = overlayIdOf (listener_textBlock (co_node item))
      /\ agrees (co_node item) (selected (view w));
  items_distinct : NoDup (map co_id (customOverlayItems (instance w)));
  selected_of_regions :
    forall tb, In tb (selected (view w)) -> In tb (textBlocksRef (view w))
}.

(** No handler is running. *)
Definition Idle (w : World) : Prop :=
  Consistent w
  /\ isProcessing (view w) = false
  /\ (isEditing (view w) = false -> textBlocksRef (view w) = []).

(** A handler is parked: the flag is set and editing mode is on.  The
    toggle, before it has stored the regions it reads, is parked with no
    region stored. *)
Inductive Phase : Type := Entering | Editing.

Definition phaseInv (ph : Phase) (w : World) : Prop :=
  Consistent w
  /\ isProcessing (view w) = true
  /\ isEditing (view w) = true
  /\ match ph with
     | Entering => textBlocksRef (view w) = []
     | Editing => True
     end.

(** A program that, as long as no [discard] is rejected, parks only in
    worlds of some phase, can be resumed from every world of that phase,
    and ends in an idle world. *)
Fixpoint safe (p : Prog unit) (w : World) : Prop :=
  match p with
  | Ret _ => Idle w
  | Throw _ => Idle w
  | Get k => safe (k w) w
  | Put f k => safe k (f w)
  | Await c k =>
      exists ph,
        phaseInv ph w
        /\ forall r, discardAccepted (Settle c r) ->
             forall w', phaseInv ph w' -> safe (k r) w'
  end.

Definition resumesSafe (w : World) (s : Suspended) : Prop :=
  match s with
  | Waiting c k =>
      exists ph,
        phaseInv ph w
        /\ forall r, discardAccepted (Settle c r) ->
             forall w', phaseInv ph w' -> safe (k r) w'
  end.

Definition configSafe (cfg : Config) : Prop :=
  match inflight cfg with
  | [] => Idle (world cfg)
  | [s] => resumesSafe (world cfg) s
  | _ => False
  end.

(** The [try] blocks around a statement, innermost first. *)
Inductive Frame : Type :=
| CatchFrame (h : JsError -> Prog unit)
| FinallyFrame (fin : Prog unit).

Definition inFrame (F : Frame) (p : Prog unit) : Prog unit :=
  match F with
  | CatchFrame h => tryCatch p h
  | FinallyFrame fin => tryFinally p fin
  end.

Fixpoint wrap (fs : list Frame) (p : Prog unit) : Prog unit :=
  match fs with
  | [] => p
  | F :: fs' => wrap fs' (inFrame F p)
  end.

(** A program that neither awaits nor throws. *)
Fixpoint sync {A : Type} (p : Prog A) : Prop :=
  match p with
  | Ret _ => True
  | Throw _ => False
  | Get k => forall w, sync (k w)
  | Put _ k => sync k
  | Await _ _ => False
  end.

(** A program that ends with the busy flag off, whatever the world has
    become while it was parked. *)
Fixpoint releasesFlag (p : Prog unit) (w : World) : Prop :=
  match p with
  | Ret _ => isProcessing (view w) = false
  | Throw _ => isProcessing (view w) = false
  | Get k => releasesFlag (k w) w
  | Put f k => releasesFlag k (f w)
  | Await c k => forall r w', releasesFlag (k r) w'
  end.

Definition resumesReleasing (s : Suspended) : Prop :=
  match s with
  | Waiting c k => forall r w', releasesFlag (k r) w'
  end.

(** A program whose every write leaves the selection as it is or
    empties it. *)
Fixpoint keepsSelection {A : Type} (p : Prog A) : Prop :=
  match p with
  | Ret _ => True
  | Throw _ => True
  | Get k => forall w, keepsSelection (k w)
  | Put f k =>
      (forall w, selected (view (f w)) = selected (view w)
                 \/ selected (view (f w)) = [])
      /\ keepsSelection k
  | Await c k => forall r, keepsSelection (k r)
  end.

Definition resumesKeepingSelection (s : Suspended) : Prop :=
  match s with
  | Waiting c k => forall r, keepsSelection (k r)
  end.

(** The identifiers of the regions of a list. *)
Definition regionIds (blocks : list PagedTextBlock) : list string :=
  map (fun tb => tb_id (block tb)) blocks.

(** The overlay list names the overlays of the stored regions, in
    order, and no two overlays the instance shows share an identifier. *)
Definition overlaysListed (w : World) : Prop :=
  overlaysRef (view w) = map overlayIdOf (textBlocksRef (view w))
  /\ NoDup (map co_id (customOverlayItems (instance w))).

(** A program that parks and ends only in worlds where [P] holds, when
    it is started and resumed in such worlds. *)
Fixpoint maintains (P : World -> Prop) (p : Prog unit) (w : World) : Prop :=
  match p with
  | Ret _ => P w
  | Throw _ => P w
  | Get k => maintains P (k w) w
  | Put f k => maintains P k (f w)
  | Await c k => P w /\ forall r w', P w' -> maintains P (k r) w'
  end.

Definition resumesMaintaining (P : World -> Prop) (s : Suspended) : Prop :=
  match s with
  | Waiting c k => forall r w', P w' -> maintains P (k r) w'
  end.

End Viewer.

(* ================================================================== *)
(** ** Concrete documents and SDK behaviours *)

Module Scenario.

Import Viewer.

Definition region (regionId text : string) (top left width height : Z)
    : TextBlock :=
  mkTextBlock regionId text (mkBoundingBox top left width height)
              (mkAnchor left top) width.

(** Two pages with three and two regions. *)
Definition document : list (list TextBlock) :=
  [ [ region "r1" "Invoice" 40 72 120 18;
      region "r2" "Hi" 80 72 30 14;
      region "r3" "Thank you for your order" 120 72 260 14 ];
    [ region "r4" "Subtotal:" 40 72 90 14;
      region "r5" "Page 2 of 2" 700 260 80 12 ] ].

Definition session : Session := 1.

(** An SDK that settles every promise as resolved and reports [doc]. *)
Definition resolving (doc : list (list TextBlock)) : Sdk :=
  fun c =>
    match c with
    | beginContentEditingSession => inr session
    | getTextBlocks _ pageIndex => inr (nth pageIndex doc [])
    | updateTextBlocks _ _ => inr tt
    | commit _ => inr tt
    | discard _ => inr tt
    end.

(** The same, except that [discard] is rejected. *)
Definition discardRejecting (doc : list (list TextBlock)) : Sdk :=
  fun c =>
    match c with
    | discard _ => inl "discard failed"
    | _ => resolving doc c
    end.

(** The same, except that the batch update is rejected. *)
Definition updateRejecting (doc : list (list TextBlock)) : Sdk :=
  fun c =>
    match c with
    | updateTextBlocks _ _ => inl "update failed"
    | _ => resolving doc c
    end.

(** The same, except that the second page cannot be read. *)
Definition secondPageRejecting (doc : list (list TextBlock)) : Sdk :=
  fun c =>
    match c with
    | getTextBlocks _ 1 => inl "page unreadable"
    | _ => resolving doc c
    end.

Definition afterActivation : World :=
  snd (run (resolving document) pressContentBoxes
           (world (initialConfig 2))).

Definition afterSelecting : World :=
  clickOverlay "overlay-r4" (clickOverlay "overlay-r2" afterActivation).

Definition afterReplacement (draws : nat -> nat -> nat) : World :=
  snd (run (resolving document) (pressAiReplace draws) afterSelecting).

(** A region that is already in the selection when its overlay, still
    blue, is clicked. *)
Definition staleRegion : PagedTextBlock :=
  withPageIndex (region "r1" "Invoice" 40 72 120 18) 0.

(** One page with the single region [r1]; later the page reads [r2]. *)
Definition pageBefore : list (list TextBlock) :=
  [ [ region "r1" "Invoice" 40 72 120 18 ] ].

Definition pageAfter : list (list TextBlock) :=
  [ [ region "r2" "Receipt" 40 72 120 18 ] ].

Definition afterFailedDiscard : World :=
  snd (run (discardRejecting pageBefore) pressContentBoxes
           (world (initialConfig 1))).

Definition afterClick : World := clickOverlay "overlay-r1" afterFailedDiscard.

Definition afterSecondActivation : World :=
  snd (run (resolving pageAfter) pressContentBoxes afterClick).

(** The event loop right after the first press of the toggle: the
    handler is parked at [beginContentEditingSession]. *)
Definition activationInFlight : Config :=
  let (w, parked) :=
    advance pressContentBoxes (world (initialConfig 2)) in
  mkConfig w parked.

(** The event loop at rest in editing mode with r2 and r4 selected. *)
Definition selecting : Config := mkConfig afterSelecting [].

(** The same component after the clean-up of the mount effect. *)
Definition afterCleanup : World :=
  snd (run (resolving document) cleanup afterSelecting).

(** The event loop at rest after the toggle was pressed once more. *)
Definition afterLeaving : Config :=
  mkConfig (snd (run (resolving document) pressContentBoxes afterSelecting))
           [].

(** The toggle pressed once, its handler parked at
    [beginContentEditingSession], and the toolbar not updated yet. *)
Definition pressedOnce : Mounted := mkMounted activationInFlight initialView.

(** The toggle pressed again at that moment. *)
Definition pressedTwice : Mounted :=
  let (w, parked) :=
    advance (handleContentBoxesPress (toolbar pressedOnce))
            (world (shown pressedOnce)) in
  mkMounted (mkConfig w (inflight (shown pressedOnce) ++ parked))
            (toolbar pressedOnce).

(** Two regions selected, with the toolbar updated. *)
Definition selectingMounted : Mounted :=
  mkMounted selecting (view (world selecting)).

End Scenario.

(* ================================================================== *)
(** ** Facts about the string primitives *)

Section JsFacts.

Lemma length_append (a b : string) :
  String.length (a ++ b) = String.length a + String.length b.
Proof.
  induction a as [|c a IH]; simpl; [reflexivity | now rewrite IH].
Qed.

Lemma len_append (a b : string) :
  Js.len (a ++ b) = (Js.len a + Js.len b)%Z.
Proof. unfold Js.len. rewrite length_append. lia. Qed.

Lemma len_nonneg (s : string) : (0 <= Js.len s)%Z.
Proof. unfold Js.len. lia. Qed.

Lemma prefix_length (m : nat) (s : string) :
  String.length (String.substring 0 m s) <= m.
Proof.
  revert s. induction m as [|m IH]; intros [|c s]; simpl; try lia.
  specialize (IH s). lia.
Qed.

(** [s.substring(0, n)] has at most [n] characters, none if [n <= 0]. *)
Lemma substring_from_0_len (s : string) (n : Z) :
  (Js.len (Js.substring s 0 n) <= Z.max 0 n)%Z.
Proof.
  unfold Js.substring, Js.clamp.
  pose proof (len_nonneg s) as Hs.
  replace (Z.max 0 (Z.min 0 (Js.len s))) with 0%Z by lia.
  set (b := Z.max 0 (Z.min n (Js.len s))).
  replace (Z.min 0 b) with 0%Z by lia.
  replace (Z.max 0 b - 0)%Z with b by lia.
  simpl Z.to_nat.
  pose proof (prefix_length (Z.to_nat b) s) as Hp.
  unfold Js.len. lia.
Qed.

End JsFacts.

(* ================================================================== *)
(** ** The generator: termination and length *)

Section GeneratorFacts.

Import Generator.

Variable choices : nat -> nat.

Lemma randomIndex_in_range (draw : nat) :
  randomIndex draw < List.length words.
Proof. unfold randomIndex. apply Nat.mod_upper_bound. discriminate. Qed.

Lemma words_length_range :
  Forall (fun w => (2 <= Js.len w <= 6)%Z) words.
Proof. unfold words. repeat constructor; vm_compute; discriminate. Qed.

Lemma randomWord_len (draw : nat) :
  (2 <= Js.len (randomWord draw) <= 6)%Z.
Proof.
  unfold randomWord.
  apply (proj1 (Forall_forall _ words) words_length_range).
  apply nth_In, randomIndex_in_range.
Qed.

Lemma testResult_len (st : LoopState) :
  (Js.len (result st) + 2 <= Js.len (testResult choices st)
   <= Js.len (result st) + 7)%Z.
Proof.
  unfold testResult. rewrite !len_append.
  pose proof (randomWord_len (choices (attempts st))) as Hw.
  destruct (Js.truthy (result st)); change (Js.len " ") with 1%Z;
    change (Js.len "") with 0%Z; lia.
Qed.

(** One iteration: leave the loop with the state untouched, or carry
    on with a longer result that still fits and one more attempt. *)
Lemma loopBody_cases (L : Z) (st : LoopState) :
  (loopBody choices L st = Break st
   /\ (L < Js.len (testResult choices st))%Z)
  \/ (exists st', loopBody choices L st = Continue st'
      /\ (Js.len (result st) < Js.len (result st') <= L)%Z
      /\ attempts st' = S (attempts st)).
Proof.
  unfold loopBody.
  destruct (Js.len (testResult choices st) <=? L)%Z eqn:E.
  - right. eexists. split; [reflexivity|]. simpl.
    apply Z.leb_le in E. pose proof (testResult_len st). lia.
  - left. apply Z.leb_gt in E. auto.
Qed.

Lemma loopGuard_true (L : Z) (st : LoopState) :
  loopGuard L st = true ->
  (Js.len (result st) < L - 10)%Z /\ attempts st < maxAttempts.
Proof.
  unfold loopGuard. intros H. apply andb_prop in H as [H1 H2].
  apply Z.ltb_lt in H1. apply Nat.ltb_lt in H2. auto.
Qed.

(** The free-running loop needs no more budget than the attempts that
    are left, plus the last test of the guard. *)
Lemma whileLoop_wordLoop (L : Z) (n : nat) :
  forall fuel st,
    maxAttempts <= attempts st + n -> n < fuel ->
    whileLoop choices fuel L st = Some (wordLoop choices n L st).
Proof.
  induction n as [|n IH]; intros [|fuel] st Hn Hf; try lia; simpl.
  - destruct (loopGuard L st) eqn:G; [|reflexivity].
    apply loopGuard_true in G. lia.
  - destruct (loopGuard L st) eqn:G; [|reflexivity].
    destruct (loopBody_cases L st) as [[-> _] | (st' & -> & _ & Ha)];
      [reflexivity|].
    apply IH; lia.
Qed.

Lemma wordLoop_fits (L : Z) (n : nat) :
  forall st, (Js.len (result st) <= L)%Z ->
             (Js.len (result (wordLoop choices n L st)) <= L)%Z.
Proof.
  induction n as [|n IH]; intros st H; simpl; [exact H|].
  destruct (loopGuard L st); [|exact H].
  destruct (loopBody_cases L st) as [[-> _] | (st' & -> & Hl & _)];
    [exact H|].
  apply IH. lia.
Qed.

(** No word is tried when the text has at most ten characters. *)
Lemma wordLoop_short (L : Z) (n : nat) :
  (L <= 10)%Z -> wordLoop choices n L (mkLoop "" 0) = mkLoop "" 0.
Proof.
  intros H. destruct n as [|n]; simpl; [reflexivity|].
  unfold loopGuard. simpl result. change (Js.len "") with 0%Z.
  destruct (0 <? L - 10)%Z eqn:E; [apply Z.ltb_lt in E; lia|reflexivity].
Qed.

Lemma padded_fits (L : Z) (r : string) :
  (Js.len r <= L)%Z -> (Js.len (padded L r) <= L)%Z.
Proof.
  intros H. unfold padded.
  destruct (Js.len r <? L - 20)%Z; [|exact H].
  destruct (L - Js.len r - 1 >? 0)%Z eqn:E; [|exact H].
  rewrite !len_append.
  pose proof (substring_from_0_len lorem (L - Js.len r - 1)) as Hp.
  apply Z.gtb_lt in E.
  destruct (Js.truthy r); change (Js.len " ") with 1%Z;
    change (Js.len "") with 0%Z; lia.
Qed.

(** The final truncation never has anything to cut. *)
Lemma truncated_idle (L : Z) (r : string) :
  (Js.len r <= L)%Z -> truncated L r = r.
Proof.
  intros H. unfold truncated.
  destruct (Js.len r >? L)%Z eqn:E; [apply Z.gtb_lt in E; lia|reflexivity].
Qed.

Lemma loop_result_fits (s : string) :
  (Js.len (result (wordLoop choices maxAttempts (Js.len s) (mkLoop "" 0)))
   <= Js.len s)%Z.
Proof. apply wordLoop_fits. simpl. apply len_nonneg. Qed.

(** Of the original text only its length matters. *)
Lemma generateRandomText_by_length (s1 s2 : string) :
  Js.len s1 = Js.len s2 ->
  generateRandomText choices s1 = generateRandomText choices s2.
Proof. unfold generateRandomText. now intros ->. Qed.

(** Texts of at most ten characters get the placeholder. *)
Lemma generateRandomText_placeholder (s : string) :
  (Js.len s <= 10)%Z -> generateRandomText choices s = "AI text".
Proof.
  intros H. unfold generateRandomText.
  rewrite wordLoop_short by exact H. simpl result.
  unfold finish, padded. change (Js.len "") with 0%Z.
  destruct (0 <? Js.len s - 20)%Z eqn:E; [apply Z.ltb_lt in E; lia|].
  rewrite truncated_idle by (change (Js.len "") with 0%Z; apply len_nonneg).
  reflexivity.
Qed.

(** The replacement is never empty. *)
Lemma generateRandomText_nonempty (s : string) :
  Js.truthy (generateRandomText choices s) = true.
Proof.
  unfold generateRandomText, finish, Js.or_else.
  destruct (Js.truthy (truncated _ _)) eqn:E; [exact E|reflexivity].
Qed.

(** From seven characters on the replacement fits the original. *)
Lemma generateRandomText_fits (s : string) :
  (7 <= Js.len s)%Z ->
  (Js.len (generateRandomText choices s) <= Js.len s)%Z.
Proof.
  intros H. unfold generateRandomText, finish.
  pose proof (padded_fits (Js.len s) _ (loop_result_fits s)) as Hp.
  rewrite truncated_idle by exact Hp.
  unfold Js.or_else.
  destruct (Js.truthy (padded _ _)); [exact Hp|].
  change (Js.len "AI text") with 7%Z. exact H.
Qed.

(** Below seven characters it does not. *)
Lemma generateRandomText_overflows (s : string) :
  (Js.len s < 7)%Z ->
  (Js.len s < Js.len (generateRandomText choices s))%Z.
Proof.
  intros H. rewrite generateRandomText_placeholder by lia.
  change (Js.len "AI text") with 7%Z. exact H.
Qed.

End GeneratorFacts.

(** C1, evaluated on a five-character text: whatever words are drawn,
    [generateRandomText] returns the placeholder ["AI text"], whose seven
    characters are more than the five of the original.  The length check
    the handler itself logs for this replacement reads FAIL. *)
Theorem generateRandomText_hello_too_long :
  forall choices : nat -> nat,
    Generator.generateRandomText choices "hello" = "AI text"
    /\ (Js.len "hello" < Js.len (Generator.generateRandomText choices "hello"))%Z
    /\ Viewer.lengthCheck (Generator.generateRandomText choices "hello") "hello"
       = "FAIL".
Proof.
  intros choices.
  rewrite (generateRandomText_placeholder choices "hello")
    by (vm_compute; discriminate).
  repeat split.
Qed.

(** C10: the word loop of [generateRandomText] terminates.  Every
    iteration entered with the guard true either leaves the loop, the
    next word not fitting the original length, or continues with a
    strictly longer result and the attempts counter incremented, which
    stays within [maxAttempts] = 100; so the free-running loop needs no
    more than [maxAttempts + 1] steps, and with any such budget
    [generateRandomTextFuel] returns the value of [generateRandomText]. *)
Theorem generateRandomText_total :
  forall (choices : nat -> nat) (originalText : string),
    (forall st,
        Generator.loopGuard (Js.len originalText) st = true ->
        (Generator.loopBody choices (Js.len originalText) st
         = Generator.Break st
         /\ (Js.len originalText
             < Js.len (Generator.testResult choices st))%Z)
        \/ (exists st',
             Generator.loopBody choices (Js.len originalText) st
             = Generator.Continue st'
             /\ (Js.len (Generator.result st)
                 < Js.len (Generator.result st'))%Z
             /\ Generator.attempts st' = S (Generator.attempts st)
             /\ Generator.attempts st' <= Generator.maxAttempts))
    /\ (forall extra,
          Generator.generateRandomTextFuel choices
            (S Generator.maxAttempts + extra) originalText
          = Some (Generator.generateRandomText choices originalText)).
Proof.
  intros choices originalText. split.
  - intros st G. apply loopGuard_true in G as [_ Ha].
    destruct (loopBody_cases choices (Js.len originalText) st)
      as [[Hb Hl] | (st' & Hb & Hl & Hs)].
    + left. auto.
    + right. exists st'. repeat split; try assumption; lia.
  - intros extra. unfold Generator.generateRandomTextFuel,
      Generator.generateRandomText.
    rewrite (whileLoop_wordLoop choices (Js.len originalText)
               Generator.maxAttempts); simpl Generator.attempts;
      [reflexivity | lia | lia].
Qed.

(** A budget that is too small does run out: the bound above is about
    the loop, not about the budget. *)
Example generateRandomTextFuel_runs_out :
  Generator.generateRandomTextFuel (fun _ => 0) 3
    "a text that is long enough for many words" = None.
Proof. reflexivity. Qed.

(** An instance of C10: for a text of twelve characters the first
    iteration is entered and takes the word "AI"; the budget of 101
    steps yields the replacement. *)
Lemma generateRandomText_total_witness :
  Generator.loopGuard (Js.len "twelve chars") (Generator.mkLoop "" 0) = true
  /\ ((Generator.loopBody (fun k => k) (Js.len "twelve chars")
         (Generator.mkLoop "" 0)
       = Generator.Break (Generator.mkLoop "" 0)
       /\ (Js.len "twelve chars"
           < Js.len (Generator.testResult (fun k => k)
                       (Generator.mkLoop "" 0)))%Z)
      \/ (exists st',
           Generator.loopBody (fun k => k) (Js.len "twelve chars")
             (Generator.mkLoop "" 0)
           = Generator.Continue st'
           /\ (Js.len (Generator.result (Generator.mkLoop "" 0))
               < Js.len (Generator.result st'))%Z
           /\ Generator.attempts st'
              = S (Generator.attempts (Generator.mkLoop "" 0))
           /\ Generator.attempts st' <= Generator.maxAttempts))
  /\ Generator.generateRandomTextFuel (fun k => k) 101 "twelve chars"
     = Some "AI".
Proof.
  split; [reflexivity|]. split.
  - apply (proj1 (generateRandomText_total (fun k => k) "twelve chars")).
    reflexivity.
  - exact (proj2 (generateRandomText_total (fun k => k) "twelve chars") 0).
Defined.

(* ================================================================== *)
(** ** Running programs: the equations of [run] *)

Section RunFacts.

Import Viewer.

Variable sdk : Sdk.

Lemma run_bind {A B : Type} (p : Prog A) (f : A -> Prog B) (w : World) :
  run sdk (bind p f) w
  = match run sdk p w with
    | (Normal a, w') => run sdk (f a) w'
    | (Thrown e, w') => (Thrown e, w')
    end.
Proof.
  revert w. induction p as [a|e|k IH|g k IH|c k IH]; intros w; simpl;
    try reflexivity; auto.
Qed.

Lemma run_tryCatch {A : Type} (p : Prog A) (h : JsError -> Prog A)
    (w : World) :
  run sdk (tryCatch p h) w
  = match run sdk p w with
    | (Normal a, w') => (Normal a, w')
    | (Thrown e, w') => run sdk (h e) w'
    end.
Proof.
  revert w. induction p as [a|e|k IH|g k IH|c k IH]; intros w; simpl;
    try reflexivity; auto.
Qed.

Lemma run_tryFinally {A : Type} (p : Prog A) (fin : Prog unit)
    (w : World) :
  run sdk (tryFinally p fin) w
  = match run sdk p w with
    | (done, w') =>
        match run sdk fin w' with
        | (Normal _, w'') => (done, w'')
        | (Thrown e, w'') => (Thrown e, w'')
        end
    end.
Proof.
  revert w. induction p as [a|e|k IH|g k IH|c k IH]; intros w; simpl; auto.
  - rewrite run_bind. destruct (run sdk fin w) as [[u|e] w']; reflexivity.
  - rewrite run_bind. destruct (run sdk fin w) as [[u|e'] w']; reflexivity.
Qed.

Lemma logged_logged (a b : list Event) (w : World) :
  logged b (logged a w) = logged (a ++ b) w.
Proof. unfold logged. simpl. now rewrite app_assoc. Qed.

Lemma record_logged (e : Event) (w : World) : record e w = logged [e] w.
Proof. reflexivity. Qed.

Lemma logged_nil (w : World) : logged [] w = w.
Proof. destruct w. unfold logged. simpl. now rewrite app_nil_r. Qed.

Lemma run_replacementOf (draws : nat -> nat -> nat) (i : nat)
    (tb : PagedTextBlock) (w : World) :
  run sdk (replacementOf draws i tb) w
  = (Normal (mkUpdated (tb_id (block tb))
               (Some (Generator.generateRandomText (draws i)
                        (tb_text (block tb))))
               None None),
     logged (replacementLog draws i tb) w).
Proof.
  unfold replacementOf, replacementLog, logged, console_log, modify, record.
  simpl. rewrite <- !app_assoc. reflexivity.
Qed.

Lemma run_mapSelected (draws : nat -> nat -> nat)
    (blocks : list PagedTextBlock) :
  forall i w,
    run sdk (mapSelected draws i blocks) w
    = (Normal (updatesFor draws i blocks),
       logged (replacementLogs draws i blocks) w).
Proof.
  induction blocks as [|tb rest IH]; intros i w.
  - simpl. now rewrite logged_nil.
  - cbn [mapSelected]. rewrite run_bind, run_replacementOf.
    rewrite run_bind, IH. simpl run. rewrite logged_logged. reflexivity.
Qed.

Lemma run_removeAll (ids : list string) :
  forall w,
    run sdk (forEach ids removeCustomOverlayItem) w
    = (Normal tt, removedAll ids w).
Proof.
  induction ids as [|i rest IH]; intros w; simpl; [reflexivity|].
  apply IH.
Qed.

Lemma removedAll_view (ids : list string) :
  forall w, view (removedAll ids w) = view w.
Proof.
  induction ids as [|i rest IH]; intros w; simpl; [reflexivity|].
  now rewrite IH.
Qed.

Lemma removedAll_journal (ids : list string) :
  forall w, journal (removedAll ids w)
            = (journal w ++ map RemoveOverlay ids)%list.
Proof.
  induction ids as [|i rest IH]; intros w; simpl; [now rewrite app_nil_r|].
  rewrite IH. simpl. now rewrite <- app_assoc.
Qed.

End RunFacts.

(** Bring a world built by setters and journal entries back to a
    constructor applied to projections of the world it started from. *)
Ltac tidy :=
  unfold Viewer.withView, Viewer.updateSelected, Viewer.record, Viewer.logged;
  cbn [Viewer.view Viewer.instance Viewer.journal Viewer.overlaysRef
       Viewer.textBlocksRef Viewer.currentPageIndex Viewer.isEditing
       Viewer.selected Viewer.isProcessing Viewer.totalPageCount
       Viewer.customOverlayItems fst snd].

(** Run the synchronous statements at the head of a program. *)
Ltac run_sync :=
  cbn [Viewer.bind Viewer.run Viewer.modify Viewer.read Viewer.await
       Viewer.console_log Viewer.console_warn Viewer.console_error
       Viewer.setIsProcessing Viewer.setIsEditing Viewer.setSelected
       Viewer.assignOverlaysRef Viewer.assignTextBlocksRef];
  tidy.

(* ================================================================== *)
(** ** The replacement action *)

Section ReplacementFacts.

Import Viewer.

Variable draws : nat -> nat -> nat.
Variable sdk : Sdk.

Lemma view_idle (v : ViewerState) :
  isProcessing v = false ->
  mkView (overlaysRef v) (textBlocksRef v) (currentPageIndex v)
         (isEditing v) (selected v) false = v.
Proof. destruct v. simpl. now intros ->. Qed.

Lemma guards_pass (w : World) :
  isEditing (view w) = true ->
  selected (view w) <> [] ->
  negb (isEditing (view w))
  || (List.length (selected (view w)) =? 0)%nat = false.
Proof.
  intros -> Hs. destruct (selected (view w)); [congruence | reflexivity].
Qed.

Lemma run_clearEditingState (w : World) :
  run sdk clearEditingState w
  = (Normal tt,
     mkWorld
       (mkView [] [] (currentPageIndex (view w)) false []
               (isProcessing (view w)))
       (instance (removedAll (overlaysRef (view w)) w))
       (journal w ++ map RemoveOverlay (overlaysRef (view w)))).
Proof.
  unfold clearEditingState, read. cbn [bind run].
  rewrite run_bind, run_removeAll.
  cbn [bind run assignOverlaysRef assignTextBlocksRef setSelected
       setIsEditing modify].
  unfold withView, updateSelected.
  cbn [view instance journal overlaysRef textBlocksRef currentPageIndex
       isEditing selected isProcessing].
  rewrite removedAll_view, removedAll_journal. reflexivity.
Qed.

End ReplacementFacts.



(** C2: when the batch update is rejected, or accepted and the commit
    rejected, the handler logs the error, discards the session, and only
    then the outer handler logs the error (that of the update or commit,
    or the one of a rejected discard); commit is not called after a
    rejected update.  The handler returns normally and the component
    state and the instance are exactly those from before the press: the
    busy flag, set on entry, is back to false. *)
Theorem replace_failure_discards_and_keeps_state :
  forall (draws : nat -> nat -> nat) (sdk : Viewer.Sdk) (w : Viewer.World)
         (session : Viewer.Session) (e : Viewer.JsError),
    Viewer.isEditing (Viewer.view w) = true ->
    Viewer.selected (Viewer.view w) <> [] ->
    Viewer.isProcessing (Viewer.view w) = false ->
    sdk Viewer.beginContentEditingSession = inr session ->
    let updates :=
      Viewer.updatesFor draws 0 (Viewer.selected (Viewer.view w)) in
    (sdk (Viewer.updateTextBlocks session updates) = inl e
     \/ (sdk (Viewer.updateTextBlocks session updates) = inr tt
         /\ sdk (Viewer.commit session) = inl e)) ->
    Viewer.run sdk (Viewer.pressAiReplace draws) w
    = (Viewer.Normal tt,
       Viewer.mkWorld (Viewer.view w) (Viewer.instance w)
         (Viewer.journal w
          ++ Viewer.replaceAttempt draws session
               (Viewer.selected (Viewer.view w))
               (match sdk (Viewer.updateTextBlocks session updates) with
                | inl _ => false
                | inr _ => true
                end)
          ++ [ Viewer.ConsoleError "Error during AI text update:" e;
               Viewer.Called (Viewer.discard session);
               Viewer.ConsoleError "Error in AI Replace operation:"
                 (match sdk (Viewer.discard session) with
                  | inl e' => e'
                  | inr _ => e
                  end) ])).
Proof.
  intros draws sdk w session e He Hs Hp Hb updates Hf.
  pose proof (guards_pass w He Hs) as G.
  unfold Viewer.pressAiReplace, Viewer.aiToolbar_onPress. cbn [Viewer.run].
  rewrite G, Hp.
  run_sync. rewrite run_tryFinally, run_tryCatch.
  run_sync. rewrite Hb. run_sync.
  rewrite run_tryCatch, run_bind, run_mapSelected.
  run_sync. fold updates.
  destruct Hf as [Hu | [Hu Hc]]; rewrite Hu; run_sync;
    [ | rewrite Hc; run_sync ];
    destruct (sdk (Viewer.discard session)) as [e'|[]]; run_sync;
    rewrite (view_idle _ Hp); unfold Viewer.replaceAttempt;
    do 2 f_equal; rewrite <- !app_assoc; reflexivity.
Qed.

(** An instance of C2: two regions selected, the batch update rejected;
    the component state after the press is the one before it. *)
Lemma replace_failure_discards_and_keeps_state_witness :
  Viewer.view
    (snd (Viewer.run (Scenario.updateRejecting Scenario.document)
            (Viewer.pressAiReplace (fun _ k => k))
            Scenario.afterSelecting))
  = Viewer.view Scenario.afterSelecting.
Proof.
  rewrite (replace_failure_discards_and_keeps_state (fun _ k => k)
             (Scenario.updateRejecting Scenario.document)
             Scenario.afterSelecting Scenario.session "update failed");
    [ reflexivity | reflexivity | vm_compute; discriminate | reflexivity
    | reflexivity | left; reflexivity ].
Defined.

(** C3: when the session opens and both the batch update and the commit
    are accepted, the handler returns normally with the selection, the
    overlay list and the stored region list empty and with editing mode
    and the busy flag off; the batch and the commit were each submitted
    once, and the session was not discarded. *)
Theorem replace_success_clears_editing_state :
  forall (draws : nat -> nat -> nat) (sdk : Viewer.Sdk) (w : Viewer.World)
         (session : Viewer.Session),
    Viewer.isEditing (Viewer.view w) = true ->
    Viewer.selected (Viewer.view w) <> [] ->
    Viewer.isProcessing (Viewer.view w) = false ->
    sdk Viewer.beginContentEditingSession = inr session ->
    sdk (Viewer.updateTextBlocks session
           (Viewer.updatesFor draws 0 (Viewer.selected (Viewer.view w))))
    = inr tt ->
    sdk (Viewer.commit session) = inr tt ->
    let w' := snd (Viewer.run sdk (Viewer.pressAiReplace draws) w) in
    fst (Viewer.run sdk (Viewer.pressAiReplace draws) w) = Viewer.Normal tt
    /\ Viewer.selected (Viewer.view w') = []
    /\ Viewer.overlaysRef (Viewer.view w') = []
    /\ Viewer.textBlocksRef (Viewer.view w') = []
    /\ Viewer.isEditing (Viewer.view w') = false
    /\ Viewer.isProcessing (Viewer.view w') = false
    /\ Viewer.journal w'
       = (Viewer.journal w
          ++ Viewer.replaceAttempt draws session
               (Viewer.selected (Viewer.view w)) true
          ++ Viewer.ConsoleLog "AI text replacement completed and committed"
             :: map Viewer.RemoveOverlay
                  (Viewer.overlaysRef (Viewer.view w)))%list.
Proof.
  intros draws sdk w session He Hs Hp Hb Hu Hc w'. subst w'.
  pose proof (guards_pass w He Hs) as G.
  unfold Viewer.pressAiReplace, Viewer.aiToolbar_onPress. cbn [Viewer.run].
  rewrite G, Hp.
  run_sync. rewrite run_tryFinally, run_tryCatch.
  run_sync. rewrite Hb. run_sync.
  rewrite run_tryCatch, run_bind, run_mapSelected.
  run_sync. rewrite Hu. run_sync. rewrite Hc. run_sync.
  rewrite run_clearEditingState. run_sync.
  repeat (split; [reflexivity|]).
  unfold Viewer.replaceAttempt. rewrite <- !app_assoc. reflexivity.
Qed.

(** An instance of C3: the two selected regions of the scenario are
    replaced and committed; afterwards nothing is selected. *)
Lemma replace_success_clears_editing_state_witness :
  Viewer.selected (Viewer.view (Scenario.afterReplacement (fun _ k => k))) = [].
Proof.
  refine (proj1 (proj2
    (replace_success_clears_editing_state (fun _ k => k)
       (Scenario.resolving Scenario.document) Scenario.afterSelecting
       Scenario.session _ _ _ _ _ _)));
    try reflexivity.
  vm_compute. discriminate.
Defined.

(* ================================================================== *)
(** ** Entering editing mode *)

Section ActivationFacts.

Import Viewer.

Variable sdk : Sdk.

Lemma run_forPages (s : Session) (n : nat) :
  forall p acc w,
    run sdk (forPages s n p acc) w
    = (match readPages sdk s n p acc with
       | inl e => Thrown e
       | inr all => Normal all
       end,
       logged (pageCalls sdk s n p) w).
Proof.
  induction n as [|n IH]; intros p acc w.
  - simpl. now rewrite logged_nil.
  - cbn [forPages readPages pageCalls]. rewrite run_bind.
    cbn [run await].
    destruct (sdk (getTextBlocks s p)) as [e|blocks]; cbn [run].
    + reflexivity.
    + rewrite IH, record_logged, logged_logged. reflexivity.
Qed.

Lemma run_createOverlays (blocks : list PagedTextBlock) :
  forall acc w,
    run sdk (createOverlays blocks acc) w
    = (Normal (acc ++ map overlayIdOf blocks)%list, withOverlays blocks w).
Proof.
  induction blocks as [|tb rest IH]; intros acc w.
  - simpl. now rewrite app_nil_r.
  - cbn [createOverlays withOverlays map].
    cbn [bind run setCustomOverlayItem modify]. rewrite IH.
    rewrite <- app_assoc. reflexivity.
Qed.

Lemma withOverlays_view (blocks : list PagedTextBlock) :
  forall w, view (withOverlays blocks w) = view w.
Proof.
  induction blocks as [|tb rest IH]; intros w; simpl; [reflexivity|].
  now rewrite IH.
Qed.

Lemma withOverlays_journal (blocks : list PagedTextBlock) :
  forall w, journal (withOverlays blocks w)
            = (journal w
               ++ map (fun tb => SetOverlay (overlayItemOf tb)) blocks)%list.
Proof.
  induction blocks as [|tb rest IH]; intros w; simpl;
    [now rewrite app_nil_r|].
  rewrite IH. simpl. now rewrite <- app_assoc.
Qed.

(** A rejected page makes the loop throw, and conversely. *)
Lemma readPages_rejected (s : Session) (n : nat) :
  forall p acc,
    (exists q e, p <= q < p + n /\ sdk (getTextBlocks s q) = inl e)
    <-> (exists e, readPages sdk s n p acc = inl e).
Proof.
  induction n as [|n IH]; intros p acc; simpl.
  - split; [intros (q & e & Hq & _); lia | intros [e H]; discriminate].
  - destruct (sdk (getTextBlocks s p)) as [e|blocks] eqn:E.
    + split; [eauto | intros _; exists p, e; split; [lia | exact E]].
    + rewrite <- IH. split; intros (q & e & Hq & Hr).
      * exists q, e. split; [|exact Hr].
        destruct (Nat.eq_dec q p) as [->|]; [congruence | lia].
      * exists q, e. split; [lia | exact Hr].
Qed.

(** When every page resolves to the page of [doc], the loop returns the
    regions of [doc] in reading order and calls [getTextBlocks] once per
    page, in order. *)
Lemma readPages_document (s : Session) (doc : list (list TextBlock)) :
  forall p acc,
    (forall q, q < List.length doc ->
               sdk (getTextBlocks s (p + q)) = inr (nth q doc [])) ->
    readPages sdk s (List.length doc) p acc = inr (acc ++ pagesFrom p doc)%list
    /\ pageCalls sdk s (List.length doc) p
       = map (fun q => Called (getTextBlocks s q)) (seq p (List.length doc)).
Proof.
  induction doc as [|page rest IH]; intros p acc H.
  - simpl. now rewrite app_nil_r.
  - cbn [List.length readPages pageCalls pagesFrom seq map].
    pose proof (H 0 (Nat.lt_0_succ _)) as H0.
    rewrite Nat.add_0_r in H0. cbn [nth] in H0. rewrite H0.
    destruct (IH (S p) (acc ++ map (fun tb => withPageIndex tb p) page)%list)
      as [Hr Hc].
    { intros q Hq. specialize (H (S q)). rewrite Nat.add_succ_r in H.
      apply H. simpl. lia. }
    rewrite Hr, Hc, <- app_assoc. split; reflexivity.
Qed.

Lemma no_overlay_in_pageCalls (s : Session) (n : nat) :
  forall p, filter isSetOverlay (pageCalls sdk s n p) = [].
Proof.
  induction n as [|n IH]; intros p; simpl; [reflexivity|].
  destruct (sdk (getTextBlocks s p)); [reflexivity | apply IH].
Qed.

End ActivationFacts.

Section ToggleFacts.
Import Viewer.
Variable sdk : Sdk.

Lemma withOverlays_instance (blocks : list PagedTextBlock) :
  forall w, instance (withOverlays blocks w)
            = mkInstance (totalPageCount (instance w))
                (overlayItemsWith blocks (customOverlayItems (instance w))).
Proof.
  induction blocks as [|tb rest IH]; intros w; simpl.
  - now destruct (instance w).
  - rewrite IH. reflexivity.
Qed.

Lemma view_off (v : ViewerState) :
  isProcessing v = false -> isEditing v = false ->
  mkView (overlaysRef v) (textBlocksRef v) (currentPageIndex v)
         false (selected v) false = v.
Proof. destruct v. simpl. now intros -> ->. Qed.

Lemma press_open_rejected (w : World) (e : JsError) :
  isEditing (view w) = false -> isProcessing (view w) = false ->
  sdk beginContentEditingSession = inl e ->
  run sdk pressContentBoxes w
  = (Normal tt,
     mkWorld (view w) (instance w)
       (journal w ++ activationIntro
        ++ [ConsoleError "Error in content editing:" e])).
Proof.
  intros He Hp Hb. unfold pressContentBoxes, handleContentBoxesPress.
  cbn [run].
  rewrite Hp, He. run_sync. rewrite run_tryFinally, run_tryCatch.
  unfold startEditing. run_sync. rewrite Hb. run_sync.
  rewrite (view_off _ Hp He). unfold activationIntro.
  do 2 f_equal. rewrite <- !app_assoc. reflexivity.
Qed.

Lemma press_read_rejected (w : World) (s : Session) (e : JsError) :
  isEditing (view w) = false -> isProcessing (view w) = false ->
  sdk beginContentEditingSession = inr s ->
  readPages sdk s (totalPageCount (instance w)) 0 [] = inl e ->
  run sdk pressContentBoxes w
  = (Normal tt,
     mkWorld (view w) (instance w)
       (journal w ++ activationIntro
        ++ pageCalls sdk s (totalPageCount (instance w)) 0
        ++ [ Called (discard s);
             ConsoleError "Error in content editing:" (afterDiscard sdk s e) ])).
Proof.
  intros He Hp Hb Hr. unfold pressContentBoxes, handleContentBoxesPress.
  cbn [run].
  rewrite Hp, He. run_sync. rewrite run_tryFinally, run_tryCatch.
  unfold startEditing. run_sync. rewrite Hb. run_sync.
  rewrite run_tryFinally. run_sync. rewrite run_bind, run_forPages, Hr.
  run_sync. unfold afterDiscard.
  destruct (sdk (discard s)) as [e'|[]]; run_sync;
    rewrite (view_off _ Hp He); unfold activationIntro;
    do 2 f_equal; rewrite <- !app_assoc; reflexivity.
Qed.

Lemma press_read_resolved (w : World) (s : Session)
    (all : list PagedTextBlock) :
  isEditing (view w) = false -> isProcessing (view w) = false ->
  sdk beginContentEditingSession = inr s ->
  readPages sdk s (totalPageCount (instance w)) 0 [] = inr all ->
  run sdk pressContentBoxes w
  = (Normal tt,
     mkWorld
       (mkView (map overlayIdOf all) all (currentPageIndex (view w))
          (match sdk (discard s) with inl _ => false | inr _ => true end)
          (selected (view w)) false)
       (mkInstance (totalPageCount (instance w))
          (overlayItemsWith all (customOverlayItems (instance w))))
       (journal w ++ activationIntro
        ++ pageCalls sdk s (totalPageCount (instance w)) 0
        ++ map (fun tb => SetOverlay (overlayItemOf tb)) all
        ++ Called (discard s)
           :: match sdk (discard s) with
              | inl e => [ConsoleError "Error in content editing:" e]
              | inr _ => []
              end)).
Proof.
  intros He Hp Hb Hr. unfold pressContentBoxes, handleContentBoxesPress.
  cbn [run].
  rewrite Hp, He. run_sync. rewrite run_tryFinally, run_tryCatch.
  unfold startEditing. run_sync. rewrite Hb. run_sync.
  rewrite run_tryFinally. run_sync. rewrite run_bind, run_forPages, Hr.
  run_sync. rewrite run_bind, run_createOverlays. run_sync.
  rewrite withOverlays_view, withOverlays_journal, withOverlays_instance.
  run_sync.
  destruct (sdk (discard s)) as [e'|[]]; run_sync;
    unfold activationIntro; do 2 f_equal; rewrite <- !app_assoc;
    reflexivity.
Qed.

End ToggleFacts.

Section JournalFacts.
Import Viewer.
Variable sdk : Sdk.

Lemma pageCalls_called (s : Session) (n : nat) :
  forall p, filter isCalled (pageCalls sdk s n p) = pageCalls sdk s n p.
Proof.
  induction n as [|n IH]; intros p; simpl; [reflexivity|].
  destruct (sdk (getTextBlocks s p)); [reflexivity | now rewrite IH].
Qed.

Lemma overlays_not_called (blocks : list PagedTextBlock) :
  filter isCalled (map (fun tb => SetOverlay (overlayItemOf tb)) blocks) = [].
Proof. induction blocks as [|tb rest IH]; simpl; [reflexivity | exact IH]. Qed.

End JournalFacts.

(** C7: a press of the toggle outside editing mode returns normally,
    whatever the SDK answers.  If the session was opened, the SDK calls of
    the press are [beginContentEditingSession], the page reads, and then
    [discard] on that session, once and last, whether or not a page read
    was rejected; if the session could not be opened there is nothing to
    discard.  If opening the session or reading some page is rejected,
    the component state and the instance are those from before the press,
    so editing mode is off again, no overlay was set, and the error was
    written to the console by the handler's [catch].  An overlay is set
    only in a run in which the session opened and every page was read. *)
Theorem activation_releases_session :
  forall (sdk : Viewer.Sdk) (w : Viewer.World),
    Viewer.isEditing (Viewer.view w) = false ->
    Viewer.isProcessing (Viewer.view w) = false ->
    let pages := Viewer.totalPageCount (Viewer.instance w) in
    let w' := snd (Viewer.run sdk Viewer.pressContentBoxes w) in
    exists evs,
      fst (Viewer.run sdk Viewer.pressContentBoxes w) = Viewer.Normal tt
      /\ Viewer.journal w' = (Viewer.journal w ++ evs)%list
      /\ (forall s,
            sdk Viewer.beginContentEditingSession = inr s ->
            filter Viewer.isCalled evs
            = (Viewer.Called Viewer.beginContentEditingSession
               :: Viewer.pageCalls sdk s pages 0
               ++ [Viewer.Called (Viewer.discard s)])%list)
      /\ (forall e,
            sdk Viewer.beginContentEditingSession = inl e ->
            filter Viewer.isCalled evs
            = [Viewer.Called Viewer.beginContentEditingSession])
      /\ ((exists e, sdk Viewer.beginContentEditingSession = inl e)
          \/ (exists s q e,
                sdk Viewer.beginContentEditingSession = inr s
                /\ q < pages
                /\ sdk (Viewer.getTextBlocks s q) = inl e) ->
          Viewer.view w' = Viewer.view w
          /\ Viewer.isEditing (Viewer.view w') = false
          /\ Viewer.instance w' = Viewer.instance w
          /\ filter Viewer.isSetOverlay evs = []
          /\ exists before e',
               evs = (before
                      ++ [Viewer.ConsoleError "Error in content editing:" e'])%list)
      /\ (filter Viewer.isSetOverlay evs <> [] ->
          exists s,
            sdk Viewer.beginContentEditingSession = inr s
            /\ forall q, q < pages ->
                 exists blocks, sdk (Viewer.getTextBlocks s q) = inr blocks).
Proof.
  intros sdk w He Hp pages w'. subst w'.
  destruct (sdk Viewer.beginContentEditingSession) as [e|s] eqn:Hb.
  - rewrite (press_open_rejected sdk w e He Hp Hb). cbn [fst snd Viewer.journal].
    eexists. split; [reflexivity|]. split; [reflexivity|].
    split; [intros s Hs; discriminate|].
    split; [intros e0 _; reflexivity|].
    split.
    + intros _. repeat split; try assumption.
      exists (firstn 3 Viewer.activationIntro), e. reflexivity.
    + intros H. exfalso. apply H. reflexivity.
  - destruct (Viewer.readPages sdk s pages 0 []) as [e|all] eqn:Hr.
    + rewrite (press_read_rejected sdk w s e He Hp Hb Hr).
      cbn [fst snd Viewer.journal]. fold pages.
      eexists. split; [reflexivity|]. split; [reflexivity|].
      split.
      { intros s0 Hs. injection Hs as <-. unfold Viewer.activationIntro.
        cbn [app filter Viewer.isCalled]. rewrite filter_app.
        rewrite pageCalls_called. reflexivity. }
      split; [intros e0 H0; discriminate|].
      split.
      * intros _. repeat split; try assumption.
        -- unfold Viewer.activationIntro. cbn [app filter Viewer.isSetOverlay].
           rewrite filter_app, no_overlay_in_pageCalls. reflexivity.
        -- exists (Viewer.activationIntro ++ Viewer.pageCalls sdk s pages 0
                   ++ [Viewer.Called (Viewer.discard s)])%list,
             (Viewer.afterDiscard sdk s e).
           rewrite <- !app_assoc. reflexivity.
      * intros H. exfalso. apply H. unfold Viewer.activationIntro.
        cbn [app filter Viewer.isSetOverlay].
        rewrite filter_app, no_overlay_in_pageCalls. reflexivity.
    + rewrite (press_read_resolved sdk w s all He Hp Hb Hr).
      cbn [fst snd Viewer.journal]. fold pages.
      assert (Hall : forall q, q < pages ->
                exists blocks, sdk (Viewer.getTextBlocks s q) = inr blocks).
      { intros q Hq. destruct (sdk (Viewer.getTextBlocks s q)) as [e|b] eqn:E;
          [|eauto].
        destruct (proj1 (readPages_rejected sdk s pages 0 [])) as [e0 H0].
        - exists q, e. split; [lia | exact E].
        - congruence. }
      eexists. split; [reflexivity|]. split; [reflexivity|].
      split.
      { intros s0 Hs. injection Hs as <-. unfold Viewer.activationIntro.
        cbn [app filter Viewer.isCalled]. rewrite !filter_app.
        rewrite pageCalls_called, overlays_not_called.
        destruct (sdk (Viewer.discard s)); reflexivity. }
      split; [intros e0 H0; discriminate|].
      split.
      * intros [[e He'] | (s0 & q & e & Hs & Hq & Hrej)]; [discriminate|].
        injection Hs as <-. destruct (Hall q Hq) as [b Hb']. congruence.
      * intros _. exists s. split; [reflexivity | exact Hall].
Qed.

(** An instance of C7: the second page of the scenario cannot be read;
    the component state after the press is the initial one. *)
Lemma activation_releases_session_witness :
  Viewer.view
    (snd (Viewer.run (Scenario.secondPageRejecting Scenario.document)
            Viewer.pressContentBoxes
            (Viewer.world (Viewer.initialConfig 2))))
  = Viewer.initialView.
Proof.
  destruct (activation_releases_session
              (Scenario.secondPageRejecting Scenario.document)
              (Viewer.world (Viewer.initialConfig 2)) eq_refl eq_refl)
    as (evs & _ & _ & _ & _ & H & _).
  apply H. right. exists Scenario.session, 1, "page unreadable".
  repeat split. simpl. lia.
Defined.

(* ================================================================== *)
(** ** Overlays and the batch of a replacement *)

Section OverlayFacts.

Import Viewer.

(** An overlay sits at the top-left corner of its region, on the
    region's page, with the size of the bounding box, and starts blue. *)
Lemma overlayItemOf_geometry (tb : PagedTextBlock) :
  co_position (overlayItemOf tb)
  = mkPoint (bb_left (tb_boundingBox (block tb)))
            (bb_top (tb_boundingBox (block tb)))
  /\ style_width (co_node (overlayItemOf tb))
     = bb_width (tb_boundingBox (block tb))
  /\ style_height (co_node (overlayItemOf tb))
     = bb_height (tb_boundingBox (block tb))
  /\ co_pageIndex (overlayItemOf tb) = pageIndex tb
  /\ isCurrentlyBlue (co_node (overlayItemOf tb)) = true
  /\ listener_textBlock (co_node (overlayItemOf tb)) = tb.
Proof. repeat split. Qed.

(** Entering editing mode on a document whose pages all resolve: the
    pages are read in order, the regions are stored in reading order, and
    one overlay is set per region, in the same order. *)
Lemma activation_sets_one_overlay_per_region
    (sdk : Sdk) (w : World) (s : Session) (doc : list (list TextBlock)) :
  isEditing (view w) = false -> isProcessing (view w) = false ->
  sdk beginContentEditingSession = inr s ->
  totalPageCount (instance w) = List.length doc ->
  (forall q, q < List.length doc ->
             sdk (getTextBlocks s q) = inr (nth q doc [])) ->
  let w' := snd (run sdk pressContentBoxes w) in
  textBlocksRef (view w') = pagesFrom 0 doc
  /\ overlaysRef (view w') = map overlayIdOf (pagesFrom 0 doc)
  /\ journal w'
     = (journal w ++ activationIntro
        ++ map (fun q => Called (getTextBlocks s q)) (seq 0 (List.length doc))
        ++ map (fun tb => SetOverlay (overlayItemOf tb)) (pagesFrom 0 doc)
        ++ Called (discard s)
           :: match sdk (discard s) with
              | inl e => [ConsoleError "Error in content editing:" e]
              | inr _ => []
              end)%list.
Proof.
  intros He Hp Hb Hn Hd w'. subst w'.
  destruct (readPages_document sdk s doc 0 []) as [Hr Hc].
  { intros q Hq. simpl. apply Hd, Hq. }
  rewrite <- Hn in Hr, Hc.
  rewrite (press_read_resolved sdk w s _ He Hp Hb Hr).
  cbn [snd view journal textBlocksRef overlaysRef].
  rewrite Hc, Hn. repeat split.
Qed.

(** The batch has one update per selected region, with its identifier,
    in selection order; the replacement fits wherever the original has
    seven characters or more. *)
Lemma updatesFor_ids (draws : nat -> nat -> nat)
    (blocks : list PagedTextBlock) :
  forall i, map u_id (updatesFor draws i blocks)
            = map (fun tb => tb_id (block tb)) blocks.
Proof.
  induction blocks as [|tb rest IH]; intros i; simpl; [reflexivity|].
  now rewrite IH.
Qed.

Lemma updatesFor_fit (draws : nat -> nat -> nat)
    (blocks : list PagedTextBlock) :
  Forall (fun tb => (7 <= Js.len (tb_text (block tb)))%Z) blocks ->
  forall i,
    Forall2 (fun tb u =>
               exists newText,
                 u_text u = Some newText
                 /\ (Js.len newText <= Js.len (tb_text (block tb)))%Z)
            blocks (updatesFor draws i blocks).
Proof.
  induction 1 as [|tb rest Hlen _ IH]; intros i; simpl; constructor.
  - eexists. split; [reflexivity|].
    apply generateRandomText_fits. exact Hlen.
  - apply IH.
Qed.

End OverlayFacts.

(** C8, evaluated on a document of two pages with three and two
    regions in which region r2 reads "Hi": entering editing mode stores
    five regions and sets five overlays, one per region in reading order;
    after clicks on the overlays of r2 and r4 the replacement action
    submits one batch of two updates, for r2 and for r4, and commits it.
    Whatever words are drawn, the update for r2 carries the seven
    characters of "AI text" against the two of "Hi". *)
Theorem scenario_short_region_overflows :
  forall draws : nat -> nat -> nat,
    List.length (Viewer.overlaysRef (Viewer.view Scenario.afterActivation)) = 5
    /\ Viewer.textBlocksRef (Viewer.view Scenario.afterActivation)
       = Viewer.pagesFrom 0 Scenario.document
    /\ filter Viewer.isSetOverlay (Viewer.journal Scenario.afterActivation)
       = map (fun tb => Viewer.SetOverlay (Viewer.overlayItemOf tb))
             (Viewer.pagesFrom 0 Scenario.document)
    /\ map (fun tb => (Viewer.tb_id (Viewer.block tb),
                       Viewer.tb_text (Viewer.block tb)))
           (Viewer.selected (Viewer.view Scenario.afterSelecting))
       = [("r2", "Hi"); ("r4", "Subtotal:")]
    /\ filter Viewer.isCalled
         (skipn (List.length (Viewer.journal Scenario.afterSelecting))
                (Viewer.journal (Scenario.afterReplacement draws)))
       = [ Viewer.Called Viewer.beginContentEditingSession;
           Viewer.Called
             (Viewer.updateTextBlocks Scenario.session
                [ Viewer.mkUpdated "r2" (Some "AI text") None None;
                  Viewer.mkUpdated "r4" (Some "AI text") None None ]);
           Viewer.Called (Viewer.commit Scenario.session) ]
    /\ (Js.len "Hi" < Js.len "AI text")%Z.
Proof.
  intros draws. repeat split.
Qed.

(* ================================================================== *)
(** ** Clicks on an overlay *)

Section ClickFacts.

Import Viewer.

Lemma isSelected_app (regionId : string) (a b : list PagedTextBlock) :
  isSelected regionId (a ++ b) = isSelected regionId a || isSelected regionId b.
Proof. apply existsb_app. Qed.

(** Removing by identifier removes exactly that identifier. *)
Lemma isSelected_removed (textBlock : PagedTextBlock) (regionId : string)
    (sel : list PagedTextBlock) :
  isSelected regionId (filter (fun tb => negb (sameId textBlock tb)) sel)
  = isSelected regionId sel && negb (tb_id (block textBlock) =? regionId).
Proof.
  induction sel as [|tb rest IH]; simpl; [reflexivity|].
  unfold sameId at 1.
  destruct (String.eqb_spec (tb_id (block tb)) (tb_id (block textBlock)))
    as [E|N]; simpl.
  - rewrite IH, E.
    destruct (tb_id (block textBlock) =? regionId);
      simpl; [now rewrite andb_false_r | now rewrite andb_true_r].
  - rewrite IH.
    destruct (String.eqb_spec (tb_id (block tb)) regionId) as [E'|N'];
      simpl; [|reflexivity].
    destruct (String.eqb_spec (tb_id (block textBlock)) regionId)
      as [E''|N'']; [congruence|].
    reflexivity.
Qed.

Lemma isSelected_own (textBlock : PagedTextBlock) :
  isSelected (tb_id (block textBlock)) [textBlock] = true.
Proof. simpl. now rewrite String.eqb_refl. Qed.

Lemma toggledNode_flips (node : OverlayDiv) :
  isCurrentlyBlue (toggledNode node) = negb (isCurrentlyBlue node)
  /\ listener_textBlock (toggledNode node) = listener_textBlock node.
Proof.
  unfold toggledNode. destruct (isCurrentlyBlue node); split; reflexivity.
Qed.

(** One click, whatever the selection held: afterwards the region of the
    overlay is selected exactly if the overlay was blue, and no other
    identifier enters or leaves the selection. *)
Lemma click_sets_membership (node : OverlayDiv) (sel : list PagedTextBlock) :
  isSelected (regionIdOf node) (snd (clickListener node sel))
  = isCurrentlyBlue node
  /\ forall regionId,
       regionId <> regionIdOf node ->
       isSelected regionId (snd (clickListener node sel))
       = isSelected regionId sel.
Proof.
  unfold clickListener, selectionUpdate, regionIdOf. cbn [snd].
  destruct (isCurrentlyBlue node).
  - change (existsb (sameId (listener_textBlock node)) sel)
      with (isSelected (tb_id (block (listener_textBlock node))) sel).
    destruct (isSelected (tb_id (block (listener_textBlock node))) sel) eqn:E.
    + split; [exact E | reflexivity].
    + split.
      * rewrite isSelected_app, isSelected_own. apply orb_true_r.
      * intros regionId N. rewrite isSelected_app. simpl.
        destruct (String.eqb_spec (tb_id (block (listener_textBlock node)))
                    regionId); [congruence|].
        now rewrite !orb_false_r.
  - split.
    + rewrite isSelected_removed, String.eqb_refl. apply andb_false_r.
    + intros regionId N. rewrite isSelected_removed.
      destruct (String.eqb_spec (tb_id (block (listener_textBlock node)))
                  regionId); [congruence|].
      apply andb_true_r.
Qed.

End ClickFacts.

(** C4, as stated, fails where the overlay and the selection disagree:
    the overlay of r1 is blue although r1 is in the selection.  The first
    click finds r1 already selected and only turns the overlay red, the
    second removes r1, so r1 was selected before the two clicks and is
    not after them. *)
Lemma double_click_drops_stale_selection :
  Viewer.isCurrentlyBlue (Viewer.createOverlayDiv Scenario.staleRegion) = true
  /\ Viewer.isSelected "r1" [Scenario.staleRegion] = true
  /\ snd (Viewer.clickListener
            (Viewer.createOverlayDiv Scenario.staleRegion)
            [Scenario.staleRegion])
     = [Scenario.staleRegion]
  /\ snd (Viewer.doubleClick
            (Viewer.createOverlayDiv Scenario.staleRegion)
            [Scenario.staleRegion])
     = []
  /\ Viewer.isSelected "r1"
       (snd (Viewer.doubleClick
               (Viewer.createOverlayDiv Scenario.staleRegion)
               [Scenario.staleRegion]))
     <> Viewer.isSelected "r1" [Scenario.staleRegion].
Proof. repeat split. vm_compute. discriminate. Qed.

(** C4, amended: for an overlay whose colour agrees with the selection
    (blue exactly if its region's identifier is not selected), one click
    appends the region when the overlay was blue and removes the entries
    with its identifier when it was red, leaving all other identifiers as
    they were; two clicks in a row give back the colour and, for every
    identifier, the membership from before the first click. *)
Theorem double_click_restores_membership :
  forall (node : Viewer.OverlayDiv) (sel : list Viewer.PagedTextBlock),
    Viewer.agrees node sel ->
    (Viewer.isCurrentlyBlue node = true ->
     snd (Viewer.clickListener node sel)
     = (sel ++ [Viewer.listener_textBlock node])%list)
    /\ (Viewer.isCurrentlyBlue node = false ->
        snd (Viewer.clickListener node sel)
        = filter (fun tb =>
                    negb (Viewer.sameId (Viewer.listener_textBlock node) tb))
                 sel)
    /\ Viewer.isSelected (Viewer.regionIdOf node)
         (snd (Viewer.clickListener node sel))
       = negb (Viewer.isSelected (Viewer.regionIdOf node) sel)
    /\ (forall regionId,
          regionId <> Viewer.regionIdOf node ->
          Viewer.isSelected regionId (snd (Viewer.clickListener node sel))
          = Viewer.isSelected regionId sel)
    /\ Viewer.isCurrentlyBlue (fst (Viewer.doubleClick node sel))
       = Viewer.isCurrentlyBlue node
    /\ (forall regionId,
          Viewer.isSelected regionId (snd (Viewer.doubleClick node sel))
          = Viewer.isSelected regionId sel).
Proof.
  intros node sel A. unfold Viewer.agrees in A.
  destruct (click_sets_membership node sel) as [Hown Hother].
  split; [|split; [|split; [|split; [|split]]]].
  - intros B. unfold Viewer.clickListener, Viewer.selectionUpdate. cbn [snd].
    rewrite B.
    change (existsb (Viewer.sameId (Viewer.listener_textBlock node)) sel)
      with (Viewer.isSelected (Viewer.regionIdOf node) sel).
    rewrite B in A. apply (f_equal negb) in A. rewrite negb_involutive in A.
    simpl in A. now rewrite <- A.
  - intros B. unfold Viewer.clickListener, Viewer.selectionUpdate. cbn [snd].
    now rewrite B.
  - now rewrite Hown, A.
  - exact Hother.
  - unfold Viewer.doubleClick, Viewer.clickListener. cbn [fst].
    destruct (toggledNode_flips node) as [F1 _].
    destruct (toggledNode_flips (Viewer.toggledNode node)) as [F2 _].
    now rewrite F2, F1, negb_involutive.
  - intros regionId. unfold Viewer.doubleClick.
    destruct (Viewer.clickListener node sel) as [node1 sel1] eqn:C1.
    assert (N1 : node1 = Viewer.toggledNode node)
      by (unfold Viewer.clickListener in C1; congruence).
    cbn [snd] in Hown, Hother.
    destruct (click_sets_membership node1 sel1) as [Hown' Hother'].
    assert (R : Viewer.regionIdOf node1 = Viewer.regionIdOf node).
    { subst node1. unfold Viewer.regionIdOf.
      now rewrite (proj2 (toggledNode_flips node)). }
    rewrite R in Hown', Hother'.
    destruct (String.eqb_spec regionId (Viewer.regionIdOf node)) as [->|N].
    + rewrite Hown'. subst node1.
      rewrite (proj1 (toggledNode_flips node)), A. apply negb_involutive.
    + rewrite Hother' by exact N. apply Hother. exact N.
Qed.

(** An instance of C4: the fresh blue overlay of r1 and an empty
    selection; two clicks leave the selection empty. *)
Lemma double_click_restores_membership_witness :
  Viewer.isSelected "r1"
    (snd (Viewer.doubleClick
            (Viewer.createOverlayDiv Scenario.staleRegion) []))
  = Viewer.isSelected "r1" [].
Proof.
  apply (double_click_restores_membership
           (Viewer.createOverlayDiv Scenario.staleRegion) []).
  reflexivity.
Defined.

(* ================================================================== *)
(** ** The busy flag in the event loop *)

Section BusyFacts.

Import Viewer.

Lemma keepsFlag_bind {A B : Type} (p : Prog A) (f : A -> Prog B) :
  keepsFlag p -> (forall a, keepsFlag (f a)) -> keepsFlag (bind p f).
Proof.
  intros Hp Hf. induction p as [a|e|k IH|g k IH|c k IH]; simpl in *; auto.
  destruct Hp as [Hg Hk]. auto.
Qed.

Lemma keepsFlag_tryCatch {A : Type} (p : Prog A) (h : JsError -> Prog A) :
  keepsFlag p -> (forall e, keepsFlag (h e)) -> keepsFlag (tryCatch p h).
Proof.
  intros Hp Hh. induction p as [a|e|k IH|g k IH|c k IH]; simpl in *; auto.
  destruct Hp as [Hg Hk]. auto.
Qed.

Lemma keepsFlag_tryFinally {A : Type} (p : Prog A) (fin : Prog unit) :
  keepsFlag p -> keepsFlag fin -> keepsFlag (tryFinally p fin).
Proof.
  intros Hp Hf. induction p as [a|e|k IH|g k IH|c k IH]; simpl in *; auto.
  - apply keepsFlag_bind; simpl; auto.
  - apply keepsFlag_bind; simpl; auto.
  - destruct Hp as [Hg Hk]. auto.
Qed.

Lemma keepsFlag_await (c : SdkCall) : keepsFlag (await c).
Proof. simpl. intros [e|v]; exact I. Qed.

Lemma keepsFlag_modify (f : World -> World) :
  (forall w, isProcessing (view (f w)) = isProcessing (view w)) ->
  keepsFlag (modify f).
Proof. intros H. simpl. auto. Qed.

Lemma keepsFlag_forEach {A : Type} (l : list A) (f : A -> Prog unit) :
  (forall a, keepsFlag (f a)) -> keepsFlag (forEach l f).
Proof.
  intros H. induction l as [|a l IH]; simpl; [exact I|].
  apply keepsFlag_bind; auto.
Qed.

Lemma keepsFlag_forPages (s : Session) (n : nat) :
  forall p acc, keepsFlag (forPages s n p acc).
Proof.
  induction n as [|n IH]; intros p acc; [exact I|].
  cbn [forPages]. apply keepsFlag_bind; [apply keepsFlag_await | auto].
Qed.

Lemma keepsFlag_createOverlays (blocks : list PagedTextBlock) :
  forall acc, keepsFlag (createOverlays blocks acc).
Proof.
  induction blocks as [|tb rest IH]; intros acc; [exact I|].
  cbn [createOverlays]. apply keepsFlag_bind; [|auto].
  apply keepsFlag_modify. reflexivity.
Qed.

Lemma keepsFlag_mapSelected (draws : nat -> nat -> nat)
    (blocks : list PagedTextBlock) :
  forall i, keepsFlag (mapSelected draws i blocks).
Proof.
  induction blocks as [|tb rest IH]; intros i; [exact I|].
  cbn [mapSelected]. apply keepsFlag_bind.
  - simpl. repeat split.
  - intros u. apply keepsFlag_bind; [apply IH | intros; exact I].
Qed.

Ltac flag_step :=
  first
    [ exact I
    | reflexivity
    | apply keepsFlag_await
    | apply keepsFlag_forPages
    | apply keepsFlag_createOverlays
    | apply keepsFlag_mapSelected
    | apply keepsFlag_forEach
    | apply keepsFlag_tryCatch
    | apply keepsFlag_tryFinally
    | apply keepsFlag_bind
    | split
    | intro ].

Lemma keepsFlag_clearEditingState : keepsFlag clearEditingState.
Proof. unfold clearEditingState. repeat flag_step. Qed.

Lemma keepsFlag_startEditing : keepsFlag startEditing.
Proof. unfold startEditing. repeat flag_step. Qed.

(** A body that leaves the flag alone, wrapped in
    [try { ... } finally { setIsProcessing(false) }] and entered with the
    flag set, has the flag set at each of its [await]s. *)
Lemma busy_until_finally (p : Prog unit) :
  keepsFlag p ->
  forall w, isProcessing (view w) = true ->
            busyWhileParked (tryFinally p (setIsProcessing false)) w.
Proof.
  induction p as [a|e|k IH|g k IH|c k IH]; intros Hp w Hw; simpl in *; auto.
  destruct Hp as [Hg Hk]. apply IH; [exact Hk|]. now rewrite Hg.
Qed.

Lemma busyWhileParked_toggle (w : World) :
  busyWhileParked pressContentBoxes w.
Proof.
  unfold pressContentBoxes, handleContentBoxesPress. cbn [busyWhileParked].
  destruct (isProcessing (view w)); [exact I|].
  cbn [bind console_log setIsProcessing modify busyWhileParked].
  apply busy_until_finally; [|reflexivity].
  apply keepsFlag_tryCatch.
  - destruct (isEditing (view w)).
    + split; [reflexivity | apply keepsFlag_clearEditingState].
    + apply keepsFlag_startEditing.
  - intros e. simpl. repeat split.
Qed.

Lemma busyWhileParked_replace (draws : nat -> nat -> nat) (w : World) :
  busyWhileParked (pressAiReplace draws) w.
Proof.
  unfold pressAiReplace, aiToolbar_onPress. cbn [busyWhileParked].
  destruct (negb (isEditing (view w)) || _); [exact I|].
  destruct (isProcessing (view w)); [exact I|].
  cbn [bind console_log setIsProcessing modify busyWhileParked].
  apply busy_until_finally; [|reflexivity].
  apply keepsFlag_tryCatch; [|intros e; simpl; repeat split].
  split; [reflexivity|].
  apply keepsFlag_bind; [apply keepsFlag_await|]. intros session.
  apply keepsFlag_tryCatch.
  - apply keepsFlag_bind; [apply keepsFlag_mapSelected|]. intros updates.
    split; [reflexivity|].
    apply keepsFlag_bind; [apply keepsFlag_await|]. intros _.
    apply keepsFlag_bind; [apply keepsFlag_await|]. intros _.
    split; [reflexivity | apply keepsFlag_clearEditingState].
  - intros e. split; [reflexivity|]. intros [e'|v]; exact I.
Qed.

Lemma advance_parks_busy (p : Prog unit) :
  forall w w' q,
    busyWhileParked p w -> advance p w = (w', q) ->
    List.length q <= 1 /\ parkedBusy w' q.
Proof.
  unfold parkedBusy.
  induction p as [a|e|k IH|g k IH|c k IH]; intros w w' q Hb Ha;
    simpl in *.
  - injection Ha as <- <-. repeat split; [simpl; lia | constructor | easy].
  - injection Ha as <- <-. repeat split; [simpl; lia | constructor | easy].
  - eapply IH; eassumption.
  - eapply IH; eassumption.
  - injection Ha as <- <-. destruct Hb as [Hw Hk].
    repeat split; [simpl; lia | | intros _; exact Hw].
    constructor; [exact Hk | constructor].
Qed.

(** A press while the flag is set is dropped: a line or two on the
    console, nothing parked, component state and instance untouched. *)
Lemma toggle_dropped_when_busy (w : World) :
  isProcessing (view w) = true ->
  advance pressContentBoxes w
  = (logged
       [ ConsoleLog "Content Boxes button pressed. Current isEditing state:";
         ConsoleLog "Already processing, ignoring click" ] w, []).
Proof.
  intros H. unfold pressContentBoxes, handleContentBoxesPress.
  cbn [advance]. rewrite H.
  cbn [bind console_log modify advance]. unfold record, logged. simpl.
  now rewrite <- app_assoc.
Qed.

Lemma replace_dropped_when_busy (draws : nat -> nat -> nat) (w : World) :
  isProcessing (view w) = true ->
  exists line,
    advance (pressAiReplace draws) w = (logged [line] w, []).
Proof.
  intros H. unfold pressAiReplace, aiToolbar_onPress. cbn [advance]. rewrite H.
  destruct (negb (isEditing (view w)) || _); eexists; reflexivity.
Qed.

(** The guard looks at the flag of the handler's own render: called
    again, the handler of a render in which the flag was off starts the
    operation whatever the flag is by then.  A press, as defined above,
    never calls such a handler. *)
Lemma handler_of_old_render_starts (w : World) :
  List.length (snd (advance (handleContentBoxesPress initialView) w)) = 1.
Proof. reflexivity. Qed.

Lemma clickOverlay_flag (overlayId : string) (w : World) :
  isProcessing (view (clickOverlay overlayId w)) = isProcessing (view w).
Proof.
  unfold clickOverlay. destruct (findOverlay overlayId w); reflexivity.
Qed.

(** The invariant of the event loop. *)
Lemma reachable_parkedBusy (allowed : Label -> Prop) (cfg : Config) :
  reachableBy allowed cfg ->
  List.length (inflight cfg) <= 1 /\ parkedBusy (world cfg) (inflight cfg).
Proof.
  induction 1 as [pages | l cfg cfg' _ [Hlen [Hres Hbusy]] _ Hstep].
  - simpl. repeat split; [lia | constructor | easy].
  - destruct Hstep as [w q w' s Ha | draws w q w' s Ha
                      | overlayId item w q Hf | pageIndex w q
                      | c k r w q1 q2 w' s Ha];
      cbn [world inflight] in *.
    + destruct q as [|parked q].
      * apply (advance_parks_busy _ _ _ _ (busyWhileParked_toggle w) Ha).
      * rewrite toggle_dropped_when_busy in Ha by (apply Hbusy; easy).
        injection Ha as <- <-. rewrite app_nil_r.
        repeat split; [exact Hlen | exact Hres |].
        intros _. apply Hbusy. easy.
    + destruct q as [|parked q].
      * apply (advance_parks_busy _ _ _ _ (busyWhileParked_replace draws w) Ha).
      * destruct (replace_dropped_when_busy draws w) as [line Hd];
          [apply Hbusy; easy|].
        rewrite Hd in Ha. injection Ha as <- <-. rewrite app_nil_r.
        repeat split; [exact Hlen | exact Hres |].
        intros _. apply Hbusy. easy.
    + repeat split; [exact Hlen | exact Hres |].
      intros N. rewrite clickOverlay_flag. apply Hbusy, N.
    + repeat split; [exact Hlen | exact Hres |].
      intros N. apply Hbusy, N.
    + rewrite length_app in Hlen. simpl in Hlen.
      assert (q1 = []) by (destruct q1; [reflexivity | simpl in Hlen; lia]).
      assert (q2 = []) by (destruct q2; [reflexivity | simpl in Hlen; lia]).
      subst q1 q2. simpl in *. rewrite app_nil_r.
      inversion Hres as [|? ? Hk _]; subst.
      apply (advance_parks_busy _ _ _ _ (Hk r w (Hbusy ltac:(easy))) Ha).
Qed.

End BusyFacts.

(* ================================================================== *)
(** ** Runs as paths of the event loop *)

Section RunsAreReachable.

Import Viewer.

Variable sdk : Sdk.
Variable allowed : Label -> Prop.
Hypothesis settling_allowed : forall c, allowed (Settle c (sdk c)).

(** Settling each promise of a handler as [sdk] does, with no other
    event in between, ends in the world [run] computes. *)
Lemma settle_to_completion (p : Prog unit) :
  forall w q,
    reachableBy allowed
      (mkConfig (fst (advance p w)) (q ++ snd (advance p w))) ->
    reachableBy allowed (mkConfig (snd (run sdk p w)) q).
Proof.
  induction p as [a|e|k IH|g k IH|c k IH]; intros w q R; simpl in *.
  - now rewrite app_nil_r in R.
  - now rewrite app_nil_r in R.
  - apply IH, R.
  - apply IH, R.
  - apply IH.
    eapply reachable_step; [exact R | apply (settling_allowed c) |].
    pose proof (step_settle c k (sdk c) (record (Called c) w) q []) as S.
    specialize (S _ _ (surjective_pairing _)).
    now rewrite app_nil_r in S.
Qed.

Lemma toggle_run_reachable (w : World) (q : list Suspended) :
  allowed PressContentBoxes ->
  reachableBy allowed (mkConfig w q) ->
  reachableBy allowed (mkConfig (snd (run sdk pressContentBoxes w)) q).
Proof.
  intros A R. apply settle_to_completion.
  eapply reachable_step; [exact R | exact A |].
  apply step_pressContentBoxes, surjective_pairing.
Qed.

Lemma replace_run_reachable (draws : nat -> nat -> nat) (w : World)
    (q : list Suspended) :
  allowed (PressAi draws) ->
  reachableBy allowed (mkConfig w q) ->
  reachableBy allowed
    (mkConfig (snd (run sdk (pressAiReplace draws) w)) q).
Proof.
  intros A R. apply settle_to_completion.
  eapply reachable_step; [exact R | exact A |].
  apply (step_pressAi draws), surjective_pairing.
Qed.

End RunsAreReachable.

(* ================================================================== *)
(** ** Consistency of the local state when no discard is rejected *)

Section SafetyFacts.
Import Viewer.

Lemma wrap_Get (fs : list Frame) :
  forall k, wrap fs (Get k) = Get (fun w => wrap fs (k w)).
Proof.
  induction fs as [|F fs IH]; intros k; [reflexivity|].
  destruct F; simpl; apply IH.
Qed.

Lemma wrap_Put (fs : list Frame) :
  forall g k, wrap fs (Put g k) = Put g (wrap fs k).
Proof.
  induction fs as [|F fs IH]; intros g k; [reflexivity|].
  destruct F; simpl; apply IH.
Qed.

Lemma wrap_Await (fs : list Frame) :
  forall c k, wrap fs (Await c k) = Await c (fun r => wrap fs (k r)).
Proof.
  induction fs as [|F fs IH]; intros c k; [reflexivity|].
  destruct F; simpl; apply IH.
Qed.

(** A synchronous prefix can be run ahead. *)
Lemma safe_after_sync {A : Type} (sdk : Sdk) (p : Prog A) :
  sync p ->
  forall fs (f : A -> Prog unit) w,
    (forall a w', run sdk p w = (Normal a, w') -> safe (wrap fs (f a)) w') ->
    safe (wrap fs (bind p f)) w.
Proof.
  induction p as [a|e|k IH|g k IH|c k IH]; intros Hs fs f w H; simpl in *.
  - apply H. reflexivity.
  - contradiction.
  - rewrite wrap_Get. simpl. apply IH; auto.
  - rewrite wrap_Put. simpl. apply IH; auto.
  - contradiction.
Qed.

Lemma sync_bind {A B : Type} (p : Prog A) (f : A -> Prog B) :
  sync p -> (forall a, sync (f a)) -> sync (bind p f).
Proof.
  intros Hp Hf. induction p as [a|e|k IH|g k IH|c k IH]; simpl in *; auto.
Qed.

Lemma sync_forEach_remove (ids : list string) :
  sync (forEach ids removeCustomOverlayItem).
Proof.
  induction ids as [|i rest IH]; simpl; [exact I | exact IH].
Qed.

Lemma sync_createOverlays (blocks : list PagedTextBlock) :
  forall acc, sync (createOverlays blocks acc).
Proof.
  induction blocks as [|tb rest IH]; intros acc; simpl; [exact I | apply IH].
Qed.

Lemma sync_mapSelected (draws : nat -> nat -> nat)
    (blocks : list PagedTextBlock) :
  forall i, sync (mapSelected draws i blocks).
Proof.
  induction blocks as [|tb rest IH]; intros i; [exact I|].
  cbn [mapSelected]. apply sync_bind; [simpl; exact I|].
  intros u. apply sync_bind; [apply IH | intros; exact I].
Qed.

(** The page loop parks in the entering phase only. *)
Lemma safe_forPages (s : Session) (fs : list Frame)
    (f : list PagedTextBlock -> Prog unit) (n : nat) :
  (forall all w', phaseInv Entering w' -> safe (wrap fs (f all)) w') ->
  (forall e w', phaseInv Entering w' -> safe (wrap fs (Throw e)) w') ->
  forall p acc w,
    phaseInv Entering w ->
    safe (wrap fs (bind (forPages s n p acc) f)) w.
Proof.
  intros Hok Herr. induction n as [|n IH]; intros p acc w Hw.
  - simpl. apply Hok, Hw.
  - cbn [forPages await bind]. rewrite wrap_Await. cbn [safe].
    exists Entering. split; [exact Hw|].
    intros [e|blocks] _ w' Hw'; cbn [bind].
    + apply Herr, Hw'.
    + apply IH, Hw'.
Qed.


Lemma Consistent_ext (w w' : World) :
  overlaysRef (view w') = overlaysRef (view w) ->
  textBlocksRef (view w') = textBlocksRef (view w) ->
  selected (view w') = selected (view w) ->
  customOverlayItems (instance w') = customOverlayItems (instance w) ->
  Consistent w -> Consistent w'.
Proof.
  intros Ho Ht Hs Hi [C1 C2 C3 C4].
  constructor; rewrite ?Ho, ?Ht, ?Hs, ?Hi; assumption.
Qed.

Lemma phaseInv_logged (ph : Phase) (evs : list Event) (w : World) :
  phaseInv ph w -> phaseInv ph (logged evs w).
Proof.
  intros (C & B & E & P). split; [|split; [exact B | split; [exact E | exact P]]].
  eapply Consistent_ext; [..|exact C]; reflexivity.
Qed.

Lemma phaseInv_pageChanged (ph : Phase) (p : nat) (w : World) :
  phaseInv ph w -> phaseInv ph (pageChanged p w).
Proof.
  intros (C & B & E & P). split; [|split; [exact B | split; [exact E | exact P]]].
  eapply Consistent_ext; [..|exact C]; reflexivity.
Qed.

Lemma Idle_pageChanged (p : nat) (w : World) :
  Idle w -> Idle (pageChanged p w).
Proof.
  intros (C & B & P). split; [|split; [exact B | exact P]].
  eapply Consistent_ext; [..|exact C]; reflexivity.
Qed.

Lemma selectionUpdate_In (wasBlue : bool) (textBlock tb : PagedTextBlock)
    (prev : list PagedTextBlock) :
  In tb (selectionUpdate wasBlue textBlock prev) ->
  In tb prev \/ tb = textBlock.
Proof.
  unfold selectionUpdate. destruct wasBlue.
  - destruct (existsb _ _); [auto|].
    intros H. apply in_app_or in H as [H|[H|[]]]; auto.
  - intros H. apply filter_In in H as [H _]. auto.
Qed.

Lemma NoDup_map_eq {A B : Type} (f : A -> B) (l : list A) (x y : A) :
  NoDup (map f l) -> In x l -> In y l -> f x = f y -> x = y.
Proof.
  induction l as [|a l IH]; simpl; intros N Hx Hy E; [contradiction|].
  inversion N as [|? ? Na Nl]; subst.
  destruct Hx as [<-|Hx], Hy as [<-|Hy]; auto.
  - exfalso. apply Na. rewrite E. now apply in_map.
  - exfalso. apply Na. rewrite <- E. now apply in_map.
Qed.

Lemma clickItem_id (overlayId : string) (item : CustomOverlayItem) :
  co_id (clickItem overlayId item) = co_id item.
Proof. unfold clickItem. now destruct (hasId overlayId item). Qed.

Lemma Consistent_click (overlayId : string) (w : World) :
  Consistent w -> Consistent (clickOverlay overlayId w).
Proof.
  intros [C1 C2 C3 C4]. unfold clickOverlay, findOverlay.
  destruct (find _ _) as [found|] eqn:F; [|constructor; assumption].
  apply find_some in F as [Fin Fid].
  destruct (click_sets_membership (co_node found) (selected (view w)))
    as [Hown Hother].
  constructor; cbn [view instance updateSelected overlaysRef textBlocksRef
                    selected customOverlayItems].
  - exact C1.
  - intros item' H. apply in_map_iff in H as (item0 & <- & H0).
    destruct (C2 item0 H0) as (R0 & L0 & N0 & A0).
    unfold clickItem. destruct (hasId overlayId item0) eqn:E0.
    + assert (item0 = found).
      { apply (NoDup_map_eq co_id _ _ _ C3 H0 Fin).
        unfold hasId in E0, Fid.
        apply String.eqb_eq in E0, Fid. congruence. }
      subst item0. cbn [co_node co_id].
      destruct (toggledNode_flips (co_node found)) as [Fl Fb].
      rewrite Fb. repeat split; try assumption.
      unfold agrees, regionIdOf. rewrite Fl, Fb.
      unfold regionIdOf in Hown. now rewrite Hown.
    + repeat split; try assumption.
      unfold agrees. rewrite Hother; [exact A0|].
      intros Eq. unfold regionIdOf in Eq.
      destruct (C2 found Fin) as (_ & _ & Nf & _).
      unfold hasId in E0, Fid. apply String.eqb_eq in Fid.
      apply String.eqb_neq in E0. apply E0.
      rewrite N0, <- Fid, Nf. unfold overlayIdOf. now rewrite Eq.
  - rewrite map_map. erewrite map_ext; [exact C3|].
    intros item. apply clickItem_id.
  - intros tb H. unfold clickListener in H. cbn [snd] in H.
    apply selectionUpdate_In in H as [H | ->]; [auto|].
    apply (C2 found Fin).
Qed.

Lemma clickOverlay_view (overlayId : string) (w : World) :
  isEditing (view (clickOverlay overlayId w)) = isEditing (view w)
  /\ textBlocksRef (view (clickOverlay overlayId w)) = textBlocksRef (view w).
Proof.
  unfold clickOverlay. destruct (findOverlay overlayId w); split; reflexivity.
Qed.

Lemma phaseInv_click (ph : Phase) (overlayId : string) (w : World) :
  phaseInv ph w -> phaseInv ph (clickOverlay overlayId w).
Proof.
  intros (C & B & Ed & P). destruct (clickOverlay_view overlayId w) as [E T].
  split; [|split; [|split]].
  - apply Consistent_click, C.
  - now rewrite clickOverlay_flag.
  - now rewrite E.
  - destruct ph; [now rewrite T | exact I].
Qed.

Lemma Idle_click (overlayId : string) (w : World) :
  Idle w -> Idle (clickOverlay overlayId w).
Proof.
  intros (C & B & P). destruct (clickOverlay_view overlayId w) as [E T].
  split; [|split].
  - apply Consistent_click, C.
  - now rewrite clickOverlay_flag.
  - rewrite E, T. exact P.
Qed.

(** Removing the listed overlays leaves the instance without items of
    this component. *)
Lemma removedAll_items (ids : list string) :
  forall w item,
    In item (customOverlayItems (instance (removedAll ids w))) ->
    In item (customOverlayItems (instance w)) /\ ~ In (co_id item) ids.
Proof.
  induction ids as [|i rest IH]; intros w item H; simpl in *; [auto|].
  apply IH in H as [H N]. cbn [instance customOverlayItems record] in H.
  unfold withoutOverlay in H. apply filter_In in H as [H E].
  split; [exact H|]. intros [E'|R]; [|auto].
  subst i. unfold hasId in E. now rewrite String.eqb_refl in E.
Qed.

Lemma overlayItemsWith_In (blocks : list PagedTextBlock) :
  forall items item,
    In item (overlayItemsWith blocks items) ->
    In item items \/ exists tb, In tb blocks /\ item = overlayItemOf tb.
Proof.
  induction blocks as [|tb rest IH]; intros items item H; simpl in *; [auto|].
  apply IH in H as [H | (tb' & Hin & ->)].
  - apply in_app_or in H as [H | [<- | []]].
    + unfold withoutOverlay in H. apply filter_In in H as [H _]. auto.
    + right. exists tb. auto.
  - right. exists tb'. auto.
Qed.


(** Worlds the handlers end in. *)
Lemma Idle_of_entering (w w' : World) :
  phaseInv Entering w ->
  overlaysRef (view w') = overlaysRef (view w) ->
  textBlocksRef (view w') = textBlocksRef (view w) ->
  selected (view w') = selected (view w) ->
  customOverlayItems (instance w') = customOverlayItems (instance w) ->
  isProcessing (view w') = false ->
  Idle w'.
Proof.
  intros (C & _ & _ & P) Ho Ht Hs Hi Hp. split; [|split].
  - eapply Consistent_ext; [..|exact C]; assumption.
  - exact Hp.
  - intros _. now rewrite Ht.
Qed.

Lemma Idle_of_editing (ph : Phase) (w w' : World) :
  phaseInv ph w ->
  overlaysRef (view w') = overlaysRef (view w) ->
  textBlocksRef (view w') = textBlocksRef (view w) ->
  selected (view w') = selected (view w) ->
  customOverlayItems (instance w') = customOverlayItems (instance w) ->
  isEditing (view w') = true ->
  isProcessing (view w') = false ->
  Idle w'.
Proof.
  intros (C & _ & _ & _) Ho Ht Hs Hi He Hp. split; [|split].
  - eapply Consistent_ext; [..|exact C]; assumption.
  - exact Hp.
  - rewrite He. discriminate.
Qed.

Lemma Idle_cleared (w w' : World) :
  Consistent w ->
  overlaysRef (view w') = [] ->
  textBlocksRef (view w') = [] ->
  selected (view w') = [] ->
  customOverlayItems (instance w')
  = customOverlayItems (instance (removedAll (overlaysRef (view w)) w)) ->
  isProcessing (view w') = false ->
  Idle w'.
Proof.
  intros [C1 C2 C3 C4] Ho Ht Hs Hi Hp. split; [|split; [exact Hp | auto]].
  assert (E : customOverlayItems (instance w') = []).
  { rewrite Hi.
    destruct (customOverlayItems (instance (removedAll _ w)))
      as [|item rest] eqn:Ei; [reflexivity|].
    destruct (removedAll_items (overlaysRef (view w)) w item) as [H N].
    { rewrite Ei. now left. }
    destruct (C2 item H) as (_ & L & _). contradiction. }
  constructor; rewrite ?Ho, ?Ht, ?Hs, ?E.
  - reflexivity.
  - intros item [].
  - constructor.
  - intros tb [].
Qed.

Lemma withoutOverlay_ids (overlayId : string)
    (items : list CustomOverlayItem) :
  NoDup (map co_id items) ->
  NoDup (map co_id (withoutOverlay overlayId items))
  /\ ~ In overlayId (map co_id (withoutOverlay overlayId items)).
Proof.
  intros N. split.
  - induction items as [|item rest IH]; simpl; [constructor|].
    inversion N as [|? ? Na Nr]; subst.
    destruct (negb (hasId overlayId item)); simpl; [|auto].
    constructor; [|auto]. intros H. apply Na.
    apply in_map_iff in H as (x & Ex & Hx). unfold withoutOverlay in Hx.
    apply filter_In in Hx as [Hx _]. rewrite <- Ex. now apply in_map.
  - intros H. apply in_map_iff in H as (x & Ex & Hx).
    unfold withoutOverlay in Hx. apply filter_In in Hx as [_ Hx].
    unfold hasId in Hx. rewrite Ex, String.eqb_refl in Hx. discriminate.
Qed.

Lemma overlayItemsWith_distinct (blocks : list PagedTextBlock) :
  forall items,
    NoDup (map co_id items) ->
    NoDup (map co_id (overlayItemsWith blocks items)).
Proof.
  induction blocks as [|tb rest IH]; intros items N; simpl; [exact N|].
  apply IH. rewrite map_app. simpl.
  destruct (withoutOverlay_ids (overlayIdOf tb) items N) as [N1 N2].
  apply NoDup_app; [exact N1 | repeat constructor; intros [] |].
  intros x Hx [<-|[]]. contradiction.
Qed.

Lemma editing_after_creation (w w' : World) (all : list PagedTextBlock) :
  phaseInv Entering w ->
  overlaysRef (view w') = map overlayIdOf all ->
  textBlocksRef (view w') = all ->
  selected (view w') = selected (view w) ->
  customOverlayItems (instance w')
  = overlayItemsWith all (customOverlayItems (instance w)) ->
  isEditing (view w') = true ->
  isProcessing (view w') = true ->
  phaseInv Editing w'.
Proof.
  intros ([C1 C2 C3 C4] & _ & _ & P) Ho Ht Hs Hi He Hp.
  split; [|split; [exact Hp | split; [exact He | exact I]]].
  rewrite P in C2, C4.
  assert (S : selected (view w) = []).
  { destruct (selected (view w)) as [|tb rest]; [reflexivity|].
    destruct (C4 tb (or_introl eq_refl)). }
  constructor; rewrite ?Ho, ?Ht, ?Hs, ?Hi.
  - reflexivity.
  - intros item H. apply overlayItemsWith_In in H as [H | (tb & Hin & ->)].
    + destruct (C2 item H) as [[] _].
    + rewrite S. repeat split; [exact Hin|].
      apply (in_map overlayIdOf), Hin.
  - apply overlayItemsWith_distinct, C3.
  - intros tb H. rewrite S in H. destruct H.
Qed.



Ltac step_safe :=
  cbn [bind console_log console_error setIsProcessing setIsEditing
       setSelected assignOverlaysRef assignTextBlocksRef modify read await
       safe tryCatch tryFinally].

Lemma removedAll_instance_ext (ids : list string) :
  forall w1 w2, instance w1 = instance w2 ->
                instance (removedAll ids w1) = instance (removedAll ids w2).
Proof.
  induction ids as [|i rest IH]; intros w1 w2 H; simpl; [exact H|].
  apply IH. simpl. now rewrite H.
Qed.

Lemma discard_accepted (s : Session) (r : JsError + answer (discard s)) :
  discardAccepted (Settle (discard s) r) -> r = inr tt.
Proof. destruct r as [e|[]]; simpl; [contradiction | reflexivity]. Qed.

Lemma safe_toggle (w : World) : Idle w -> safe pressContentBoxes w.
Proof.
  intros (C & B & P). unfold pressContentBoxes, handleContentBoxesPress.
  cbn [safe].
  rewrite B. destruct (isEditing (view w)) eqn:E.
  - (* leaving editing mode *)
    step_safe. unfold clearEditingState. step_safe. tidy.
    apply (safe_after_sync (Scenario.resolving [])
             (forEach (overlaysRef (view w)) removeCustomOverlayItem)
             (sync_forEach_remove _)
             [CatchFrame (fun error =>
                console_error "Error in content editing:" error;;
                setIsEditing false);
              FinallyFrame (setIsProcessing false)]).
    intros [] w' R. rewrite run_removeAll in R. injection R as <-.
    cbn [wrap inFrame]. step_safe.
    eapply Idle_cleared with (w := w); try reflexivity; [exact C|].
    tidy. f_equal. apply removedAll_instance_ext. reflexivity.
  - (* entering editing mode *)
    specialize (P eq_refl).
    assert (Hw : forall evs,
               phaseInv Entering
                 (mkWorld
                    (mkView (overlaysRef (view w)) (textBlocksRef (view w))
                       (currentPageIndex (view w)) true (selected (view w))
                       true)
                    (instance w) evs)).
    { intros evs. split; [|split; [reflexivity | split; [reflexivity | exact P]]].
      eapply Consistent_ext; [..|exact C]; reflexivity. }
    unfold startEditing. step_safe. tidy.
    exists Entering. split; [apply Hw|].
    intros [e|s] _ w1 H1; step_safe.
    + eapply Idle_of_entering; [exact H1|..]; reflexivity.
    + apply (safe_forPages s
               [FinallyFrame (await (discard s));
                CatchFrame (fun error =>
                  console_error "Error in content editing:" error;;
                  setIsEditing false);
                FinallyFrame (setIsProcessing false)]).
      * intros all w2 H2. cbn [wrap inFrame]. step_safe.
        apply (safe_after_sync (Scenario.resolving [])
                 (createOverlays all []) (sync_createOverlays _ _)
                 [FinallyFrame (await (discard s));
                  CatchFrame (fun error =>
                    console_error "Error in content editing:" error;;
                    setIsEditing false);
                  FinallyFrame (setIsProcessing false)]).
        intros newOverlays w3 R. rewrite run_createOverlays in R.
        injection R as <- <-. cbn [wrap inFrame]. step_safe.
        exists Editing. split.
        { pose proof H2 as (_ & B2 & E2 & _).
          eapply editing_after_creation with (w := w2) (all := all);
            [ exact H2 | .. ]; tidy;
            rewrite ?withOverlays_view, ?withOverlays_instance; tidy;
            try reflexivity; assumption. }
        intros r A w4 H4. rewrite (discard_accepted s r A). step_safe.
        eapply Idle_of_editing; [exact H4|..]; try reflexivity.
        destruct H4 as (_ & _ & E4 & _). exact E4.
      * intros e w2 H2. cbn [wrap inFrame]. step_safe.
        exists Entering. split; [exact H2|].
        intros r A w3 H3. rewrite (discard_accepted s r A). step_safe.
        eapply Idle_of_entering; [exact H3|..]; reflexivity.
      * exact H1.
Qed.

Lemma safe_replace (draws : nat -> nat -> nat) (w : World) :
  Idle w -> safe (pressAiReplace draws) w.
Proof.
  intros (C & B & P). unfold pressAiReplace, aiToolbar_onPress. cbn [safe].
  assert (Hlog : forall evs, Idle (logged evs w)).
  { intros evs. split; [|split; [exact B | exact P]].
    eapply Consistent_ext; [..|exact C]; reflexivity. }
  destruct (negb (isEditing (view w)) || _) eqn:G.
  { step_safe. apply (Hlog [_]). }
  rewrite B. apply orb_false_elim in G as [G _].
  apply negb_false_iff in G.
  assert (Hw : forall evs,
             phaseInv Editing
               (mkWorld
                  (mkView (overlaysRef (view w)) (textBlocksRef (view w))
                     (currentPageIndex (view w)) (isEditing (view w))
                     (selected (view w)) true)
                  (instance w) evs)).
  { intros evs. split; [|split; [reflexivity | split; [exact G | exact I]]].
    eapply Consistent_ext; [..|exact C]; reflexivity. }
  step_safe. tidy.
  exists Editing. split; [apply Hw|].
  intros [e|session] _ w1 H1; step_safe.
  { eapply Idle_of_editing; [exact H1|..]; try reflexivity. apply H1. }
  set (inner := fun updateError : JsError =>
         (console_error "Error during AI text update:" updateError;;
          await (discard session);; Throw updateError) : Prog unit).
  set (outer := fun error : JsError =>
         console_error "Error in AI Replace operation:" error).
  assert (Hfail : forall e w2, phaseInv Editing w2 ->
            safe (wrap [CatchFrame inner; CatchFrame outer;
                        FinallyFrame (setIsProcessing false)] (Throw e)) w2).
  { intros e w2 H2. cbn [wrap inFrame]. unfold inner, outer. step_safe.
    exists Editing. split; [apply (phaseInv_logged Editing [_]), H2|].
    intros r A w3 H3. rewrite (discard_accepted session r A). step_safe.
    eapply Idle_of_editing; [exact H3|..]; try reflexivity. apply H3. }
  apply (safe_after_sync (Scenario.resolving [])
           (mapSelected draws 0 (selected (view w))) (sync_mapSelected _ _ _)
           [CatchFrame inner; CatchFrame outer;
            FinallyFrame (setIsProcessing false)]).
  intros updates w2 R. rewrite run_mapSelected in R. injection R as _ <-.
  cbn [wrap inFrame]. unfold inner at 1, outer at 1. step_safe.
  exists Editing. split.
  { apply (phaseInv_logged Editing [_]), phaseInv_logged, H1. }
  intros [e|[]] _ w3 H3; step_safe.
  { apply (Hfail e w3 H3). }
  exists Editing. split; [exact H3|].
  intros [e|[]] _ w4 H4; step_safe.
  { apply (Hfail e w4 H4). }
  unfold clearEditingState. step_safe. tidy.
  apply (safe_after_sync (Scenario.resolving [])
           (forEach (overlaysRef (view w4)) removeCustomOverlayItem)
           (sync_forEach_remove _)
           [CatchFrame inner; CatchFrame outer;
            FinallyFrame (setIsProcessing false)]).
  intros [] w' R. rewrite run_removeAll in R. injection R as <-.
  cbn [wrap inFrame]. step_safe.
  eapply Idle_cleared with (w := w4); try reflexivity; [apply H4|].
  tidy. f_equal. apply removedAll_instance_ext. reflexivity.
Qed.

(** What [advance] leaves behind is safe. *)
Lemma advance_safe (p : Prog unit) :
  forall w w' q,
    safe p w -> advance p w = (w', q) ->
    configSafe (mkConfig w' q).
Proof.
  induction p as [a|e|k IH|g k IH|c k IH]; intros w w' q Hs Ha;
    simpl in *.
  - injection Ha as <- <-. exact Hs.
  - injection Ha as <- <-. exact Hs.
  - eapply IH; eassumption.
  - eapply IH; eassumption.
  - injection Ha as <- <-. destruct Hs as (ph & Hw & Hk).
    exists ph. split; [apply (phaseInv_logged ph [_]), Hw | exact Hk].
Qed.

Lemma reachable_configSafe (cfg : Config) :
  reachableBy discardAccepted cfg -> configSafe cfg.
Proof.
  induction 1 as [pages | l cfg cfg' _ IH A Hstep].
  - split; [|split; [reflexivity | reflexivity]].
    constructor; simpl; [reflexivity | intros item [] | constructor | intros tb []].
  - destruct Hstep as [w q w' s Ha | draws w q w' s Ha
                      | overlayId item w q Hf | pageIndex w q
                      | c k r w q1 q2 w' s Ha];
      unfold configSafe in *; cbn [world inflight] in *.
    + destruct q as [|parked [|? ?]]; [| |contradiction].
      * apply (advance_safe _ _ _ _ (safe_toggle w IH) Ha).
      * destruct parked as [c k]. destruct IH as (ph & Hw & Hk).
        rewrite toggle_dropped_when_busy in Ha by apply Hw.
        injection Ha as <- <-. cbn [app].
        exists ph. split; [apply phaseInv_logged, Hw | exact Hk].
    + destruct q as [|parked [|? ?]]; [| |contradiction].
      * apply (advance_safe _ _ _ _ (safe_replace draws w IH) Ha).
      * destruct parked as [c k]. destruct IH as (ph & Hw & Hk).
        destruct (replace_dropped_when_busy draws w) as [line Hd];
          [apply Hw|].
        rewrite Hd in Ha. injection Ha as <- <-. cbn [app].
        exists ph. split; [apply phaseInv_logged, Hw | exact Hk].
    + destruct q as [|parked [|? ?]]; [| |contradiction].
      * apply Idle_click, IH.
      * destruct parked as [c k]. destruct IH as (ph & Hw & Hk).
        exists ph. split; [apply phaseInv_click, Hw | exact Hk].
    + destruct q as [|parked [|? ?]]; [| |contradiction].
      * apply Idle_pageChanged, IH.
      * destruct parked as [c k]. destruct IH as (ph & Hw & Hk).
        exists ph. split; [apply phaseInv_pageChanged, Hw | exact Hk].
    + destruct q1 as [|p1 q1]; cbn [app] in *.
      * destruct q2 as [|p2 q2]; [|contradiction].
        destruct IH as (ph & Hw & Hk). rewrite app_nil_r.
        apply (advance_safe _ _ _ _ (Hk r A w Hw) Ha).
      * destruct q1 as [|? ?]; cbn [app] in IH; [contradiction|].
        destruct q1; contradiction.
Qed.

End SafetyFacts.

Lemma reachable_consistent (cfg : Viewer.Config) :
  Viewer.reachableBy Viewer.discardAccepted cfg ->
  Viewer.Consistent (Viewer.world cfg).
Proof.
  intros R. apply reachable_configSafe in R.
  unfold Viewer.configSafe in R.
  destruct (Viewer.inflight cfg) as [|[c k] [|? ?]]; [| |contradiction].
  - apply R.
  - destruct R as (ph & Hw & _). apply Hw.
Qed.

(** Along every execution of the event loop in which no [discard] is
    rejected, the selection holds stored regions only and, in editing
    mode, there are as many overlays as stored regions. *)
Lemma invariants_while_discard_accepted (cfg : Viewer.Config) :
  Viewer.reachableBy Viewer.discardAccepted cfg ->
  Viewer.selectionStored (Viewer.view (Viewer.world cfg)) = true
  /\ Viewer.overlaysMatchRegions (Viewer.view (Viewer.world cfg)) = true.
Proof.
  intros R. destruct (reachable_consistent cfg R) as [C1 C2 C3 C4]. split.
  - unfold Viewer.selectionStored. apply forallb_forall. intros tb H.
    unfold Viewer.isSelected. apply existsb_exists.
    exists tb. split; [apply C4, H | apply String.eqb_refl].
  - unfold Viewer.overlaysMatchRegions. rewrite C1, length_map, Nat.eqb_refl.
    now destruct (Viewer.isEditing _).
Qed.

(** Along the same executions every overlay the instance shows is blue
    exactly if its region is not selected. *)
Lemma overlays_agree_while_discard_accepted (cfg : Viewer.Config)
    (item : Viewer.CustomOverlayItem) :
  Viewer.reachableBy Viewer.discardAccepted cfg ->
  In item (Viewer.customOverlayItems (Viewer.instance (Viewer.world cfg))) ->
  Viewer.agrees (Viewer.co_node item)
                (Viewer.selected (Viewer.view (Viewer.world cfg))).
Proof.
  intros R H. destruct (reachable_consistent cfg R) as [_ C2 _ _].
  apply (C2 item H).
Qed.

(** C9, evaluated on a run in which [discard] is rejected.  The toggle
    is pressed on a one-page document with region r1; the page is read
    and the overlay set, then [discard] is rejected, and the handler's
    [catch] turns editing mode off while the overlay and the stored
    region stay.  A click on the overlay selects r1.  The toggle is
    pressed again; the page now reads r2.  The configuration reached is
    in editing mode with r2 stored and r1 selected: the selection
    refers to an identifier that is not among the stored regions. *)
Theorem stale_overlay_breaks_selection_invariant :
  Viewer.reachable (Viewer.mkConfig Scenario.afterSecondActivation [])
  /\ Viewer.isEditing (Viewer.view Scenario.afterFailedDiscard) = false
  /\ Viewer.overlaysRef (Viewer.view Scenario.afterFailedDiscard)
     = ["overlay-r1"]
  /\ Viewer.isEditing (Viewer.view Scenario.afterSecondActivation) = true
  /\ map (fun tb => Viewer.tb_id (Viewer.block tb))
         (Viewer.selected (Viewer.view Scenario.afterSecondActivation))
     = ["r1"]
  /\ map (fun tb => Viewer.tb_id (Viewer.block tb))
         (Viewer.textBlocksRef (Viewer.view Scenario.afterSecondActivation))
     = ["r2"]
  /\ Viewer.selectionStored (Viewer.view Scenario.afterSecondActivation)
     = false
  /\ Viewer.overlaysMatchRegions (Viewer.view Scenario.afterSecondActivation)
     = true.
Proof.
  split; [|repeat split].
  apply toggle_run_reachable; [intros c; exact I | exact I |].
  apply (Viewer.reachable_step _ (Viewer.ClickOverlay "overlay-r1")
           (Viewer.mkConfig Scenario.afterFailedDiscard [])).
  - apply toggle_run_reachable;
      [intros c; exact I | exact I | apply Viewer.reachable_initial].
  - exact I.
  - eapply Viewer.step_click. reflexivity.
Qed.

(* ================================================================== *)
(** ** The shape of a replacement text *)

Section GeneratorShape.

Import Generator.

Variable choices : nat -> nat.

(** Under the guard the next word always fits: the loop is never left
    through its [break]. *)
Lemma loopBody_continues (L : Z) (st : LoopState) :
  loopGuard L st = true ->
  loopBody choices L st
  = Continue (mkLoop (testResult choices st) (S (attempts st))).
Proof.
  intros G. apply loopGuard_true in G as [G _].
  unfold loopBody. pose proof (testResult_len choices st) as T.
  destruct (Js.len (testResult choices st) <=? L)%Z eqn:E; [reflexivity|].
  apply Z.leb_gt in E. lia.
Qed.

Lemma wordLoop_guard_false (L : Z) (n : nat) :
  forall st, maxAttempts <= attempts st + n ->
             loopGuard L (wordLoop choices n L st) = false.
Proof.
  induction n as [|n IH]; intros st H; simpl.
  - unfold loopGuard. replace (attempts st <? maxAttempts)%nat with false;
      [apply andb_false_r|].
    symmetry. apply Nat.ltb_ge. lia.
  - destruct (loopGuard L st) eqn:G; [|exact G].
    rewrite (loopBody_continues L st G). apply IH. simpl. lia.
Qed.

Lemma truthy_len (s : string) : Js.truthy s = true <-> (0 < Js.len s)%Z.
Proof.
  destruct s; unfold Js.len; simpl; split; intros; try lia; auto;
    discriminate.
Qed.

Lemma truthy_false_len (s : string) : Js.truthy s = false <-> Js.len s = 0%Z.
Proof.
  destruct s; unfold Js.len; simpl; split; intros; try lia; auto;
    discriminate.
Qed.

Lemma append_assoc (a b c : string) : (a ++ b) ++ c = a ++ b ++ c.
Proof. induction a as [|x a IH]; simpl; [reflexivity | now rewrite IH]. Qed.

Lemma concat_snoc (sep : string) (l : list string) (w : string) :
  l <> [] ->
  String.concat sep (l ++ [w]) = String.concat sep l ++ sep ++ w.
Proof.
  induction l as [|a l IH]; [congruence|]. intros _.
  destruct l as [|b l]; [reflexivity|].
  change (String.concat sep ((a :: b :: l) ++ [w]))
    with (a ++ sep ++ String.concat sep ((b :: l) ++ [w])).
  rewrite IH by discriminate.
  change (String.concat sep (a :: b :: l))
    with (a ++ sep ++ String.concat sep (b :: l)).
  now rewrite !append_assoc.
Qed.

Lemma drawnWords_S (n : nat) :
  drawnWords choices (S n)
  = (drawnWords choices n ++ [randomWord (choices n)])%list.
Proof. unfold drawnWords. now rewrite seq_S, map_app. Qed.

Lemma loopInv_step (st : LoopState) :
  loopInv choices st -> attempts st < maxAttempts ->
  loopInv choices (mkLoop (testResult choices st) (S (attempts st))).
Proof.
  intros (Ha & Hr & Hlo & Hhi) Hlt.
  pose proof (randomWord_len (choices (attempts st))) as Hw.
  pose proof (len_nonneg (result st)) as Hn.
  unfold loopInv. cbn [attempts result].
  assert (Hlen : Js.len (testResult choices st)
                 = (Js.len (result st)
                    + (if Js.truthy (result st) then 1 else 0)
                    + Js.len (randomWord (choices (attempts st))))%Z).
  { unfold testResult. rewrite !len_append.
    destruct (Js.truthy (result st)); change (Js.len " ") with 1%Z;
      change (Js.len "") with 0%Z; lia. }
  split; [lia|]. split; [|split].
  - rewrite drawnWords_S. unfold testResult.
    destruct (Js.truthy (result st)) eqn:T.
    + rewrite concat_snoc, <- Hr; [reflexivity|].
      intros E. rewrite E in Hr. simpl in Hr. rewrite Hr in T. discriminate.
    + apply truthy_false_len in T.
      assert (attempts st = 0%nat) as E0 by lia.
      rewrite E0. rewrite E0 in Hr. cbn in Hr. rewrite Hr. reflexivity.
  - rewrite Hlen. destruct (Js.truthy (result st)) eqn:T.
    + lia.
    + apply truthy_false_len in T. lia.
  - assert (Js.truthy (testResult choices st) = true) as ->
      by (apply truthy_len; destruct (Js.truthy (result st)); lia).
    lia.
Qed.

Lemma wordLoop_inv (L : Z) (n : nat) :
  forall st, loopInv choices st -> loopInv choices (wordLoop choices n L st).
Proof.
  induction n as [|n IH]; intros st H; simpl; [exact H|].
  destruct (loopGuard L st) eqn:G; [|exact H].
  rewrite (loopBody_continues L st G). apply IH.
  apply loopInv_step; [exact H|]. now apply loopGuard_true in G.
Qed.

Lemma loopInv_start : loopInv choices (mkLoop "" 0).
Proof.
  unfold loopInv, maxAttempts. cbn [attempts result].
  repeat split; try reflexivity; try lia. vm_compute. discriminate.
Qed.


Lemma loop_result_inv (s : string) :
  loopInv choices (wordLoop choices maxAttempts (Js.len s) (mkLoop "" 0))
  /\ loopGuard (Js.len s)
       (wordLoop choices maxAttempts (Js.len s) (mkLoop "" 0))
     = false.
Proof.
  split; [apply wordLoop_inv, loopInv_start|].
  apply wordLoop_guard_false. simpl. lia.
Qed.

(** Between 11 and 309 characters the loop stops by its length test. *)
Lemma loop_result_near (s : string) :
  (11 <= Js.len s <= 309)%Z ->
  let st := wordLoop choices maxAttempts (Js.len s) (mkLoop "" 0) in
  (Js.len s - 10 <= Js.len (result st) <= Js.len s)%Z
  /\ generateRandomText choices s = result st.
Proof.
  intros H st. destruct (loop_result_inv s) as [(Ha & Hr & Hlo & Hhi) G].
  fold st in Ha, Hr, Hlo, Hhi, G.
  pose proof (loop_result_fits choices s) as F. fold st in F.
  assert (Hl : (Js.len s - 10 <= Js.len (result st))%Z).
  { unfold loopGuard in G. apply andb_false_iff in G as [G|G].
    - apply Z.ltb_ge in G. lia.
    - apply Nat.ltb_ge in G. unfold maxAttempts in *. lia. }
  split; [lia|].
  unfold generateRandomText. fold st. unfold finish, padded.
  destruct (Js.len (result st) <? Js.len s - 20)%Z eqn:E;
    [apply Z.ltb_lt in E; lia|].
  rewrite truncated_idle by exact F.
  unfold Js.or_else.
  assert (Js.truthy (result st) = true) as -> by (apply truthy_len; lia).
  reflexivity.
Qed.

Lemma substring_from_0_short (s : string) (n : Z) :
  (Js.len (Js.substring s 0 n) <= Js.len s)%Z.
Proof.
  unfold Js.substring, Js.clamp.
  pose proof (len_nonneg s) as Hs.
  replace (Z.max 0 (Z.min 0 (Js.len s))) with 0%Z by lia.
  set (b := Z.max 0 (Z.min n (Js.len s))).
  replace (Z.min 0 b) with 0%Z by lia.
  replace (Z.max 0 b - 0)%Z with b by lia.
  simpl Z.to_nat.
  pose proof (prefix_length (Z.to_nat b) s) as Hp.
  unfold Js.len in *. lia.
Qed.

Lemma generateRandomText_capped (s : string) :
  (Js.len (generateRandomText choices s)
   <= 7 * Z.of_nat maxAttempts + Js.len lorem)%Z.
Proof.
  destruct (loop_result_inv s) as [(Ha & _ & _ & Hhi) _].
  unfold generateRandomText.
  set (st := wordLoop choices maxAttempts (Js.len s) (mkLoop "" 0)) in *.
  pose proof (loop_result_fits choices s) as F. fold st in F.
  pose proof (padded_fits (Js.len s) _ F) as Hp.
  unfold finish. rewrite truncated_idle by exact Hp.
  unfold Js.or_else.
  destruct (Js.truthy (padded (Js.len s) (result st))) eqn:T;
    [|vm_compute; discriminate].
  unfold padded.
  pose proof (len_nonneg (result st)) as Hn.
  pose proof (len_nonneg lorem) as Hl.
  assert (Hcap : (7 * Z.of_nat (attempts st) <= 7 * Z.of_nat maxAttempts)%Z)
    by lia.
  destruct (Js.len (result st) <? Js.len s - 20)%Z;
    [|destruct (Js.truthy (result st)); lia].
  destruct (Js.len s - Js.len (result st) - 1 >? 0)%Z;
    [|destruct (Js.truthy (result st)); lia].
  rewrite !len_append.
  pose proof (substring_from_0_short lorem (Js.len s - Js.len (result st) - 1)).
  destruct (Js.truthy (result st)); change (Js.len " ") with 1%Z;
    change (Js.len "") with 0%Z; lia.
Qed.

End GeneratorShape.

Section ReplacementText.

Import Generator.

(** X1: for an original of seven characters or more, the replacement
    text is never longer than the original, whatever words are drawn. *)
Theorem replacement_fits_from_seven_characters :
  forall (choices : nat -> nat) (originalText : string),
    (7 <= Js.len originalText)%Z ->
    (Js.len (generateRandomText choices originalText)
     <= Js.len originalText)%Z.
Proof. intros choices originalText H. now apply generateRandomText_fits. Qed.

(** An instance of X1: a seven-character original. *)
Lemma replacement_fits_from_seven_characters_witness :
  (Js.len (generateRandomText (fun k => k) "Invoice") <= Js.len "Invoice")%Z.
Proof.
  apply (replacement_fits_from_seven_characters (fun k => k) "Invoice").
  vm_compute. discriminate.
Defined.

(** X2: the replacement text is never the empty string, for any
    original (the empty one included) and any draws. *)
Theorem replacement_never_empty :
  forall (choices : nat -> nat) (originalText : string),
    generateRandomText choices originalText <> ""
    /\ (0 < Js.len (generateRandomText choices originalText))%Z.
Proof.
  intros choices originalText.
  pose proof (generateRandomText_nonempty choices originalText) as T.
  split; [|now apply truthy_len].
  intros E. rewrite E in T. discriminate.
Qed.

(** X3: an original of at most ten characters never enters the word
    loop and is not padded; its replacement is the placeholder
    ["AI text"], whatever would have been drawn. *)
Theorem short_original_gets_placeholder :
  forall (choices : nat -> nat) (originalText : string),
    (Js.len originalText <= 10)%Z ->
    wordLoop choices maxAttempts (Js.len originalText) (mkLoop "" 0)
    = mkLoop "" 0
    /\ generateRandomText choices originalText = "AI text".
Proof.
  intros choices originalText H. split.
  - now apply wordLoop_short.
  - now apply generateRandomText_placeholder.
Qed.

(** An instance of X3: a nine-character original. *)
Lemma short_original_gets_placeholder_witness :
  generateRandomText (fun k => k) "Subtotal:" = "AI text".
Proof.
  apply (short_original_gets_placeholder (fun k => k) "Subtotal:").
  vm_compute. discriminate.
Defined.

(** X4: the [break] of the word loop is never taken.  Whenever the
    guard holds, the result is more than ten characters short of the
    original and a word adds at most seven, so the test
    [testResult.length <= originalLength] succeeds and the iteration
    appends the word and counts the attempt. *)
Theorem word_loop_never_breaks :
  forall (choices : nat -> nat) (originalLength : Z) (st : LoopState),
    loopGuard originalLength st = true ->
    (Js.len (testResult choices st) <= originalLength)%Z
    /\ loopBody choices originalLength st
       = Continue (mkLoop (testResult choices st) (S (attempts st))).
Proof.
  intros choices originalLength st G. split.
  - apply loopGuard_true in G as [G _].
    pose proof (testResult_len choices st). lia.
  - now apply loopBody_continues.
Qed.

(** An instance of X4: the first iteration for a twelve-character
    original. *)
Lemma word_loop_never_breaks_witness :
  loopBody (fun k => k) 12 (mkLoop "" 0) = Continue (mkLoop "AI" 1).
Proof.
  apply (word_loop_never_breaks (fun k => k) 12 (mkLoop "" 0)).
  reflexivity.
Defined.

(** X5: the final truncation is never applied.  After the loop and the
    padding the text is at most as long as the original, so the branch
    [result.substring(0, originalLength).trim()] is not entered and
    what the function returns is the padded loop result or, when that
    is empty, the placeholder. *)
Theorem truncation_never_applies :
  forall (choices : nat -> nat) (originalText : string),
    let originalLength := Js.len originalText in
    let looped :=
      result (wordLoop choices maxAttempts originalLength (mkLoop "" 0)) in
    (Js.len (padded originalLength looped) <= originalLength)%Z
    /\ truncated originalLength (padded originalLength looped)
       = padded originalLength looped
    /\ generateRandomText choices originalText
       = Js.or_else (padded originalLength looped) "AI text".
Proof.
  intros choices originalText originalLength looped.
  pose proof (padded_fits originalLength _
                (loop_result_fits choices originalText)) as Hp.
  fold originalLength looped in Hp.
  split; [exact Hp|]. split; [now apply truncated_idle|].
  unfold generateRandomText, finish. fold originalLength looped.
  now rewrite truncated_idle.
Qed.

(** X6: when the word loop is left, its result is exactly the words
    drawn so far, in the order drawn, joined by single spaces: one word
    per counted attempt, no leading or trailing separator; and the loop
    was left because its guard failed. *)
Theorem loop_result_is_the_drawn_words :
  forall (choices : nat -> nat) (originalText : string),
    let st :=
      wordLoop choices maxAttempts (Js.len originalText) (mkLoop "" 0) in
    attempts st <= maxAttempts
    /\ result st = String.concat " " (drawnWords choices (attempts st))
    /\ loopGuard (Js.len originalText) st = false.
Proof.
  intros choices originalText st.
  destruct (loop_result_inv choices originalText) as [(Ha & Hr & _) G].
  auto.
Qed.

(** X7: for an original of 11 to 309 characters the replacement is made
    of drawn words only, at least one and at most [maxAttempts], joined
    by single spaces, without padding or placeholder, and its length
    lies within ten characters below the original's. *)
Theorem replacement_near_original_length :
  forall (choices : nat -> nat) (originalText : string),
    (11 <= Js.len originalText <= 309)%Z ->
    exists n,
      1 <= n <= maxAttempts
      /\ generateRandomText choices originalText
         = String.concat " " (drawnWords choices n)
      /\ (Js.len originalText - 10
          <= Js.len (generateRandomText choices originalText)
          <= Js.len originalText)%Z.
Proof.
  intros choices originalText H.
  destruct (loop_result_inv choices originalText) as [(Ha & Hr & Hlo & _) _].
  destruct (loop_result_near choices originalText H) as [Hl Hg].
  set (st := wordLoop choices maxAttempts (Js.len originalText)
               (mkLoop "" 0)) in *.
  exists (attempts st). rewrite Hg. split; [|split; [exact Hr | exact Hl]].
  split; [|exact Ha].
  destruct (attempts st) as [|n] eqn:E; [|lia].
  rewrite Hr in Hl. cbn in Hl. lia.
Qed.

(** An instance of X7: a 24-character original. *)
Lemma replacement_near_original_length_witness :
  exists n,
    1 <= n <= maxAttempts
    /\ generateRandomText (fun k => k) "Thank you for your order"
       = String.concat " " (drawnWords (fun k => k) n)
    /\ (Js.len "Thank you for your order" - 10
        <= Js.len (generateRandomText (fun k => k) "Thank you for your order")
        <= Js.len "Thank you for your order")%Z.
Proof.
  apply (replacement_near_original_length (fun k => k)
           "Thank you for your order").
  split; vm_compute; discriminate.
Defined.

(** X8: however long the original, the replacement has at most
    [7 * maxAttempts + lorem.length] = 820 characters: the loop gives
    up after [maxAttempts] words of at most six characters, and the
    padding adds at most the filler sentence. *)
Theorem replacement_length_is_capped :
  forall (choices : nat -> nat) (originalText : string),
    (Js.len (generateRandomText choices originalText)
     <= 7 * Z.of_nat maxAttempts + Js.len lorem)%Z
    /\ (7 * Z.of_nat maxAttempts + Js.len lorem = 820)%Z.
Proof.
  intros choices originalText.
  split; [apply generateRandomText_capped | reflexivity].
Qed.

End ReplacementText.

(* ================================================================== *)
(** ** The toolbar handlers, press by press *)

Section HandlerFacts.

Import Viewer.

Variable sdk : Sdk.

(** A synchronous prefix of a handler can be run ahead of [advance]. *)
Lemma advance_after_sync {A : Type} (p : Prog A) :
  sync p ->
  forall fs (f : A -> Prog unit) w a w',
    run sdk p w = (Normal a, w') ->
    advance (wrap fs (bind p f)) w = advance (wrap fs (f a)) w'.
Proof.
  induction p as [a0|e|k IH|g k IH|c k IH]; intros Hs fs f w a w' R;
    simpl in *.
  - injection R as <- <-. reflexivity.
  - contradiction.
  - rewrite wrap_Get. simpl. eapply IH; eauto.
  - rewrite wrap_Put. simpl. eapply IH; eauto.
  - contradiction.
Qed.






Lemma withoutOverlay_absent (overlayId : string)
    (items : list CustomOverlayItem) :
  ~ In overlayId (map co_id items) -> withoutOverlay overlayId items = items.
Proof.
  intros N. unfold withoutOverlay.
  induction items as [|item rest IH]; simpl; [reflexivity|].
  unfold hasId at 1.
  destruct (String.eqb_spec (co_id item) overlayId) as [E|_]; simpl.
  - exfalso. apply N. now left.
  - rewrite IH; [reflexivity|]. intros H. apply N. now right.
Qed.

(** Overlays with pairwise different identifiers, none of them in use,
    are shown side by side in the order they were set. *)
Lemma overlayItemsWith_fresh (all : list PagedTextBlock) :
  forall items,
    NoDup (map overlayIdOf all) ->
    (forall tb, In tb all -> ~ In (overlayIdOf tb) (map co_id items)) ->
    overlayItemsWith all items = (items ++ map overlayItemOf all)%list.
Proof.
  induction all as [|tb rest IH]; intros items N D; simpl.
  - now rewrite app_nil_r.
  - inversion N as [|? ? Nt Nr]; subst.
    rewrite withoutOverlay_absent by (apply D; now left).
    rewrite IH; [now rewrite <- app_assoc | exact Nr |].
    intros tb' H' Hin. rewrite map_app in Hin.
    apply in_app_or in Hin as [Hin | [Hin | []]].
    + apply (D tb'); [now right | exact Hin].
    + apply Nt. cbn [co_id overlayItemOf] in Hin. rewrite Hin.
      now apply in_map.
Qed.

Lemma overlayIds_distinct (all : list PagedTextBlock) :
  NoDup (regionIds all) -> NoDup (map overlayIdOf all).
Proof.
  unfold regionIds. induction all as [|tb rest IH]; simpl; intros N;
    [constructor|].
  inversion N as [|? ? Nt Nr]; subst. constructor; [|auto].
  intros H. apply Nt. apply in_map_iff in H as (tb' & E & Hin).
  apply in_map_iff. exists tb'. split; [|exact Hin].
  unfold overlayIdOf in E. simpl in E. now injection E.
Qed.




Lemma replace_open_rejected (draws : nat -> nat -> nat) (w : World)
    (e : JsError) :
  isEditing (view w) = true -> selected (view w) <> [] ->
  isProcessing (view w) = false ->
  sdk beginContentEditingSession = inl e ->
  run sdk (pressAiReplace draws) w
  = (Normal tt,
     mkWorld (view w) (instance w)
       (journal w
        ++ [ ConsoleLog "AI Replace triggered with selected text blocks:";
             Called beginContentEditingSession;
             ConsoleError "Error in AI Replace operation:" e ])).
Proof.
  intros He Hs Hp Hb. pose proof (guards_pass w He Hs) as G.
  unfold pressAiReplace, aiToolbar_onPress. cbn [run]. rewrite G, Hp.
  run_sync. rewrite run_tryFinally, run_tryCatch.
  run_sync. rewrite Hb. run_sync.
  rewrite (view_idle _ Hp). do 2 f_equal. rewrite <- !app_assoc. reflexivity.
Qed.

(** The handler parked at [beginContentEditingSession] goes on, once the
    session is there, to submit the batch for the selection of the press,
    whatever the world has become. *)
Lemma replace_parks_with_batch (draws : nat -> nat -> nat) (w : World) :
  isEditing (view w) = true -> selected (view w) <> [] ->
  isProcessing (view w) = false ->
  exists k,
    snd (advance (pressAiReplace draws) w)
    = [Waiting beginContentEditingSession k]
    /\ forall session w', exists k',
         snd (advance (k (inr session)) w')
         = [Waiting
              (updateTextBlocks session
                 (updatesFor draws 0 (selected (view w)))) k'].
Proof.
  intros He Hs Hp. pose proof (guards_pass w He Hs) as G.
  unfold pressAiReplace, aiToolbar_onPress. cbn [advance]. rewrite G, Hp.
  cbn [bind console_log setIsProcessing modify advance tryCatch tryFinally
       await snd].
  eexists. split; [reflexivity|]. intros session w'.
  pose proof
    (advance_after_sync (mapSelected draws 0 (selected (view w)))
       (sync_mapSelected _ _ _)
       [CatchFrame (fun updateError : JsError =>
          console_error "Error during AI text update:" updateError;;
          await (discard session);; Throw updateError);
        CatchFrame (fun error : JsError =>
          console_error "Error in AI Replace operation:" error);
        FinallyFrame (setIsProcessing false)]
       (fun updatedTextBlocks =>
          console_log "Updating text blocks:";;
          await (updateTextBlocks session updatedTextBlocks);;
          await (commit session);;
          console_log "AI text replacement completed and committed";;
          clearEditingState)
       w' _ _ (run_mapSelected sdk draws _ 0 w')) as H.
  cbn [bind console_log setIsProcessing modify advance tryCatch tryFinally
       await snd wrap inFrame] in H.
  cbn [bind console_log setIsProcessing modify advance tryCatch tryFinally
       await snd].
  rewrite H. eexists. reflexivity.
Qed.

End HandlerFacts.

Section ToolbarPresses.

Import Viewer.





(** X11: entering editing mode on a document whose pages all resolve
    reads the pages once each, in order, stores the regions in reading
    order, each with the index of its page, and sets one overlay per
    region in the same order.  When the region identifiers are pairwise
    different and the instance showed no overlay before, the instance
    then shows exactly these overlays, each at the left/top corner of
    its region with the region's width and height, in the unselected
    colour. *)
Theorem activation_shows_one_overlay_per_region :
  forall (sdk : Sdk) (w : World) (s : Session) (doc : list (list TextBlock)),
    isEditing (view w) = false ->
    isProcessing (view w) = false ->
    customOverlayItems (instance w) = [] ->
    sdk beginContentEditingSession = inr s ->
    totalPageCount (instance w) = List.length doc ->
    (forall q, q < List.length doc ->
               sdk (getTextBlocks s q) = inr (nth q doc [])) ->
    NoDup (regionIds (pagesFrom 0 doc)) ->
    let w' := snd (run sdk pressContentBoxes w) in
    textBlocksRef (view w') = pagesFrom 0 doc
    /\ overlaysRef (view w') = map overlayIdOf (pagesFrom 0 doc)
    /\ customOverlayItems (instance w') = map overlayItemOf (pagesFrom 0 doc)
    /\ Forall (fun item =>
                 let tb := listener_textBlock (co_node item) in
                 co_id item = "overlay-" ++ tb_id (block tb)
                 /\ co_pageIndex item = pageIndex tb
                 /\ co_position item
                    = mkPoint (bb_left (tb_boundingBox (block tb)))
                              (bb_top (tb_boundingBox (block tb)))
                 /\ style_width (co_node item)
                    = bb_width (tb_boundingBox (block tb))
                 /\ style_height (co_node item)
                    = bb_height (tb_boundingBox (block tb))
                 /\ isCurrentlyBlue (co_node item) = true)
              (customOverlayItems (instance w'))
    /\ filter isCalled (skipn (List.length (journal w)) (journal w'))
       = (Called beginContentEditingSession
          :: map (fun q => Called (getTextBlocks s q))
                 (seq 0 (List.length doc))
          ++ [Called (discard s)])%list.
Proof.
  intros sdk w s doc He Hp Hi Hb Hn Hd Hu w'.
  destruct (readPages_document sdk s doc 0 []) as [Hr Hc].
  { intros q Hq. simpl. apply Hd, Hq. }
  rewrite <- Hn in Hr, Hc. cbn [app] in Hr.
  assert (E : w' = snd (run sdk pressContentBoxes w)) by reflexivity.
  rewrite (press_read_resolved sdk w s _ He Hp Hb Hr) in E.
  cbn [snd] in E. rewrite E.
  cbn [view instance journal textBlocksRef overlaysRef customOverlayItems].
  assert (Items : overlayItemsWith (pagesFrom 0 doc)
                    (customOverlayItems (instance w))
                  = map overlayItemOf (pagesFrom 0 doc)).
  { rewrite Hi. apply (overlayItemsWith_fresh (pagesFrom 0 doc) []).
    - apply overlayIds_distinct, Hu.
    - intros tb _ []. }
  rewrite Items.
  split; [reflexivity|]. split; [reflexivity|]. split; [reflexivity|]. split.
  - apply Forall_forall. intros item H.
    apply in_map_iff in H as (tb & <- & _). repeat split.
  - rewrite skipn_app, skipn_all, Nat.sub_diag. cbn [skipn app].
    unfold activationIntro. cbn [app filter isCalled].
    rewrite !filter_app, pageCalls_called, overlays_not_called, Hc, Hn.
    destruct (sdk (discard s)); reflexivity.
Qed.

(** An instance of X11: the two-page document of the scenario, five
    regions. *)
Lemma activation_shows_one_overlay_per_region_witness :
  customOverlayItems (instance Scenario.afterActivation)
  = map overlayItemOf (pagesFrom 0 Scenario.document).
Proof.
  refine (proj1 (proj2 (proj2
    (activation_shows_one_overlay_per_region
       (Scenario.resolving Scenario.document) (world (initialConfig 2))
       Scenario.session Scenario.document
       eq_refl eq_refl eq_refl eq_refl eq_refl (fun q _ => eq_refl) _)))).
  vm_compute. repeat constructor; simpl; intuition discriminate.
Defined.

(** X12: the batch of a replacement follows the selection: one update
    per selected region, in selection order, carrying the region's
    identifier and a non-empty new text, with [anchor] and [maxWidth]
    left out; the new text fits its original wherever the original has
    seven characters or more.  Building the batch only writes to the
    console. *)
Theorem replacement_batch_follows_selection :
  forall (sdk : Sdk) (draws : nat -> nat -> nat)
         (sel : list PagedTextBlock) (w : World),
    exists updates,
      fst (run sdk (mapSelected draws 0 sel) w) = Normal updates
      /\ Forall2
           (fun tb u =>
              u_id u = tb_id (block tb)
              /\ u_anchor u = None
              /\ u_maxWidth u = None
              /\ exists newText,
                   u_text u = Some newText
                   /\ newText <> ""
                   /\ ((7 <= Js.len (tb_text (block tb)))%Z ->
                       (Js.len newText <= Js.len (tb_text (block tb)))%Z))
           sel updates
      /\ view (snd (run sdk (mapSelected draws 0 sel) w)) = view w
      /\ instance (snd (run sdk (mapSelected draws 0 sel) w)) = instance w.
Proof.
  intros sdk draws sel w. rewrite run_mapSelected. cbn [fst snd].
  eexists. split; [reflexivity|]. split; [|split; reflexivity].
  generalize 0. induction sel as [|tb rest IH]; intros i; simpl;
    constructor; [|apply IH].
  repeat split. eexists. split; [reflexivity|]. split.
  - intros E.
    pose proof (generateRandomText_nonempty (draws i)
                  (tb_text (block tb))) as T.
    rewrite E in T. discriminate.
  - apply generateRandomText_fits.
Qed.

(** X13: when the replacement action cannot open its session, the
    outer handler logs the error and the action returns normally: no
    batch is built or submitted, there is no session to commit or
    discard, and the component state (editing mode and selection
    included) and the instance are those from before the press. *)
Theorem replace_without_session_changes_nothing :
  forall (sdk : Sdk) (draws : nat -> nat -> nat) (w : World) (e : JsError),
    isEditing (view w) = true ->
    selected (view w) <> [] ->
    isProcessing (view w) = false ->
    sdk beginContentEditingSession = inl e ->
    run sdk (pressAiReplace draws) w
    = (Normal tt,
       mkWorld (view w) (instance w)
         (journal w
          ++ [ ConsoleLog "AI Replace triggered with selected text blocks:";
               Called beginContentEditingSession;
               ConsoleError "Error in AI Replace operation:" e ])).
Proof. intros sdk draws w e. apply replace_open_rejected. Qed.

(** An instance of X13: two regions selected, the session refused. *)
Lemma replace_without_session_changes_nothing_witness :
  view (snd (run (fun c =>
                    match c with
                    | beginContentEditingSession => inl "no session"
                    | _ => Scenario.resolving Scenario.document c
                    end)
               (pressAiReplace (fun _ k => k)) Scenario.afterSelecting))
  = view Scenario.afterSelecting.
Proof.
  rewrite (replace_without_session_changes_nothing _ (fun _ k => k)
             Scenario.afterSelecting "no session");
    [ reflexivity | reflexivity | vm_compute; discriminate | reflexivity
    | reflexivity ].
Defined.




(** X16: when every page was read and the overlays were set but the
    [discard] of the temporary session is rejected, the toggle's
    [catch] logs the error and turns editing mode off, and the handler
    returns normally with the busy flag off; the stored regions, the
    overlay list and the overlays shown by the instance stay as they
    were set. *)
Theorem rejected_discard_leaves_overlays_outside_editing_mode :
  forall (sdk : Sdk) (w : World) (s : Session) (doc : list (list TextBlock))
         (e : JsError),
    isEditing (view w) = false ->
    isProcessing (view w) = false ->
    sdk beginContentEditingSession = inr s ->
    totalPageCount (instance w) = List.length doc ->
    (forall q, q < List.length doc ->
               sdk (getTextBlocks s q) = inr (nth q doc [])) ->
    sdk (discard s) = inl e ->
    let w' := snd (run sdk pressContentBoxes w) in
    fst (run sdk pressContentBoxes w) = Normal tt
    /\ isEditing (view w') = false
    /\ isProcessing (view w') = false
    /\ textBlocksRef (view w') = pagesFrom 0 doc
    /\ overlaysRef (view w') = map overlayIdOf (pagesFrom 0 doc)
    /\ customOverlayItems (instance w')
       = overlayItemsWith (pagesFrom 0 doc) (customOverlayItems (instance w))
    /\ exists before,
         journal w'
         = (before ++ [ Called (discard s);
                        ConsoleError "Error in content editing:" e ])%list.
Proof.
  intros sdk w s doc e He Hp Hb Hn Hd Hx w'. subst w'.
  destruct (readPages_document sdk s doc 0 []) as [Hr _].
  { intros q Hq. simpl. apply Hd, Hq. }
  rewrite <- Hn in Hr. cbn [app] in Hr.
  rewrite (press_read_resolved sdk w s _ He Hp Hb Hr), Hx.
  cbn [fst snd view instance journal isEditing isProcessing textBlocksRef
       overlaysRef customOverlayItems].
  repeat (split; [reflexivity|]).
  eexists. rewrite !app_assoc. reflexivity.
Qed.

(** An instance of X16: the one-page document whose [discard] fails. *)
Lemma rejected_discard_leaves_overlays_outside_editing_mode_witness :
  isEditing (view Scenario.afterFailedDiscard) = false
  /\ overlaysRef (view Scenario.afterFailedDiscard)
     = map overlayIdOf (pagesFrom 0 Scenario.pageBefore).
Proof.
  pose proof
    (rejected_discard_leaves_overlays_outside_editing_mode
       (Scenario.discardRejecting Scenario.pageBefore)
       (world (initialConfig 1)) Scenario.session Scenario.pageBefore
       "discard failed" eq_refl eq_refl eq_refl eq_refl
       (fun q _ => eq_refl) eq_refl) as H.
  split; [apply H | apply H].
Defined.

(** X17: the guards of both handlers read the flags of the render the
    handler was created in, not the state at the call.  A handler of a
    render in which the busy flag was off starts its operation and
    parks at [beginContentEditingSession] in whatever state it is
    called, one in which the flag is set included; only a press that
    meets the handler of the latest render is turned away while
    another handler is parked. *)
Theorem guards_read_the_flags_of_the_render :
  forall (draws : nat -> nat -> nat) (render : ViewerState) (w : World),
    isProcessing render = false ->
    (isEditing render = false ->
     exists k,
       snd (advance (handleContentBoxesPress render) w)
       = [Waiting beginContentEditingSession k])
    /\ (isEditing render = true -> selected render <> [] ->
        exists k,
          snd (advance (aiToolbar_onPress draws render) w)
          = [Waiting beginContentEditingSession k]).
Proof.
  intros draws render w Hp. split.
  - intros He. unfold handleContentBoxesPress. rewrite Hp, He.
    eexists. reflexivity.
  - intros He Hs. unfold aiToolbar_onPress. rewrite Hp, He.
    destruct (selected render) as [|tb rest]; [congruence|].
    eexists. reflexivity.
Qed.

(** An instance of X17: the toggle handler of the first render, called
    while the first press is still parked and the flag is set. *)
Lemma guards_read_the_flags_of_the_render_witness :
  isProcessing (view (world Scenario.activationInFlight)) = true
  /\ exists k,
       snd (advance (handleContentBoxesPress initialView)
              (world Scenario.activationInFlight))
       = [Waiting beginContentEditingSession k].
Proof.
  split; [reflexivity|].
  apply (guards_read_the_flags_of_the_render (fun _ k => k) initialView
           (world Scenario.activationInFlight) eq_refl).
  reflexivity.
Defined.

End ToolbarPresses.

Section Clicks.

Import Viewer.

(** X18: one click on an overlay, whatever the selection holds.  The
    overlay changes colour and keeps its region.  Afterwards the region
    is selected exactly if the overlay was in the unselected colour
    before, and the membership of every other identifier is untouched.
    An unselected-looking overlay appends its region at the end of the
    selection unless a region with its identifier is already there; a
    selected-looking one removes every entry with its identifier and
    keeps the others in order. *)
Theorem single_click_selects_by_colour :
  forall (node : OverlayDiv) (sel : list PagedTextBlock),
    isCurrentlyBlue (fst (clickListener node sel))
    = negb (isCurrentlyBlue node)
    /\ listener_textBlock (fst (clickListener node sel))
       = listener_textBlock node
    /\ isSelected (regionIdOf node) (snd (clickListener node sel))
       = isCurrentlyBlue node
    /\ (forall regionId,
          regionId <> regionIdOf node ->
          isSelected regionId (snd (clickListener node sel))
          = isSelected regionId sel)
    /\ (isCurrentlyBlue node = true ->
        snd (clickListener node sel)
        = if isSelected (regionIdOf node) sel
          then sel
          else (sel ++ [listener_textBlock node])%list)
    /\ (isCurrentlyBlue node = false ->
        snd (clickListener node sel)
        = filter (fun tb => negb (tb_id (block tb) =? regionIdOf node)) sel).
Proof.
  intros node sel.
  destruct (toggledNode_flips node) as [F1 F2].
  destruct (click_sets_membership node sel) as [Hown Hother].
  split; [exact F1|]. split; [exact F2|]. split; [exact Hown|].
  split; [exact Hother|].
  unfold clickListener, selectionUpdate. cbn [snd].
  split; intros B; rewrite B; reflexivity.
Qed.

End Clicks.

(* ================================================================== *)
(** ** The busy flag and the selection throughout the event loop *)

Section ReleaseFacts.

Import Viewer.

(** Whatever the body does, [finally { setIsProcessing(false) }] ends
    with the flag off. *)
Lemma releasesFlag_finally (p : Prog unit) :
  forall w, releasesFlag (tryFinally p (setIsProcessing false)) w.
Proof.
  induction p as [a|e|k IH|g k IH|c k IH]; intros w; simpl; auto.
Qed.

Lemma releasesFlag_toggle (w : World) :
  isProcessing (view w) = false -> releasesFlag pressContentBoxes w.
Proof.
  intros Hp. unfold pressContentBoxes, handleContentBoxesPress.
  cbn [releasesFlag]. rewrite Hp.
  cbn [bind console_log setIsProcessing modify releasesFlag].
  apply releasesFlag_finally.
Qed.

Lemma releasesFlag_replace (draws : nat -> nat -> nat) (w : World) :
  isProcessing (view w) = false -> releasesFlag (pressAiReplace draws) w.
Proof.
  intros Hp. unfold pressAiReplace, aiToolbar_onPress.
  cbn [releasesFlag]. rewrite Hp.
  destruct (negb (isEditing (view w)) || _); [exact Hp|].
  cbn [bind console_log setIsProcessing modify releasesFlag].
  apply releasesFlag_finally.
Qed.

Lemma advance_releases (p : Prog unit) :
  forall w w' q,
    releasesFlag p w -> advance p w = (w', q) ->
    (q = [] -> isProcessing (view w') = false)
    /\ Forall resumesReleasing q.
Proof.
  induction p as [a|e|k IH|g k IH|c k IH]; intros w w' q Hr Ha;
    simpl in *.
  - injection Ha as <- <-. split; [intros _; exact Hr | constructor].
  - injection Ha as <- <-. split; [intros _; exact Hr | constructor].
  - eapply IH; eassumption.
  - eapply IH; eassumption.
  - injection Ha as <- <-. split; [discriminate|].
    constructor; [exact Hr | constructor].
Qed.

(** The other half of the event loop's invariant: with no handler
    parked the flag is off, and every parked handler ends with it off. *)
Lemma reachable_released (allowed : Label -> Prop) (cfg : Config) :
  reachableBy allowed cfg ->
  (inflight cfg = [] -> isProcessing (view (world cfg)) = false)
  /\ Forall resumesReleasing (inflight cfg).
Proof.
  induction 1 as [pages | l cfg cfg' R [Hoff Hres] _ Hstep].
  - split; [reflexivity | constructor].
  - destruct (reachable_parkedBusy _ _ R) as [Hlen [_ Hbusy]].
    destruct Hstep as [w q w' s Ha | draws w q w' s Ha
                      | overlayId item w q Hf | pageIndex w q
                      | c k r w q1 q2 w' s Ha];
      cbn [world inflight] in *.
    + destruct q as [|parked q].
      * apply (advance_releases _ _ _ _
                 (releasesFlag_toggle w (Hoff eq_refl)) Ha).
      * rewrite toggle_dropped_when_busy in Ha by (apply Hbusy; easy).
        injection Ha as <- <-. rewrite app_nil_r.
        split; [discriminate | exact Hres].
    + destruct q as [|parked q].
      * apply (advance_releases _ _ _ _
                 (releasesFlag_replace draws w (Hoff eq_refl)) Ha).
      * destruct (replace_dropped_when_busy draws w) as [line Hd];
          [apply Hbusy; easy|].
        rewrite Hd in Ha. injection Ha as <- <-. rewrite app_nil_r.
        split; [discriminate | exact Hres].
    + split; [|exact Hres].
      intros N. rewrite clickOverlay_flag. apply Hoff, N.
    + split; [|exact Hres]. intros N. apply Hoff, N.
    + rewrite length_app in Hlen. simpl in Hlen.
      assert (q1 = []) by (destruct q1; [reflexivity | simpl in Hlen; lia]).
      assert (q2 = []) by (destruct q2; [reflexivity | simpl in Hlen; lia]).
      subst q1 q2. simpl in *. rewrite app_nil_r.
      inversion Hres as [|? ? Hk _]; subst.
      apply (advance_releases _ _ _ _ (Hk r w) Ha).
Qed.

End ReleaseFacts.

Section SelectionFacts.

Import Viewer.

Lemma keepsSelection_bind {A B : Type} (p : Prog A) (f : A -> Prog B) :
  keepsSelection p -> (forall a, keepsSelection (f a)) ->
  keepsSelection (bind p f).
Proof.
  intros Hp Hf. induction p as [a|e|k IH|g k IH|c k IH]; simpl in *; auto.
  destruct Hp as [Hg Hk]. auto.
Qed.

Lemma keepsSelection_tryCatch {A : Type} (p : Prog A)
    (h : JsError -> Prog A) :
  keepsSelection p -> (forall e, keepsSelection (h e)) ->
  keepsSelection (tryCatch p h).
Proof.
  intros Hp Hh. induction p as [a|e|k IH|g k IH|c k IH]; simpl in *; auto.
  destruct Hp as [Hg Hk]. auto.
Qed.

Lemma keepsSelection_tryFinally {A : Type} (p : Prog A) (fin : Prog unit) :
  keepsSelection p -> keepsSelection fin -> keepsSelection (tryFinally p fin).
Proof.
  intros Hp Hf. induction p as [a|e|k IH|g k IH|c k IH]; simpl in *; auto.
  - apply keepsSelection_bind; simpl; auto.
  - apply keepsSelection_bind; simpl; auto.
  - destruct Hp as [Hg Hk]. auto.
Qed.

Lemma keepsSelection_await (c : SdkCall) : keepsSelection (await c).
Proof. simpl. intros [e|v]; exact I. Qed.

Lemma keepsSelection_forEach {A : Type} (l : list A) (f : A -> Prog unit) :
  (forall a, keepsSelection (f a)) -> keepsSelection (forEach l f).
Proof.
  intros H. induction l as [|a l IH]; simpl; [exact I|].
  apply keepsSelection_bind; auto.
Qed.

Lemma keepsSelection_forPages (s : Session) (n : nat) :
  forall p acc, keepsSelection (forPages s n p acc).
Proof.
  induction n as [|n IH]; intros p acc; [exact I|].
  cbn [forPages].
  apply keepsSelection_bind; [apply keepsSelection_await | auto].
Qed.

Lemma keepsSelection_createOverlays (blocks : list PagedTextBlock) :
  forall acc, keepsSelection (createOverlays blocks acc).
Proof.
  induction blocks as [|tb rest IH]; intros acc; [exact I|].
  cbn [createOverlays]. apply keepsSelection_bind; [|auto].
  simpl. auto.
Qed.

Lemma keepsSelection_mapSelected (draws : nat -> nat -> nat)
    (blocks : list PagedTextBlock) :
  forall i, keepsSelection (mapSelected draws i blocks).
Proof.
  induction blocks as [|tb rest IH]; intros i; [exact I|].
  cbn [mapSelected]. apply keepsSelection_bind.
  - simpl. repeat split; auto.
  - intros u. apply keepsSelection_bind; [apply IH | intros; exact I].
Qed.

Ltac selection_step :=
  first
    [ exact I
    | left; reflexivity
    | right; reflexivity
    | apply keepsSelection_await
    | apply keepsSelection_forPages
    | apply keepsSelection_createOverlays
    | apply keepsSelection_mapSelected
    | apply keepsSelection_forEach
    | apply keepsSelection_tryCatch
    | apply keepsSelection_tryFinally
    | apply keepsSelection_bind
    | split
    | intro ].

Lemma keepsSelection_clearEditingState : keepsSelection clearEditingState.
Proof. unfold clearEditingState. repeat selection_step. Qed.

Lemma keepsSelection_startEditing : keepsSelection startEditing.
Proof. unfold startEditing. repeat selection_step. Qed.

Lemma keepsSelection_toggle : keepsSelection pressContentBoxes.
Proof.
  unfold pressContentBoxes, handleContentBoxesPress. intros w.
  destruct (isProcessing (view w)); [repeat selection_step|].
  split; [left; reflexivity|]. split; [left; reflexivity|].
  apply keepsSelection_tryFinally; [|repeat selection_step].
  apply keepsSelection_tryCatch; [|repeat selection_step].
  destruct (isEditing (view w)).
  - split; [left; reflexivity | apply keepsSelection_clearEditingState].
  - apply keepsSelection_startEditing.
Qed.

Lemma keepsSelection_replace (draws : nat -> nat -> nat) :
  keepsSelection (pressAiReplace draws).
Proof.
  unfold pressAiReplace, aiToolbar_onPress. intros w.
  destruct (negb (isEditing (view w)) || _); [repeat selection_step|].
  destruct (isProcessing (view w)); [repeat selection_step|].
  split; [left; reflexivity|].
  apply keepsSelection_tryFinally; [|repeat selection_step].
  apply keepsSelection_tryCatch; [|repeat selection_step].
  split; [left; reflexivity|].
  apply (keepsSelection_bind (await beginContentEditingSession));
    [apply keepsSelection_await|].
  intros session. apply keepsSelection_tryCatch.
  - apply (keepsSelection_bind (mapSelected draws 0 (selected (view w))));
      [apply keepsSelection_mapSelected|].
    intros updates. split; [left; reflexivity|].
    apply (keepsSelection_bind (await (updateTextBlocks session updates)));
      [apply keepsSelection_await|].
    intros _.
    apply (keepsSelection_bind (await (commit session)));
      [apply keepsSelection_await|].
    intros _.
    split; [left; reflexivity | apply keepsSelection_clearEditingState].
  - intros e. split; [left; reflexivity|]. intros [e'|v]; exact I.
Qed.

(** A property of the selection that the empty selection has and that
    clicks keep holds throughout. *)
Variable Q : list PagedTextBlock -> Prop.
Hypothesis Q_empty : Q [].
Hypothesis Q_click :
  forall node sel, Q sel -> Q (snd (clickListener node sel)).

Lemma advance_keeps_selection (p : Prog unit) :
  forall w w' q,
    keepsSelection p -> Q (selected (view w)) -> advance p w = (w', q) ->
    Q (selected (view w')) /\ Forall resumesKeepingSelection q.
Proof.
  induction p as [a|e|k IH|g k IH|c k IH]; intros w w' q Hk Hq Ha;
    simpl in *.
  - injection Ha as <- <-. split; [exact Hq | constructor].
  - injection Ha as <- <-. split; [exact Hq | constructor].
  - eapply IH; eauto.
  - destruct Hk as [Hg Hk]. eapply IH; [exact Hk | | exact Ha].
    destruct (Hg w) as [-> | ->]; [exact Hq | exact Q_empty].
  - injection Ha as <- <-. split; [exact Hq|].
    constructor; [exact Hk | constructor].
Qed.

Lemma reachable_selection (allowed : Label -> Prop) (cfg : Config) :
  reachableBy allowed cfg ->
  Q (selected (view (world cfg)))
  /\ Forall resumesKeepingSelection (inflight cfg).
Proof.
  induction 1 as [pages | l cfg cfg' _ [Hq Hres] _ Hstep].
  - split; [exact Q_empty | constructor].
  - destruct Hstep as [w q w' s Ha | draws w q w' s Ha
                      | overlayId item w q Hf | pageIndex w q
                      | c k r w q1 q2 w' s Ha];
      cbn [world inflight] in *.
    + destruct (advance_keeps_selection _ _ _ _ keepsSelection_toggle Hq Ha)
        as [Hq' Hs].
      split; [exact Hq' | apply Forall_app; auto].
    + destruct (advance_keeps_selection _ _ _ _
                  (keepsSelection_replace draws) Hq Ha) as [Hq' Hs].
      split; [exact Hq' | apply Forall_app; auto].
    + split; [|exact Hres]. unfold clickOverlay. rewrite Hf.
      cbn [view updateSelected selected]. apply Q_click, Hq.
    + split; [exact Hq | exact Hres].
    + apply Forall_app in Hres as [H1 H2].
      inversion H2 as [|? ? Hk H2']; subst.
      destruct (advance_keeps_selection _ _ _ _ (Hk r) Hq Ha) as [Hq' Hs].
      split; [exact Hq' | repeat (apply Forall_app; split); auto].
Qed.

End SelectionFacts.

Section DistinctFacts.

Import Viewer.

Lemma regionIds_filter (keep : PagedTextBlock -> bool)
    (sel : list PagedTextBlock) :
  NoDup (regionIds sel) -> NoDup (regionIds (filter keep sel)).
Proof.
  unfold regionIds. induction sel as [|tb rest IH]; simpl; intros N;
    [constructor|].
  inversion N as [|? ? Nt Nr]; subst.
  destruct (keep tb); simpl; [|auto].
  constructor; [|auto]. intros H. apply Nt.
  apply in_map_iff in H as (x & E & Hx). apply filter_In in Hx as [Hx _].
  apply in_map_iff. exists x. auto.
Qed.

Lemma selectionUpdate_distinct (wasBlue : bool) (textBlock : PagedTextBlock)
    (sel : list PagedTextBlock) :
  NoDup (regionIds sel) ->
  NoDup (regionIds (selectionUpdate wasBlue textBlock sel)).
Proof.
  intros N. unfold selectionUpdate. destruct wasBlue.
  - destruct (existsb (sameId textBlock) sel) eqn:E; [exact N|].
    unfold regionIds. rewrite map_app. simpl.
    apply NoDup_app; [exact N | repeat constructor; intros [] |].
    intros x Hx [<-|[]].
    apply in_map_iff in Hx as (tb & Et & Hin).
    assert (existsb (sameId textBlock) sel = true); [|congruence].
    apply existsb_exists. exists tb. split; [exact Hin|].
    unfold sameId. now apply String.eqb_eq.
  - apply regionIds_filter, N.
Qed.

End DistinctFacts.

Section ReachableFacts.

Import Viewer.

Lemma reachableBy_weaken (allowed allowed' : Label -> Prop) (cfg : Config) :
  (forall l, allowed l -> allowed' l) ->
  reachableBy allowed cfg -> reachableBy allowed' cfg.
Proof.
  intros H. induction 1 as [pages | l cfg cfg' _ IH A Hstep].
  - apply reachable_initial.
  - eapply reachable_step; eauto.
Qed.

Lemma resolving_accepts_discard (doc : list (list TextBlock)) (c : SdkCall) :
  discardAccepted (Settle c (Scenario.resolving doc c)).
Proof. destruct c; exact I. Qed.

(** The scenario's configuration with two regions selected is reached
    without a rejected [discard]. *)
Lemma selecting_reachable : reachableBy discardAccepted Scenario.selecting.
Proof.
  apply (reachable_step _ (ClickOverlay "overlay-r4")
           (mkConfig (clickOverlay "overlay-r2" Scenario.afterActivation) []));
    [|exact I | eapply step_click; reflexivity].
  apply (reachable_step _ (ClickOverlay "overlay-r2")
           (mkConfig Scenario.afterActivation []));
    [|exact I | eapply step_click; reflexivity].
  apply (toggle_run_reachable (Scenario.resolving Scenario.document));
    [apply resolving_accepts_discard | exact I | apply reachable_initial].
Qed.

Lemma afterLeaving_reachable :
  reachableBy discardAccepted Scenario.afterLeaving.
Proof.
  apply (toggle_run_reachable (Scenario.resolving Scenario.document));
    [apply resolving_accepts_discard | exact I | apply selecting_reachable].
Qed.

Lemma activationInFlight_reachable : reachable Scenario.activationInFlight.
Proof.
  apply (reachable_step _ PressContentBoxes (initialConfig 2));
    [apply reachable_initial | exact I |].
  apply (step_pressContentBoxes (world (initialConfig 2)) []). reflexivity.
Qed.

End ReachableFacts.

Section EventLoop.

Import Viewer.

(** X19: in every reachable configuration of the event loop (presses
    meeting the handlers of the latest render) the busy flag is set
    exactly while a toolbar handler is parked at an [await]: once the
    handler has run to its end, with whatever rejections on the way,
    the flag is off again, so the toolbar is never left blocked. *)
Theorem busy_flag_is_set_exactly_while_a_handler_is_parked :
  forall cfg : Config,
    reachable cfg ->
    (inflight cfg = [] <-> isProcessing (view (world cfg)) = false).
Proof.
  intros cfg R.
  destruct (reachable_released _ cfg R) as [Hoff _].
  destruct (reachable_parkedBusy _ cfg R) as [_ [_ Hbusy]].
  split; [exact Hoff|]. intros Hf.
  destruct (inflight cfg) as [|parked q]; [reflexivity|].
  rewrite Hbusy in Hf; discriminate.
Qed.

(** An instance of X19: the toggle parked right after the first press. *)
Lemma busy_flag_is_set_exactly_while_a_handler_is_parked_witness :
  inflight Scenario.activationInFlight = []
  <-> isProcessing (view (world Scenario.activationInFlight)) = false.
Proof.
  exact (busy_flag_is_set_exactly_while_a_handler_is_parked
           Scenario.activationInFlight activationInFlight_reachable).
Defined.

(** X20: the selection never holds two regions with the same
    identifier, in any reachable configuration of the event loop.  The
    handlers only ever empty the selection, and the click listener adds
    a region only when no selected region has its identifier. *)
Theorem selection_never_repeats_an_identifier :
  forall cfg : Config,
    reachable cfg ->
    NoDup (regionIds (selected (view (world cfg)))).
Proof.
  intros cfg R.
  apply (reachable_selection (fun sel => NoDup (regionIds sel)))
    with (allowed := fun _ => True); [constructor | | exact R].
  intros node sel N. apply selectionUpdate_distinct, N.
Qed.

(** An instance of X20: r2 and r4 selected. *)
Lemma selection_never_repeats_an_identifier_witness :
  NoDup (regionIds (selected (view (world Scenario.selecting)))).
Proof.
  apply (selection_never_repeats_an_identifier Scenario.selecting).
  apply (reachableBy_weaken discardAccepted); [intros l _; exact I|].
  apply selecting_reachable.
Defined.

(** X22: along the same executions every overlay the instance shows
    belongs to a stored region, is listed in the overlay list under the
    name ["overlay-" ++ id] of that region, and is in the unselected
    colour exactly if that region is not selected. *)
Theorem shown_overlays_mirror_the_selection :
  forall (cfg : Config) (item : CustomOverlayItem),
    reachableBy discardAccepted cfg ->
    In item (customOverlayItems (instance (world cfg))) ->
    let tb := listener_textBlock (co_node item) in
    In tb (textBlocksRef (view (world cfg)))
    /\ co_id item = "overlay-" ++ tb_id (block tb)
    /\ In (co_id item) (overlaysRef (view (world cfg)))
    /\ isCurrentlyBlue (co_node item)
       = negb (isSelected (tb_id (block tb))
                          (selected (view (world cfg)))).
Proof.
  intros cfg item R H tb. destruct (reachable_consistent cfg R) as [_ C2 _ _].
  destruct (C2 item H) as (A & B & C & D). fold tb in A, C.
  split; [exact A|]. split; [exact C|]. split; [exact B | exact D].
Qed.

(** An instance of X22: the overlay of the selected region r2 is red. *)
Lemma shown_overlays_mirror_the_selection_witness :
  isCurrentlyBlue
    (toggledNode
       (createOverlayDiv
          (withPageIndex (Scenario.region "r2" "Hi" 80 72 30 14) 0)))
  = negb (isSelected "r2" (selected (view (world Scenario.selecting)))).
Proof.
  refine (proj2 (proj2 (proj2
    (shown_overlays_mirror_the_selection Scenario.selecting
       (mkOverlayItem "overlay-r2"
          (toggledNode
             (createOverlayDiv
                (withPageIndex (Scenario.region "r2" "Hi" 80 72 30 14) 0)))
          0 (mkPoint 72 80))
       selecting_reachable _)))).
  vm_compute. auto.
Defined.

(** X23: along the same executions, whenever editing mode is off no
    handler is parked, the busy flag is off, and nothing of an editing
    session is left: no overlay is listed or shown, no region is
    stored and nothing is selected. *)
Theorem nothing_is_left_outside_editing_mode :
  forall cfg : Config,
    reachableBy discardAccepted cfg ->
    isEditing (view (world cfg)) = false ->
    inflight cfg = []
    /\ isProcessing (view (world cfg)) = false
    /\ overlaysRef (view (world cfg)) = []
    /\ textBlocksRef (view (world cfg)) = []
    /\ selected (view (world cfg)) = []
    /\ customOverlayItems (instance (world cfg)) = [].
Proof.
  intros cfg R He. pose proof (reachable_configSafe cfg R) as S.
  unfold configSafe in S.
  destruct (inflight cfg) as [|[c k] [|? ?]]; [| |contradiction].
  - destruct S as ([C1 C2 C3 C4] & Hp & Ht). specialize (Ht He).
    rewrite Ht in C1, C2, C4.
    split; [reflexivity|]. split; [exact Hp|]. split; [exact C1|].
    split; [exact Ht|]. split.
    + destruct (selected (view (world cfg))) as [|tb rest]; [reflexivity|].
      destruct (C4 tb (or_introl eq_refl)).
    + destruct (customOverlayItems (instance (world cfg))) as [|item rest];
        [reflexivity|].
      destruct (C2 item (or_introl eq_refl)) as [[] _].
  - destruct S as (ph & (_ & _ & E & _) & _). congruence.
Qed.

(** An instance of X23: editing mode entered, two regions selected,
    editing mode left. *)
Lemma nothing_is_left_outside_editing_mode_witness :
  selected (view (world Scenario.afterLeaving)) = []
  /\ customOverlayItems (instance (world Scenario.afterLeaving)) = [].
Proof.
  pose proof (nothing_is_left_outside_editing_mode Scenario.afterLeaving
                afterLeaving_reachable eq_refl) as H.
  split; apply H.
Defined.

End EventLoop.

(* ================================================================== *)
(** ** The effects *)

Section EffectFacts.

Import Viewer.

Lemma run_cleanup (sdk : Sdk) (w : World) :
  run sdk cleanup w
  = (Normal tt,
     mkWorld
       (mkView [] [] (currentPageIndex (view w)) (isEditing (view w))
               (selected (view w)) (isProcessing (view w)))
       (instance (removedAll (overlaysRef (view w)) w))
       (journal w ++ map RemoveOverlay (overlaysRef (view w)))).
Proof.
  unfold cleanup, read. cbn [bind run].
  rewrite run_bind, run_removeAll.
  cbn [bind run assignOverlaysRef assignTextBlocksRef modify].
  unfold withView.
  cbn [view instance journal overlaysRef textBlocksRef currentPageIndex
       isEditing selected isProcessing].
  rewrite removedAll_view, removedAll_journal. reflexivity.
Qed.

Lemma prefix_whole (s : string) :
  String.substring 0 (String.length s) s = s.
Proof. induction s as [|c s IH]; simpl; [reflexivity | now rewrite IH]. Qed.

Lemma prefix_length_min (m : nat) (s : string) :
  String.length (String.substring 0 m s) = Nat.min m (String.length s).
Proof.
  revert s. induction m as [|m IH]; intros [|c s]; simpl; try reflexivity.
  now rewrite IH.
Qed.

(** [s.substring(0, n)] as a prefix of [s]. *)
Lemma substring_from_0 (s : string) (n : Z) :
  Js.substring s 0 n
  = String.substring 0 (Z.to_nat (Z.max 0 (Z.min n (Js.len s)))) s.
Proof.
  unfold Js.substring, Js.clamp.
  pose proof (len_nonneg s) as Hs.
  replace (Z.max 0 (Z.min 0 (Js.len s))) with 0%Z by lia.
  set (b := Z.max 0 (Z.min n (Js.len s))).
  replace (Z.min 0 b) with 0%Z by lia.
  replace (Z.max 0 b - 0)%Z with b by lia.
  reflexivity.
Qed.

Lemma preview_len (text : string) :
  Js.len (preview text) = (Z.min (Js.len text) 50 + 3)%Z.
Proof.
  unfold preview. rewrite len_append, substring_from_0.
  change (Js.len "...") with 3%Z. unfold Js.len at 1.
  rewrite prefix_length_min. unfold Js.len. lia.
Qed.

Lemma preview_short (text : string) :
  (Js.len text <= 50)%Z -> preview text = text ++ "...".
Proof.
  intros H. unfold preview. rewrite substring_from_0.
  replace (Z.to_nat (Z.max 0 (Z.min 50 (Js.len text))))
    with (String.length text) by (unfold Js.len in *; lia).
  now rewrite prefix_whole.
Qed.

Lemma prefix_split (m : nat) (s : string) :
  exists rest, s = String.substring 0 m s ++ rest.
Proof.
  revert s. induction m as [|m IH]; intros [|c s]; simpl.
  - exists "". reflexivity.
  - exists (String c s). reflexivity.
  - exists "". reflexivity.
  - destruct (IH s) as [rest E]. exists rest. now rewrite <- E.
Qed.

Lemma preview_cut (text : string) :
  exists cut rest,
    text = cut ++ rest
    /\ Js.len cut = Z.min (Js.len text) 50
    /\ preview text = cut ++ "...".
Proof.
  unfold preview. rewrite substring_from_0.
  set (n := Z.to_nat (Z.max 0 (Z.min 50 (Js.len text)))).
  destruct (prefix_split n text) as [rest E].
  exists (String.substring 0 n text), rest.
  split; [exact E|]. split; [|reflexivity].
  unfold Js.len at 1. rewrite prefix_length_min. unfold n, Js.len. lia.
Qed.

End EffectFacts.

Section Effects.

Import Viewer.

(** X24: the clean-up of the mount effect removes every listed overlay
    from the instance, in order, and empties the overlay list and the
    stored regions, but writes no React state: editing mode, the
    selection, the busy flag and the page index are what they were.
    So after a clean-up with a region selected (as on a change of the
    [document] prop), the selection refers to regions that are not
    stored any more. *)
Theorem cleanup_empties_the_refs_only :
  forall (sdk : Sdk) (w : World),
    let w' := snd (run sdk cleanup w) in
    fst (run sdk cleanup w) = Normal tt
    /\ view w'
       = mkView [] [] (currentPageIndex (view w)) (isEditing (view w))
                (selected (view w)) (isProcessing (view w))
    /\ journal w'
       = (journal w ++ map RemoveOverlay (overlaysRef (view w)))%list
    /\ Forall (fun item => ~ In (co_id item) (overlaysRef (view w)))
              (customOverlayItems (instance w'))
    /\ (selected (view w) <> [] -> selectionStored (view w') = false).
Proof.
  intros sdk w w'. subst w'. rewrite run_cleanup.
  cbn [fst snd view journal instance].
  repeat (split; [reflexivity|]). split.
  - apply Forall_forall. intros item H.
    now apply removedAll_items in H.
  - unfold selectionStored. cbn [selected textBlocksRef].
    destruct (selected (view w)) as [|tb rest]; [congruence|]. reflexivity.
Qed.

(** X25: the replacement action is still accepted after a clean-up
    that found the component in editing mode with a selection: nothing
    is stored and no overlay is shown, yet a press passes the guards,
    opens a session and, once it is there, submits the updates for the
    regions selected before the clean-up. *)
Theorem replace_after_cleanup_submits_the_old_selection :
  forall (sdk : Sdk) (draws : nat -> nat -> nat) (w : World),
    isEditing (view w) = true ->
    selected (view w) <> [] ->
    isProcessing (view w) = false ->
    let w' := snd (run sdk cleanup w) in
    textBlocksRef (view w') = []
    /\ exists k,
         snd (advance (pressAiReplace draws) w')
         = [Waiting beginContentEditingSession k]
         /\ forall (session : Session) (w'' : World), exists k',
              snd (advance (k (inr session)) w'')
              = [Waiting
                   (updateTextBlocks session
                      (updatesFor draws 0 (selected (view w)))) k'].
Proof.
  intros sdk draws w He Hs Hp w'.
  assert (V : view w'
              = mkView [] [] (currentPageIndex (view w)) true
                       (selected (view w)) false).
  { unfold w'. rewrite run_cleanup. cbn [snd view]. now rewrite He, Hp. }
  split; [now rewrite V|].
  replace (selected (view w)) with (selected (view w')) by (now rewrite V).
  apply (replace_parks_with_batch sdk draws w'); rewrite V; auto.
Qed.

(** An instance of X25: the clean-up with r2 and r4 selected. *)
Lemma replace_after_cleanup_submits_the_old_selection_witness :
  textBlocksRef (view Scenario.afterCleanup) = []
  /\ regionIds (selected (view Scenario.afterCleanup)) = ["r2"; "r4"].
Proof.
  split; [|reflexivity].
  apply (replace_after_cleanup_submits_the_old_selection
           (Scenario.resolving Scenario.document) (fun _ k => k)
           Scenario.afterSelecting);
    [ reflexivity | vm_compute; discriminate | reflexivity ].
Defined.

(** X26: the effect that logs the selection shows, for each selected
    region in selection order, its identifier and a preview of its
    text: the first 50 characters of the text (all of it when it has
    fewer) followed by ["..."].  The dots are appended whether or not
    anything was cut, so a text of at most 50 characters is shown whole
    with the dots after it, and a preview has the shown part's length
    plus three characters, at most 53. *)
Theorem selection_log_previews_fifty_characters :
  forall selected : list PagedTextBlock,
    map fst (selectedSummary selected) = regionIds selected
    /\ Forall2
         (fun tb line =>
            fst line = tb_id (block tb)
            /\ (exists cut rest,
                  tb_text (block tb) = cut ++ rest
                  /\ Js.len cut = Z.min (Js.len (tb_text (block tb))) 50
                  /\ snd line = cut ++ "...")
            /\ (Js.len (snd line)
                = Z.min (Js.len (tb_text (block tb))) 50 + 3)%Z
            /\ ((Js.len (tb_text (block tb)) <= 50)%Z ->
                snd line = tb_text (block tb) ++ "..."))
         selected (selectedSummary selected).
Proof.
  intros sel. unfold selectedSummary, regionIds. split.
  - rewrite map_map. reflexivity.
  - induction sel as [|tb rest IH]; simpl; constructor; [|exact IH].
    split; [reflexivity|]. split; [apply preview_cut|].
    split; [apply preview_len | apply preview_short].
Qed.

End Effects.

(* ================================================================== *)
(** ** The toolbar's handlers and the clean-up as turns *)

Section ToolbarFacts.

Import Viewer.

(** Both handlers read three values of their render and nothing else
    of it. *)
Lemma handleContentBoxesPress_ext (render v : ViewerState) :
  sameRender render v ->
  handleContentBoxesPress render = handleContentBoxesPress v.
Proof.
  intros (E & _ & P). unfold handleContentBoxesPress. now rewrite E, P.
Qed.

Lemma aiToolbar_onPress_ext (draws : nat -> nat -> nat)
    (render v : ViewerState) :
  sameRender render v ->
  aiToolbar_onPress draws render = aiToolbar_onPress draws v.
Proof.
  intros (E & S & P). unfold aiToolbar_onPress. now rewrite E, S, P.
Qed.

Lemma advance_cleanup (w : World) :
  advance cleanup w = (snd (run (Scenario.resolving []) cleanup w), []).
Proof.
  unfold cleanup, read. cbn [bind advance run].
  pose proof (advance_after_sync (Scenario.resolving [])
                (forEach (overlaysRef (view w)) removeCustomOverlayItem)
                (sync_forEach_remove _) []
                (fun _ => assignOverlaysRef [];; assignTextBlocksRef [])
                w tt _ (run_removeAll _ _ w)) as H.
  cbn [wrap] in H. rewrite H, run_bind, run_removeAll. reflexivity.
Qed.

Lemma cleanup_flag (w : World) :
  isProcessing (view (fst (advance cleanup w))) = isProcessing (view w).
Proof. rewrite advance_cleanup, run_cleanup. reflexivity. Qed.

(** The invariant of the busy flag holds with the toolbar's handlers
    too, as long as every press finds the toolbar updated. *)
Lemma mounted_parkedBusy (m : Mounted) :
  reachableMounted pressesUpdated m ->
  List.length (inflight (shown m)) <= 1
  /\ parkedBusy (world (shown m)) (inflight (shown m)).
Proof.
  induction 1 as [pages | t m m' _ [Hlen [Hres Hbusy]] A Hturn].
  - simpl. repeat split; [lia | constructor | easy].
  - destruct Hturn as [w q render w' s Ha | draws w q render w' s Ha
                      | l cfg cfg' render Hl Hstep | cfg render
                      | w q render];
      cbn [shown world inflight toolbar pressesUpdated isPress] in *.
    + rewrite (handleContentBoxesPress_ext _ _ A) in Ha.
      change (advance pressContentBoxes w = (w', s)) in Ha.
      destruct q as [|parked q].
      * apply (advance_parks_busy _ _ _ _ (busyWhileParked_toggle w) Ha).
      * rewrite toggle_dropped_when_busy in Ha by (apply Hbusy; easy).
        injection Ha as <- <-. rewrite app_nil_r.
        repeat split; [exact Hlen | exact Hres |].
        intros _. apply Hbusy. easy.
    + rewrite (aiToolbar_onPress_ext draws _ _ A) in Ha.
      change (advance (pressAiReplace draws) w = (w', s)) in Ha.
      destruct q as [|parked q].
      * apply (advance_parks_busy _ _ _ _ (busyWhileParked_replace draws w) Ha).
      * destruct (replace_dropped_when_busy draws w) as [line Hd];
          [apply Hbusy; easy|].
        rewrite Hd in Ha. injection Ha as <- <-. rewrite app_nil_r.
        repeat split; [exact Hlen | exact Hres |].
        intros _. apply Hbusy. easy.
    + destruct Hstep as [w q w' s Ha | draws w q w' s Ha
                        | overlayId item w q Hf | pageIndex w q
                        | c k r w q1 q2 w' s Ha];
        cbn [world inflight isPress] in *; try discriminate.
      * repeat split; [exact Hlen | exact Hres |].
        intros N. rewrite clickOverlay_flag. apply Hbusy, N.
      * repeat split; [exact Hlen | exact Hres |].
        intros N. apply Hbusy, N.
      * rewrite length_app in Hlen. simpl in Hlen.
        assert (q1 = []) by (destruct q1; [reflexivity | simpl in Hlen; lia]).
        assert (q2 = []) by (destruct q2; [reflexivity | simpl in Hlen; lia]).
        subst q1 q2. simpl in *. rewrite app_nil_r.
        inversion Hres as [|? ? Hk _]; subst.
        apply (advance_parks_busy _ _ _ _ (Hk r w (Hbusy ltac:(easy))) Ha).
    + repeat split; assumption.
    + repeat split; [exact Hlen | exact Hres |].
      intros N. rewrite cleanup_flag. apply Hbusy, N.
Qed.

(** With every press on an updated toolbar and no clean-up, the turns
    are those of [step]; and every path of [step] is such a path, the
    toolbar updated after each turn. *)
Lemma mounted_is_reachable (allowed : Label -> Prop) (m : Mounted) :
  reachableMounted
    (fun t m0 => pressesUpdated t m0 /\ eventsIn allowed t /\ withoutCleanUp t)
    m ->
  reachableBy allowed (shown m).
Proof.
  induction 1 as [pages | t m m' _ IH (U & A & N) Hturn].
  - apply reachable_initial.
  - destruct Hturn as [w q render w' s Ha | draws w q render w' s Ha
                      | l cfg cfg' render Hl Hstep | cfg render
                      | w q render];
      cbn [shown world inflight toolbar pressesUpdated isPress eventsIn
           withoutCleanUp] in *.
    + rewrite (handleContentBoxesPress_ext _ _ U) in Ha.
      eapply reachable_step; [exact IH | exact A |].
      now apply step_pressContentBoxes.
    + rewrite (aiToolbar_onPress_ext draws _ _ U) in Ha.
      eapply reachable_step; [exact IH | exact A |].
      now apply (step_pressAi draws).
    + eapply reachable_step; eauto.
    + exact IH.
    + contradiction.
Qed.

Lemma reachable_is_mounted (allowed : Label -> Prop) (cfg : Config) :
  reachableBy allowed cfg ->
  reachableMounted
    (fun t m0 => pressesUpdated t m0 /\ eventsIn allowed t /\ withoutCleanUp t)
    (mkMounted cfg (view (world cfg))).
Proof.
  induction 1 as [pages | l cfg cfg' _ IH A Hstep].
  - apply mounted_initial.
  - apply (mounted_turn _ UpdateToolbar
             (mkMounted cfg' (view (world cfg))));
      [|repeat split | apply turn_updateToolbar].
    apply (mounted_turn _ (Occurs l) (mkMounted cfg (view (world cfg))));
      [exact IH | |].
    + split; [|split; [exact A | exact I]].
      cbn [pressesUpdated shown toolbar]. destruct (isPress l); repeat split.
    + destruct Hstep as [w q w' s Ha | draws w q w' s Ha
                        | overlayId item w q Hf | pageIndex w q
                        | c k r w q1 q2 w' s Ha].
      * apply turn_pressContentBoxes. exact Ha.
      * apply (turn_pressAi draws). exact Ha.
      * apply turn_event; [reflexivity|]. eapply step_click; eauto.
      * apply turn_event; [reflexivity|]. apply step_pageChange.
      * apply turn_event; [reflexivity|]. now apply step_settle.
Qed.

End ToolbarFacts.

Section MaintainFacts.

Import Viewer.

Variable P : World -> Prop.

Lemma maintains_after_sync {A : Type} (sdk : Sdk) (p : Prog A) :
  sync p ->
  forall fs (f : A -> Prog unit) w,
    (forall a w', run sdk p w = (Normal a, w') ->
                  maintains P (wrap fs (f a)) w') ->
    maintains P (wrap fs (bind p f)) w.
Proof.
  induction p as [a|e|k IH|g k IH|c k IH]; intros Hs fs f w H; simpl in *.
  - apply H. reflexivity.
  - contradiction.
  - rewrite wrap_Get. simpl. apply IH; auto.
  - rewrite wrap_Put. simpl. apply IH; auto.
  - contradiction.
Qed.

Lemma maintains_forPages (s : Session) (fs : list Frame)
    (f : list PagedTextBlock -> Prog unit) (n : nat) :
  (forall all w', P w' -> maintains P (wrap fs (f all)) w') ->
  (forall e w', P w' -> maintains P (wrap fs (Throw e)) w') ->
  forall p acc w,
    P w -> maintains P (wrap fs (bind (forPages s n p acc) f)) w.
Proof.
  intros Hok Herr. induction n as [|n IH]; intros p acc w Hw.
  - simpl. apply Hok, Hw.
  - cbn [forPages await bind]. rewrite wrap_Await. cbn [maintains].
    split; [exact Hw|].
    intros [e|blocks] w' Hw'; cbn [bind].
    + apply Herr, Hw'.
    + apply IH, Hw'.
Qed.

Hypothesis P_record : forall e w, P w -> P (record e w).

Lemma advance_maintains (p : Prog unit) :
  forall w w' q,
    maintains P p w -> advance p w = (w', q) ->
    P w' /\ Forall (resumesMaintaining P) q.
Proof.
  induction p as [a|e|k IH|g k IH|c k IH]; intros w w' q Hm Ha;
    simpl in *.
  - injection Ha as <- <-. split; [exact Hm | constructor].
  - injection Ha as <- <-. split; [exact Hm | constructor].
  - eapply IH; eassumption.
  - eapply IH; eassumption.
  - injection Ha as <- <-. destruct Hm as [Hw Hk].
    split; [apply P_record, Hw|]. constructor; [exact Hk | constructor].
Qed.

End MaintainFacts.

Section ListedFacts.

Import Viewer.

Lemma overlaysListed_same (w w' : World) :
  overlaysRef (view w') = overlaysRef (view w) ->
  textBlocksRef (view w') = textBlocksRef (view w) ->
  customOverlayItems (instance w') = customOverlayItems (instance w) ->
  overlaysListed w -> overlaysListed w'.
Proof. intros Ho Ht Hi [L N]. split; rewrite ?Ho, ?Ht, ?Hi; assumption. Qed.

Lemma removedAll_distinct (ids : list string) :
  forall w,
    NoDup (map co_id (customOverlayItems (instance w))) ->
    NoDup (map co_id (customOverlayItems (instance (removedAll ids w)))).
Proof.
  induction ids as [|i rest IH]; intros w N; simpl; [exact N|].
  apply IH. cbn [record instance customOverlayItems].
  apply withoutOverlay_ids, N.
Qed.

Lemma overlaysListed_cleared (ids : list string) (w w' : World) :
  overlaysRef (view w') = [] ->
  textBlocksRef (view w') = [] ->
  customOverlayItems (instance w')
  = customOverlayItems (instance (removedAll ids w)) ->
  overlaysListed w -> overlaysListed w'.
Proof.
  intros Ho Ht Hi [_ N]. split; rewrite ?Ho, ?Ht, ?Hi; [reflexivity|].
  apply removedAll_distinct, N.
Qed.

Lemma overlaysListed_created (all : list PagedTextBlock) (w w' : World) :
  overlaysRef (view w') = map overlayIdOf all ->
  textBlocksRef (view w') = all ->
  customOverlayItems (instance w')
  = overlayItemsWith all (customOverlayItems (instance w)) ->
  overlaysListed w -> overlaysListed w'.
Proof.
  intros Ho Ht Hi [_ N]. split; rewrite ?Ho, ?Ht, ?Hi; [reflexivity|].
  apply overlayItemsWith_distinct, N.
Qed.

Lemma overlaysListed_click (overlayId : string) (w : World) :
  overlaysListed w -> overlaysListed (clickOverlay overlayId w).
Proof.
  intros [L N]. unfold clickOverlay.
  destruct (findOverlay overlayId w); [|split; assumption].
  split; [exact L|]. cbn [instance customOverlayItems].
  rewrite map_map. erewrite map_ext; [exact N|].
  intros item. apply clickItem_id.
Qed.

Ltac step_keep :=
  cbn [bind console_log console_error setIsProcessing setIsEditing
       setSelected assignOverlaysRef assignTextBlocksRef modify read await
       maintains tryCatch tryFinally].

Ltac same_as H :=
  eapply overlaysListed_same; [..|exact H]; reflexivity.

Lemma maintains_toggle (render : ViewerState) (w : World) :
  overlaysListed w ->
  maintains overlaysListed (handleContentBoxesPress render) w.
Proof.
  intros H. unfold handleContentBoxesPress.
  destruct (isProcessing render); [step_keep; same_as H|].
  destruct (isEditing render).
  - (* leaving editing mode *)
    step_keep. unfold clearEditingState. step_keep. tidy.
    apply (maintains_after_sync overlaysListed (Scenario.resolving [])
             (forEach (overlaysRef (view w)) removeCustomOverlayItem)
             (sync_forEach_remove _)
             [CatchFrame (fun error =>
                console_error "Error in content editing:" error;;
                setIsEditing false);
              FinallyFrame (setIsProcessing false)]).
    intros [] w' R. rewrite run_removeAll in R. injection R as <-.
    cbn [wrap inFrame]. step_keep.
    eapply (overlaysListed_cleared (overlaysRef (view w)) w);
      [reflexivity | reflexivity | | exact H].
    tidy. f_equal. apply removedAll_instance_ext. reflexivity.
  - (* entering editing mode *)
    unfold startEditing. step_keep. tidy.
    split; [same_as H|].
    intros [e|s] w1 H1; step_keep.
    + same_as H1.
    + apply (maintains_forPages overlaysListed s
               [FinallyFrame (await (discard s));
                CatchFrame (fun error =>
                  console_error "Error in content editing:" error;;
                  setIsEditing false);
                FinallyFrame (setIsProcessing false)]).
      * intros all w2 H2. cbn [wrap inFrame]. step_keep.
        apply (maintains_after_sync overlaysListed (Scenario.resolving [])
                 (createOverlays all []) (sync_createOverlays _ _)
                 [FinallyFrame (await (discard s));
                  CatchFrame (fun error =>
                    console_error "Error in content editing:" error;;
                    setIsEditing false);
                  FinallyFrame (setIsProcessing false)]).
        intros newOverlays w3 R. rewrite run_createOverlays in R.
        injection R as <- <-. cbn [wrap inFrame]. step_keep.
        split.
        { eapply (overlaysListed_created all w2); [..|exact H2]; tidy;
            rewrite ?withOverlays_view, ?withOverlays_instance; tidy;
            reflexivity. }
        intros [e|[]] w4 H4; step_keep; same_as H4.
      * intros e w2 H2. cbn [wrap inFrame]. step_keep.
        split; [exact H2|].
        intros [e'|[]] w3 H3; step_keep; same_as H3.
      * exact H1.
Qed.

Lemma maintains_replace (draws : nat -> nat -> nat) (render : ViewerState)
    (w : World) :
  overlaysListed w ->
  maintains overlaysListed (aiToolbar_onPress draws render) w.
Proof.
  intros H. unfold aiToolbar_onPress.
  destruct (negb (isEditing render) || _); [step_keep; same_as H|].
  destruct (isProcessing render); [step_keep; same_as H|].
  step_keep. tidy. split; [same_as H|].
  intros [e|session] w1 H1; step_keep; [same_as H1|].
  set (inner := fun updateError : JsError =>
         (console_error "Error during AI text update:" updateError;;
          await (discard session);; Throw updateError) : Prog unit).
  set (outer := fun error : JsError =>
         console_error "Error in AI Replace operation:" error).
  assert (Hfail : forall e w2, overlaysListed w2 ->
            maintains overlaysListed
              (wrap [CatchFrame inner; CatchFrame outer;
                     FinallyFrame (setIsProcessing false)] (Throw e)) w2).
  { intros e w2 H2. cbn [wrap inFrame]. unfold inner, outer. step_keep.
    split; [same_as H2|].
    intros [e'|[]] w3 H3; step_keep; same_as H3. }
  apply (maintains_after_sync overlaysListed (Scenario.resolving [])
           (mapSelected draws 0 (selected render)) (sync_mapSelected _ _ _)
           [CatchFrame inner; CatchFrame outer;
            FinallyFrame (setIsProcessing false)]).
  intros updates w2 R. rewrite run_mapSelected in R. injection R as _ <-.
  cbn [wrap inFrame]. unfold inner at 1, outer at 1. step_keep.
  split; [same_as H1|].
  intros [e|[]] w3 H3; step_keep; [apply (Hfail e w3 H3)|].
  split; [exact H3|].
  intros [e|[]] w4 H4; step_keep; [apply (Hfail e w4 H4)|].
  unfold clearEditingState. step_keep. tidy.
  apply (maintains_after_sync overlaysListed (Scenario.resolving [])
           (forEach (overlaysRef (view w4)) removeCustomOverlayItem)
           (sync_forEach_remove _)
           [CatchFrame inner; CatchFrame outer;
            FinallyFrame (setIsProcessing false)]).
  intros [] w' R. rewrite run_removeAll in R. injection R as <-.
  cbn [wrap inFrame]. step_keep.
  eapply (overlaysListed_cleared (overlaysRef (view w4)) w4);
    [reflexivity | reflexivity | | exact H4].
  tidy. f_equal. apply removedAll_instance_ext. reflexivity.
Qed.

End ListedFacts.

Section MountedFacts.

Import Viewer.

Lemma overlaysListed_record (e : Event) (w : World) :
  overlaysListed w -> overlaysListed (record e w).
Proof. intros H. eapply overlaysListed_same; [..|exact H]; reflexivity. Qed.

Lemma overlaysListed_cleanup (w : World) :
  overlaysListed w -> overlaysListed (fst (advance cleanup w)).
Proof.
  intros H. rewrite advance_cleanup, run_cleanup. cbn [fst snd].
  eapply (overlaysListed_cleared (overlaysRef (view w)) w);
    [reflexivity | reflexivity | reflexivity | exact H].
Qed.

(** The overlay list follows the stored regions whatever happens. *)
Lemma mounted_overlaysListed (m : Mounted) :
  reachableMounted (fun _ _ => True) m ->
  overlaysListed (world (shown m))
  /\ Forall (resumesMaintaining overlaysListed) (inflight (shown m)).
Proof.
  induction 1 as [pages | t m m' _ [Hl Hres] _ Hturn].
  - split; [|constructor]. split; [reflexivity | constructor].
  - destruct Hturn as [w q render w' s Ha | draws w q render w' s Ha
                      | l cfg cfg' render Hp Hstep | cfg render
                      | w q render];
      cbn [shown world inflight] in *.
    + destruct (advance_maintains overlaysListed overlaysListed_record
                  _ _ _ _ (maintains_toggle render w Hl) Ha) as [Hl' Hs].
      split; [exact Hl' | apply Forall_app; auto].
    + destruct (advance_maintains overlaysListed overlaysListed_record
                  _ _ _ _ (maintains_replace draws render w Hl) Ha)
        as [Hl' Hs].
      split; [exact Hl' | apply Forall_app; auto].
    + destruct Hstep as [w q w' s Ha | draws w q w' s Ha
                        | overlayId item w q Hf | pageIndex w q
                        | c k r w q1 q2 w' s Ha];
        cbn [world inflight isPress] in *; try discriminate.
      * split; [apply overlaysListed_click, Hl | exact Hres].
      * split; [|exact Hres].
        eapply overlaysListed_same; [..|exact Hl]; reflexivity.
      * apply Forall_app in Hres as [H1 H2].
        inversion H2 as [|? ? Hk H2']; subst.
        destruct (advance_maintains overlaysListed overlaysListed_record
                    _ _ _ _ (Hk r w Hl) Ha) as [Hl' Hs].
        split; [exact Hl' | repeat (apply Forall_app; split); auto].
    + split; assumption.
    + split; [apply overlaysListed_cleanup, Hl | exact Hres].
Qed.

Lemma reachableMounted_weaken (allowed allowed' : Turn -> Mounted -> Prop)
    (m : Mounted) :
  (forall t m0, allowed t m0 -> allowed' t m0) ->
  reachableMounted allowed m -> reachableMounted allowed' m.
Proof.
  intros H. induction 1 as [pages | t m m' _ IH A Hturn].
  - apply mounted_initial.
  - eapply mounted_turn; eauto.
Qed.

Lemma pressedOnce_updated :
  reachableMounted pressesUpdated Scenario.pressedOnce.
Proof.
  apply (mounted_turn _ (Occurs PressContentBoxes) (initialMounted 2));
    [apply mounted_initial | repeat split |].
  apply (turn_pressContentBoxes (world (initialConfig 2)) [] initialView).
  reflexivity.
Qed.

Lemma selectingMounted_steady :
  reachableMounted steady Scenario.selectingMounted.
Proof.
  exact (reachable_is_mounted discardAccepted Scenario.selecting
           selecting_reachable).
Qed.

Lemma pressedTwice_reachable :
  reachableMounted (fun _ _ => True) Scenario.pressedTwice.
Proof.
  apply (mounted_turn _ (Occurs PressContentBoxes) Scenario.pressedOnce);
    [ apply (reachableMounted_weaken pressesUpdated);
        [intros t m _; exact I | apply pressedOnce_updated]
    | exact I | ].
  apply (turn_pressContentBoxes
           (world (shown Scenario.pressedOnce))
           (inflight (shown Scenario.pressedOnce))
           (toolbar Scenario.pressedOnce)).
  reflexivity.
Qed.

End MountedFacts.

(** C6, evaluated on two presses of the toggle in a row.  The first
    press sets the busy flag and parks at [beginContentEditingSession].
    The second comes before the toolbar has been given the handlers of
    the render that follows, so it runs the handler of the first
    render, in whose closure the flag is still off: the guard lets it
    pass, it logs that editing mode is starting and asks for a session
    of its own.  Two operations are in flight while the flag is set,
    and the second press was not dropped. *)
Theorem second_press_before_toolbar_update_starts_again :
  Viewer.reachableMounted (fun _ _ => True) Scenario.pressedTwice
  /\ List.length (Viewer.inflight (Viewer.shown Scenario.pressedOnce)) = 1
  /\ Viewer.isProcessing
       (Viewer.view (Viewer.world (Viewer.shown Scenario.pressedOnce)))
     = true
  /\ Viewer.isProcessing (Viewer.toolbar Scenario.pressedOnce) = false
  /\ List.length (Viewer.inflight (Viewer.shown Scenario.pressedTwice)) = 2
  /\ filter Viewer.isCalled
       (Viewer.journal (Viewer.world (Viewer.shown Scenario.pressedTwice)))
     = [ Viewer.Called Viewer.beginContentEditingSession;
         Viewer.Called Viewer.beginContentEditingSession ]
  /\ skipn (List.length
              (Viewer.journal
                 (Viewer.world (Viewer.shown Scenario.pressedOnce))))
           (Viewer.journal (Viewer.world (Viewer.shown Scenario.pressedTwice)))
     = [ Viewer.ConsoleLog
           "Content Boxes button pressed. Current isEditing state:";
         Viewer.ConsoleLog "Starting editing mode";
         Viewer.Called Viewer.beginContentEditingSession ].
Proof. split; [apply pressedTwice_reachable | repeat split]. Qed.

Section Toolbar.

Import Viewer.

(** X27: as long as every press finds the toolbar updated (holding the
    handlers of a render with the current editing flag, selection and
    busy flag), the busy flag serializes the two toolbar actions, with
    clean-ups of the mount effect and rejected promises allowed: at
    most one handler is parked at an [await]; while one is, the flag is
    set, and a press of either button writes to the console and returns
    at once, with nothing new parked and the component state and the
    instance untouched. *)
Theorem updated_toolbar_serializes_the_handlers :
  forall m : Mounted,
    reachableMounted pressesUpdated m ->
    let w := world (shown m) in
    List.length (inflight (shown m)) <= 1
    /\ (inflight (shown m) <> [] ->
        isProcessing (view w) = true
        /\ forall render,
             sameRender render (view w) ->
             advance (handleContentBoxesPress render) w
             = (logged
                  [ ConsoleLog
                      "Content Boxes button pressed. Current isEditing state:";
                    ConsoleLog "Already processing, ignoring click" ]
                  w, [])
             /\ forall draws, exists line,
                  advance (aiToolbar_onPress draws render) w
                  = (logged [line] w, [])).
Proof.
  intros m R w. destruct (mounted_parkedBusy m R) as [Hlen [_ Hbusy]].
  split; [exact Hlen|]. intros N. specialize (Hbusy N). fold w in Hbusy.
  split; [exact Hbusy|]. intros render S. split.
  - rewrite (handleContentBoxesPress_ext _ _ S).
    apply (toggle_dropped_when_busy w Hbusy).
  - intros draws. rewrite (aiToolbar_onPress_ext draws _ _ S).
    apply (replace_dropped_when_busy draws w Hbusy).
Qed.

(** An instance of X27: the first press parked, the flag set. *)
Lemma updated_toolbar_serializes_the_handlers_witness :
  List.length (inflight (shown Scenario.pressedOnce)) <= 1
  /\ isProcessing (view (world (shown Scenario.pressedOnce))) = true.
Proof.
  pose proof (updated_toolbar_serializes_the_handlers Scenario.pressedOnce
                pressedOnce_updated) as [H1 H2].
  split; [exact H1|]. apply H2. discriminate.
Defined.

(** X28: in every execution, with presses on handlers of earlier
    renders, rejected promises and clean-ups of the mount effect all
    allowed, the overlay list names exactly the overlays of the stored
    regions, in order, at every turn of the event loop, so there are
    always as many listed overlays as stored regions; and no two
    overlays the instance shows share an identifier.  The two refs
    are only ever assigned together, with no [await] in between. *)
Theorem overlay_list_always_follows_the_stored_regions :
  forall m : Mounted,
    reachableMounted (fun _ _ => True) m ->
    let v := view (world (shown m)) in
    overlaysRef v = map overlayIdOf (textBlocksRef v)
    /\ List.length (overlaysRef v) = List.length (textBlocksRef v)
    /\ overlaysMatchRegions v = true
    /\ NoDup (map co_id (customOverlayItems (instance (world (shown m))))).
Proof.
  intros m R v. destruct (mounted_overlaysListed m R) as [[L N] _].
  fold v in L. split; [exact L|].
  split; [rewrite L; apply length_map|]. split; [|exact N].
  unfold overlaysMatchRegions. rewrite L, length_map, Nat.eqb_refl.
  now destruct (isEditing v).
Qed.

(** An instance of X28: after the second of two presses in a row. *)
Lemma overlay_list_always_follows_the_stored_regions_witness :
  overlaysRef (view (world (shown Scenario.pressedTwice)))
  = map overlayIdOf
        (textBlocksRef (view (world (shown Scenario.pressedTwice)))).
Proof.
  apply (overlay_list_always_follows_the_stored_regions Scenario.pressedTwice).
  apply pressedTwice_reachable.
Defined.

(** X21: along every execution in which every press finds the toolbar
    updated, no [discard] is rejected and the clean-up of the mount
    effect does not run, the parts of the local state agree: the
    overlay list names the overlays of the stored regions, in order (so
    there are as many overlays as regions); every selected region is a
    stored one; and no two overlays the instance shows share an
    identifier. *)
Theorem local_state_agrees_while_discard_accepted :
  forall m : Mounted,
    reachableMounted steady m ->
    let v := view (world (shown m)) in
    overlaysRef v = map overlayIdOf (textBlocksRef v)
    /\ List.length (overlaysRef v) = List.length (textBlocksRef v)
    /\ (forall tb, In tb (selected v) -> In tb (textBlocksRef v))
    /\ selectionStored v = true
    /\ NoDup (map co_id (customOverlayItems (instance (world (shown m))))).
Proof.
  intros m R v.
  pose proof (mounted_is_reachable discardAccepted m R) as R'.
  destruct (reachable_consistent (shown m) R') as [C1 C2 C3 C4].
  fold v in C1, C4.
  split; [exact C1|]. split; [rewrite C1; apply length_map|].
  split; [exact C4|]. split; [|exact C3].
  unfold selectionStored. apply forallb_forall. intros tb H.
  unfold isSelected. apply existsb_exists.
  exists tb. split; [apply C4, H | apply String.eqb_refl].
Qed.

(** An instance of X21: r2 and r4 selected among five stored regions. *)
Lemma local_state_agrees_while_discard_accepted_witness :
  selectionStored (view (world (shown Scenario.selectingMounted))) = true.
Proof.
  exact (proj1 (proj2 (proj2 (proj2
    (local_state_agrees_while_discard_accepted Scenario.selectingMounted
       selectingMounted_steady))))).
Defined.

End Toolbar.
